(** * Financial-Document-Organizer: scan pipeline and credential lifecycle

  A shallow embedding of the parts of the NestJS services that carry the
  control flow of the repository:

  - [ScannerService] ([src/scanner/scanner.service.ts]): the scan cycle,
    the per-email pipeline, [isDocumentFile], [formatFileSize];
  - [DriveService] (second half of [src/gmail/gmail.service.ts]):
    [generateStructuredFilename], [extractInvoiceNumber];
  - [AuthService] ([src/auth/auth.service.ts]): [getAuthenticated],
    [refreshTokens], [saveTokens], [loadTokens], and the methods of the
    sign-in flow;
  - [GmailService] (first half of [src/gmail/gmail.service.ts]) and
    [SheetsService] ([src/sheets/sheets.service.ts]): the requests they
    send to the Google APIs and what they make of the answers.

  JavaScript strings are modelled as [string] (sequences of 8-bit code
  units, i.e. the Latin-1 range of UTF-16); numbers that the code only
  uses as byte counts are exact rationals. *)

From Stdlib Require Import String Ascii DecimalString List Bool Arith ZArith QArith Qround Lia.
From Equations Require Import Equations.
From Stdlib Require DecimalN.
Import ListNotations.

Local Open Scope string_scope.

(** ** JavaScript string primitives *)

Module Js.

Definition code (c : ascii) : nat := nat_of_ascii c.

Definition between (lo hi : nat) (c : ascii) : bool :=
  (lo <=? code c)%nat && (code c <=? hi)%nat.

(** [\d] *)
Definition is_digit (c : ascii) : bool := between 48 57 c.

(** [\s], restricted to code units below 256: TAB, LF, VT, FF, CR, space
    and NBSP. *)
Definition is_space (c : ascii) : bool :=
  between 9 13 c || (code c =? 32)%nat || (code c =? 160)%nat.

Definition is_upper (c : ascii) : bool := between 65 90 c.
Definition is_lower (c : ascii) : bool := between 97 122 c.
Definition is_alnum (c : ascii) : bool :=
  is_digit c || is_upper c || is_lower c.

(** [String.prototype.toLowerCase] on one code unit below 256: the ASCII
    capitals and the Latin-1 capitals other than the multiplication sign. *)
Definition lower_char (c : ascii) : ascii :=
  if is_upper c || (between 192 222 c && negb (code c =? 215)%nat)
  then ascii_of_nat (code c + 32) else c.

(** Upper-casing of an ASCII code unit. This is the canonicalisation used
    by a case-insensitive regular expression without the [u] flag, and it
    is [toUpperCase] on the digits and letters of a base-36 rendering. *)
Definition upper_char (c : ascii) : ascii :=
  if is_lower c then ascii_of_nat (code c - 32) else c.

Fixpoint map (f : ascii -> ascii) (s : string) : string :=
  match s with
  | EmptyString => EmptyString
  | String c s' => String (f c) (map f s')
  end.

Definition toLowerCase : string -> string := map lower_char.
Definition toUpperCase : string -> string := map upper_char.

Fixpoint drop (n : nat) (s : string) : string :=
  match n, s with
  | O, _ => s
  | S n', EmptyString => EmptyString
  | S n', String _ s' => drop n' s'
  end.

Fixpoint take (n : nat) (s : string) : string :=
  match n, s with
  | O, _ => EmptyString
  | S n', EmptyString => EmptyString
  | S n', String c s' => String c (take n' s')
  end.

(** [s.lastIndexOf(c)]: [-1] when [c] does not occur. *)
Fixpoint lastIndexOf (c : ascii) (s : string) : Z :=
  match s with
  | EmptyString => (-1)%Z
  | String a s' =>
      let r := lastIndexOf c s' in
      if (0 <=? r)%Z then (r + 1)%Z
      else if Ascii.eqb a c then 0%Z else (-1)%Z
  end.

(** [s.substring(start)]: a negative start is clamped to 0, a start past
    the end gives the empty string. *)
Definition substring_from (start : Z) (s : string) : string :=
  drop (Z.to_nat (Z.max 0 start)) s.

(** [s.substr(start, len)] for a non-negative [start]. *)
Definition substr (start len : nat) (s : string) : string :=
  take len (drop start s).

Fixpoint take_while (p : ascii -> bool) (s : string) : string :=
  match s with
  | EmptyString => EmptyString
  | String c s' => if p c then String c (take_while p s') else EmptyString
  end.

Fixpoint drop_while (p : ascii -> bool) (s : string) : string :=
  match s with
  | EmptyString => EmptyString
  | String c s' => if p c then drop_while p s' else s
  end.

Fixpoint forallb (p : ascii -> bool) (s : string) : bool :=
  match s with
  | EmptyString => true
  | String c s' => p c && forallb p s'
  end.

(** [s.endsWith(suffix)] *)
Definition ends_with (suffix s : string) : bool :=
  String.eqb (drop (String.length s - String.length suffix) s) suffix
  && (String.length suffix <=? String.length s)%nat.

(** [arr.includes(x)] on an array of strings. *)
Definition includes (arr : list string) (x : string) : bool :=
  existsb (String.eqb x) arr.

(** [s.split(c)[0]] *)
Fixpoint before (c : ascii) (s : string) : string :=
  match s with
  | EmptyString => EmptyString
  | String a s' => if Ascii.eqb a c then EmptyString else String a (before c s')
  end.

(** [s.split(c).pop()]: what follows the last [c], the whole string when
    [c] does not occur. *)
Definition after_last (c : ascii) (s : string) : string :=
  substring_from (lastIndexOf c s + 1) s.

(** [s.replace(/[^...]/g, r)] where [keep] recognises the class that is
    negated and [r] is empty or one code unit. *)
Fixpoint replace_outside (keep : ascii -> bool) (r : string) (s : string) : string :=
  match s with
  | EmptyString => EmptyString
  | String c s' =>
      if keep c then String c (replace_outside keep r s')
      else r ++ replace_outside keep r s'
  end.

Fixpoint rev_onto (s acc : string) : string :=
  match s with
  | EmptyString => acc
  | String c s' => rev_onto s' (String c acc)
  end.

Definition rev (s : string) : string := rev_onto s EmptyString.

(** [s.trim()] *)
Definition trim (s : string) : string :=
  rev (drop_while is_space (rev (drop_while is_space s))).

(** Decimal rendering of a natural number. *)
Definition N_to_string (n : N) : string := NilZero.string_of_uint (N.to_uint n).

End Js.

(** ** [ScannerService.formatFileSize] *)

Module FileSize.

Definition units : list string := ["B"; "KB"; "MB"; "GB"].

Definition inspect {A : Type} (a : A) : {b : A | a = b} := exist _ a eq_refl.

(** The [while] loop of [formatFileSize]:
<<
    while (size >= 1024 && unitIndex <= units.length - 1) {
      size /= 1024;
      unitIndex++;
    }
>>
    Dividing a double by 1024 is exact, so [Q] is the value the code holds.
    The loop ends because [unitIndex] only grows and the guard bounds it. *)
Equations? scale (size : Q) (unitIndex : nat) : Q * nat
  by wf (S (length units) - unitIndex)%nat lt :=
  scale size unitIndex
    with inspect (Qle_bool 1024 size && (unitIndex <=? length units - 1)%nat) => {
    | exist _ true guard => scale (size / 1024) (S unitIndex);
    | exist _ false _ => (size, unitIndex) }.
Proof.
  apply andb_prop in guard. destruct guard as [_ Hle].
  apply Nat.leb_le in Hle. clear scale.
  do 4 (destruct unitIndex as [|unitIndex]; [lia|]). lia.
Qed.

(** [Math.round]: the nearest integer, halves upwards. *)
Definition Math_round (x : Q) : Z := Qfloor (x + (1 # 2)).

(** Rendering of the number [h / 100] for an integer [h >= 0], as the
    template literal prints it: no trailing zeros and no decimal point when
    the fraction is empty. *)
Definition show_hundredths (h : Z) : string :=
  let n := Z.to_N h in
  let whole := Js.N_to_string (n / 100) in
  let frac := (n mod 100)%N in
  if (frac =? 0)%N then whole
  else if (frac mod 10 =? 0)%N then whole ++ "." ++ Js.N_to_string (frac / 10)
  else if (frac <? 10)%N then whole ++ ".0" ++ Js.N_to_string frac
  else whole ++ "." ++ Js.N_to_string frac.

(** [units[unitIndex]] inside a template literal: an index outside the
    array reads [undefined], which prints as the word. *)
Definition unit_label (unitIndex : nat) : string :=
  match nth_error units unitIndex with
  | Some u => u
  | None => "undefined"
  end.

(** [formatFileSize(sizeInBytes)] for a byte count. For counts below
    [2^53 / 100] every floating-point operation of the source is exact, so
    the rational computation below is the one the code performs. *)
Definition formatFileSize (sizeInBytes : N) : string :=
  if (sizeInBytes =? 0)%N then "Unknown"
  else
    let '(size, unitIndex) := scale (inject_Z (Z.of_N sizeInBytes)) 0 in
    show_hundredths (Math_round (size * 100)) ++ " " ++ unit_label unitIndex.

(** The index that [formatFileSize] uses for the [units] lookup. *)
Definition unitIndexOf (sizeInBytes : N) : nat :=
  snd (scale (inject_Z (Z.of_N sizeInBytes)) 0).

End FileSize.


(** ** [ScannerService.isDocumentFile] *)

Module DocumentFile.

Definition documentExtensions : list string :=
  [".pdf"; ".doc"; ".docx"; ".png"; ".jpg"; ".jpeg"; ".gif"; ".tiff"].

(** [filename.toLowerCase().substring(filename.lastIndexOf('.'))], then
    [documentExtensions.includes(extension)]. *)
Definition isDocumentFile (filename : string) : bool :=
  let extension :=
    Js.substring_from (Js.lastIndexOf "." filename) (Js.toLowerCase filename) in
  Js.includes documentExtensions extension.

(** The allow-list as the specification words it: extensions without the
    dot, compared without regard to case. *)
Definition allowed_extensions : list string :=
  ["pdf"; "doc"; "docx"; "png"; "jpg"; "jpeg"; "gif"; "tiff"].

(** [name] ends in a dot followed by [ext], up to case. *)
Definition has_extension (ext name : string) : Prop :=
  exists stem, Js.toLowerCase name = stem ++ "." ++ ext.

End DocumentFile.

(** ** The regular expressions of the invoice-number extraction *)

Module Pattern.

(** The three shapes of pattern the services use. *)
Inductive t : Type :=
| KeywordNumber (keyword : string)  (* /keyword[\s#]*(\d+)/i *)
| HashNumber                        (* /#(\d+)/ *)
| DigitRun (least : nat).           (* /(\d{least,})/ *)

(** [keyword] read without regard to case at the start of [s]; the rest of
    [s] when it is there. *)
Fixpoint ci_prefix (keyword s : string) : option string :=
  match keyword, s with
  | EmptyString, _ => Some s
  | String _ _, EmptyString => None
  | String k keyword', String c s' =>
      if Ascii.eqb (Js.upper_char k) (Js.upper_char c)
      then ci_prefix keyword' s' else None
  end.

(** [[\s#]] *)
Definition is_separator (c : ascii) : bool :=
  Js.is_space c || Ascii.eqb c "#".

(** [(\d+)] at the start of [s]: the longest run of digits, if not empty. *)
Definition digits1 (s : string) : option string :=
  match Js.take_while Js.is_digit s with
  | EmptyString => None
  | d => Some d
  end.

(** The capture group when the pattern matches at the very start of [s].
    The separator class and the digits are disjoint, so the greedy reading
    is the only one that can succeed. *)
Definition match_here (p : t) (s : string) : option string :=
  match p with
  | KeywordNumber keyword =>
      match ci_prefix keyword s with
      | Some rest => digits1 (Js.drop_while is_separator rest)
      | None => None
      end
  | HashNumber =>
      match s with
      | String "#" rest => digits1 rest
      | _ => None
      end
  | DigitRun least =>
      let d := Js.take_while Js.is_digit s in
      if (least <=? String.length d)%nat then Some d else None
  end.

(** [subject.match(pattern)] without the [g] flag: the leftmost position
    where the pattern matches; the value is capture group 1. *)
Fixpoint exec (p : t) (s : string) : option string :=
  match match_here p s with
  | Some group => Some group
  | None =>
      match s with
      | EmptyString => None
      | String _ s' => exec p s'
      end
  end.

(** [for (const pattern of patterns) { const match = ...; if (match) ... }] *)
Fixpoint first_match (patterns : list t) (subject : string) : option string :=
  match patterns with
  | [] => None
  | p :: rest =>
      match exec p subject with
      | Some group => Some group
      | None => first_match rest subject
      end
  end.

End Pattern.

(** ** [DriveService]: structured file names *)

Module Drive.
Import Pattern.

Definition patterns : list Pattern.t :=
  [KeywordNumber "invoice"; KeywordNumber "inv"; KeywordNumber "bill";
   KeywordNumber "receipt"; HashNumber; DigitRun 4].

(** [DriveService.extractInvoiceNumber(subject)].

    [random36] stands for the string [Math.random().toString(36)] that the
    fallback draws: "0" for the number 0, otherwise "0." followed by base-36
    digits, as many as the rendering of that double has. *)
Definition extractInvoiceNumber (random36 subject : string) : string :=
  match first_match patterns subject with
  | Some group => "INV" ++ group
  | None => "INV" ++ Js.toUpperCase (Js.substr 2 6 random36)
  end.

(** A digit of a base-36 rendering. *)
Definition is_base36 (c : ascii) : bool := Js.is_digit c || Js.is_lower c.

(** [^INV[A-Z0-9]{6}$] *)
Definition is_token_char (c : ascii) : bool := Js.is_upper c || Js.is_digit c.

Definition matches_INV6 (s : string) : bool :=
  String.eqb (Js.take 3 s) "INV"
  && (String.length (Js.drop 3 s) =? 6)%nat
  && Js.forallb is_token_char (Js.drop 3 s).

(** [generateStructuredFilename(senderEmail, subject, date, originalFilename)].

    [isoDate] stands for [new Date(date).toISOString().split('T')[0]], which
    raises a RangeError on a date that does not parse ([None]); [today] is
    the same rendering of the current date. [originalFilename] is [None]
    when the caller passes [undefined], on which [.split] raises a
    TypeError. Either error is caught and the fallback name returned. *)
Definition generateStructuredFilename
    (isoDate : string -> option string) (today random36 : string)
    (senderEmail subject date : string) (originalFilename : option string)
  : string :=
  let senderName :=
    Js.take 20 (Js.replace_outside Js.is_alnum "" (Js.before "@" senderEmail)) in
  let invoiceNumber := extractInvoiceNumber random36 subject in
  match isoDate date, originalFilename with
  | Some formattedDate, Some original =>
      let extension :=
        match Js.after_last "." original with
        | EmptyString => "pdf"
        | e => e
        end in
      senderName ++ "_" ++ invoiceNumber ++ "_" ++ formattedDate ++ "." ++ extension
  | _, Some original => today ++ "_" ++ original
  | _, None => today ++ "_" ++ "undefined"
  end.

End Drive.

(** ** Exceptions and state

    Every [throw] of the services raises an [Error] and every handler reads
    only [error.message], so an exception is its message. A computation
    keeps the state it reached when it throws: nothing is rolled back. *)

Inductive Result (A : Type) : Type :=
| Ok (value : A)
| Throw (message : string).
Arguments Ok {A} value.
Arguments Throw {A} message.

Definition M (S A : Type) : Type := S -> Result A * S.

Definition ret {S A : Type} (a : A) : M S A := fun s => (Ok a, s).

Definition throw {S A : Type} (message : string) : M S A :=
  fun s => (Throw message, s).

Definition bind {S A B : Type} (m : M S A) (k : A -> M S B) : M S B :=
  fun s =>
    match m s with
    | (Ok a, s') => k a s'
    | (Throw message, s') => (Throw message, s')
    end.

(** [try { m } catch (error) { handler(error.message) }] *)
Definition try_catch {S A : Type} (m : M S A) (handler : string -> M S A) : M S A :=
  fun s =>
    match m s with
    | (Ok a, s') => (Ok a, s')
    | (Throw message, s') => handler message s'
    end.

Declare Scope js_scope.
Delimit Scope js_scope with js.
Notation "x <- m ;; k" := (bind m (fun x => k))
  (at level 61, m at next level, right associativity) : js_scope.
Notation "m ;;; k" := (bind m (fun _ => k))
  (at level 61, right associativity) : js_scope.

(** ** [ScannerService]: the scan cycle *)

Module Scanner.
Import Pattern.
Local Open Scope js_scope.

(** *** Data *)

Record EmailAttachment : Type := {
  filename : string;
  attachmentId : string;
  mimeType : option string;
  size : N
}.

Record EmailDetails : Type := {
  id : string;
  subject : string;
  from : string;
  date : string;
  attachments : list EmailAttachment
}.

(** A row of [processed_documents]. [emailDate] keeps the header text that
    [new Date(...)] is built from. *)
Record ProcessedDocument : Type := {
  emailId : string;
  messageId : string;
  senderEmail : string;
  senderName : string;
  doc_subject : string;
  invoiceNumber : option string;
  emailDate : string;
  fileName : string;
  originalFileName : string;
  driveFileId : string;
  driveFileUrl : string;
  doc_spreadsheetId : string;
  spreadsheetRow : nat;
  fileSize : string;
  doc_mimeType : option string;
  doc_status : string
}.

Inductive ScanStatus : Type := started | completed | failed.

(** A row of [scan_logs]; [log_id] is [None] until the first save. *)
Record ScanLog : Type := {
  log_id : option nat;
  status : ScanStatus;
  emailsProcessed : nat;
  documentsProcessed : nat;
  errorsCount : nat;
  errorDetails : option string;
  completedAt : option Z
}.

Record ProcessedDocumentResult : Type := {
  res_emailId : string;
  res_fileName : string;
  res_driveFileId : string;
  res_spreadsheetRow : nat
}.

Record ProcessingResult : Type := {
  processed : nat;
  errors : list string;
  details : list ProcessedDocumentResult
}.

(** The row fields that [logDocument] receives. *)
Record DocumentData : Type := {
  data_emailDate : string;
  data_senderEmail : string;
  data_subject : string;
  data_fileName : string;
  data_driveFileId : string;
  data_fileSize : string
}.

(** *** Collaborators

    Each call that leaves the service is recorded; the history, most recent
    call first, is what a collaborator's answer may depend on. *)

Inductive Call : Type :=
| ScanLogSave
| EnsureFolderExists
| EnsureSpreadsheetExists
| DocumentFind
| SearchEmails
| GetEmailDetails (messageId : string)
| DownloadAttachment (messageId attachmentId : string)
| UploadFile (name : string)
| LogDocument (name : string)
| DocumentSave (emailId : string)
| LabelEmail (messageId : string).

Definition History : Type := list Call.

Record Env : Type := {
  ensureFolderExists : History -> string -> Result string;
  ensureSpreadsheetExists : History -> string -> Result string;
  (** [Promise.all] rejects with the rejection that settles first. *)
  folder_settles_first : History -> bool;
  searchEmails : History -> Result (list string);
  getEmailDetails : History -> string -> Result EmailDetails;
  downloadAttachment : History -> string -> string -> Result string;
  uploadFile : History -> string -> string -> option string -> string -> Result string;
  logDocument : History -> string -> DocumentData -> Result nat;
  labelEmail : History -> string -> Result unit;
  (** Faults of the two repositories: [Some message] makes the call throw. *)
  scanLog_save_fault : History -> option string;
  document_save_fault : History -> option string;
  document_find_fault : History -> option string;
  (** [Date.now()], the ISO day of a date header, today's ISO day, the
      rendering [Math.random().toString(36)], [JSON.stringify]. *)
  Date_now : History -> Z;
  isoDate : string -> option string;
  today : History -> string;
  random36 : History -> string;
  JSON_stringify : list string -> string;
  (** What the free identifier [structuredFilename] of [processEmail]
      resolves to: the function declares [structuredFileName] only, so the
      name is looked up on the global object and is a ReferenceError when no
      such global exists ([None]). *)
  global_structuredFilename : option string
}.

Record World : Type := {
  scanLogs : list ScanLog;
  documents : list ProcessedDocument;
  labelled : list string;
  history : History
}.

Definition record (c : Call) (w : World) : World :=
  {| scanLogs := scanLogs w; documents := documents w;
     labelled := labelled w; history := c :: history w |}.

(** A call to a collaborator: its answer is read off the history so far, and
    the call joins the history. *)
Definition call {A : Type} (c : Call) (answer : History -> Result A) : M World A :=
  fun w => (answer (history w), record c w).

Definition fault (f : option string) : Result unit :=
  match f with
  | Some message => Throw message
  | None => Ok tt
  end.

(** *** The two repositories *)

Fixpoint replace_nth {A : Type} (n : nat) (x : A) (l : list A) : list A :=
  match n, l with
  | _, [] => []
  | O, _ :: l' => x :: l'
  | S n', y :: l' => y :: replace_nth n' x l'
  end.

Definition with_id (i : nat) (l : ScanLog) : ScanLog :=
  {| log_id := Some i; status := status l;
     emailsProcessed := emailsProcessed l;
     documentsProcessed := documentsProcessed l;
     errorsCount := errorsCount l; errorDetails := errorDetails l;
     completedAt := completedAt l |}.

(** [scanLogRepository.save(scanLog)]: inserts an entity that has no id and
    gives it one, updates the row of an entity that has one. *)
Definition scanLogRepository_save (env : Env) (l : ScanLog) : M World ScanLog :=
  _ <- call ScanLogSave (fun h => fault (scanLog_save_fault env h)) ;;
  fun w =>
    match log_id l with
    | None =>
        let l' := with_id (length (scanLogs w)) l in
        (Ok l', {| scanLogs := scanLogs w ++ [l']; documents := documents w;
                   labelled := labelled w; history := history w |})
    | Some i =>
        (Ok l, {| scanLogs := replace_nth i l (scanLogs w);
                  documents := documents w;
                  labelled := labelled w; history := history w |})
    end.

(** [processedDocumentRepository.save(processedDocument)] *)
Definition processedDocumentRepository_save (env : Env) (d : ProcessedDocument)
  : M World unit :=
  _ <- call (DocumentSave (emailId d)) (fun h => fault (document_save_fault env h)) ;;
  fun w =>
    (Ok tt, {| scanLogs := scanLogs w; documents := documents w ++ [d];
               labelled := labelled w; history := history w |}).

(** [getProcessedEmailIds()] *)
Definition getProcessedEmailIds (env : Env) : M World (list string) :=
  _ <- call DocumentFind (fun h => fault (document_find_fault env h)) ;;
  fun w => (Ok (List.map emailId (documents w)), w).

(** [gmailService.labelEmail(messageId)] *)
Definition gmail_labelEmail (env : Env) (messageId : string) : M World unit :=
  _ <- call (LabelEmail messageId) (fun h => labelEmail env h messageId) ;;
  fun w =>
    (Ok tt, {| scanLogs := scanLogs w; documents := documents w;
               labelled := labelled w ++ [messageId]; history := history w |}).

(** *** Helpers of the service *)

(** [extractSenderName(email)] *)
Definition extractSenderName (email : string) : string :=
  Js.trim
    (Js.replace_outside (fun c => Js.is_alnum c || Js.is_space c) " "
       (Js.before "@" email)).

Definition patterns : list Pattern.t :=
  [KeywordNumber "invoice"; KeywordNumber "inv"; KeywordNumber "bill";
   KeywordNumber "receipt"; HashNumber].

(** [ScannerService.extractInvoiceNumber(subject)]: [null] when no pattern
    matches. *)
Definition extractInvoiceNumber (subject : string) : option string :=
  first_match patterns subject.

(** *** The per-email pipeline *)

(** The entity of lines 166-183. *)
Definition new_document (messageId spreadsheetId : string)
    (emailDetails : EmailDetails) (attachment : EmailAttachment)
    (structuredFileName driveFileId : string) (rowNumber : nat)
  : ProcessedDocument :=
  {| emailId := messageId;
     messageId := messageId;
     senderEmail := from emailDetails;
     senderName := extractSenderName (from emailDetails);
     doc_subject := subject emailDetails;
     invoiceNumber := extractInvoiceNumber (subject emailDetails);
     emailDate := date emailDetails;
     fileName := structuredFileName;
     originalFileName := filename attachment;
     driveFileId := driveFileId;
     driveFileUrl := "https://drive.google.com/file/d/" ++ driveFileId ++ "/view";
     doc_spreadsheetId := spreadsheetId;
     spreadsheetRow := rowNumber;
     fileSize := FileSize.formatFileSize (size attachment);
     doc_mimeType := mimeType attachment;
     doc_status := "completed" |}.

(** The body of the [try] block that [processEmail] runs for one attachment
    (lines 133-195); [processedDocs] is the array the loop pushes to. *)
Definition attachmentBody (env : Env) (messageId folderId spreadsheetId : string)
    (emailDetails : EmailDetails) (attachment : EmailAttachment)
    (processedDocs : list ProcessedDocumentResult)
  : M World (list ProcessedDocumentResult) :=
  if negb (DocumentFile.isDocumentFile (filename attachment))
  then ret processedDocs
  else
    fileBuffer <- call (DownloadAttachment messageId (attachmentId attachment))
      (fun h => downloadAttachment env h messageId (attachmentId attachment)) ;;
    (* [emailDetails.filename] is not a field of [EmailDetails]: the fourth
       argument is [undefined]. *)
    structuredFileName <- (fun w =>
      (Ok (Drive.generateStructuredFilename (isoDate env) (today env (history w))
             (random36 env (history w))
             (from emailDetails) (subject emailDetails) (date emailDetails) None),
       w)) ;;
    driveFileId <- call (UploadFile structuredFileName)
      (fun h => uploadFile env h fileBuffer structuredFileName
                  (mimeType attachment) folderId) ;;
    rowNumber <- call (LogDocument structuredFileName)
      (fun h => logDocument env h spreadsheetId
         {| data_emailDate := date emailDetails;
            data_senderEmail := from emailDetails;
            data_subject := subject emailDetails;
            data_fileName := structuredFileName;
            data_driveFileId := driveFileId;
            data_fileSize := FileSize.formatFileSize (size attachment) |}) ;;
    _ <- processedDocumentRepository_save env
      (new_document messageId spreadsheetId emailDetails attachment
         structuredFileName driveFileId rowNumber) ;;
    (* [fileName: structuredFilename] *)
    structuredFilename <-
      match global_structuredFilename env with
      | Some v => ret v
      | None => throw "structuredFilename is not defined"
      end ;;
    ret (processedDocs ++
           [{| res_emailId := messageId;
               res_fileName := structuredFilename;
               res_driveFileId := driveFileId;
               res_spreadsheetRow := rowNumber |}])%list.

(** One turn of the attachment loop: the body and its [catch], which wraps
    the message and throws again. *)
Definition processAttachment (env : Env) (messageId folderId spreadsheetId : string)
    (emailDetails : EmailDetails) (attachment : EmailAttachment)
    (processedDocs : list ProcessedDocumentResult)
  : M World (list ProcessedDocumentResult) :=
  try_catch
    (attachmentBody env messageId folderId spreadsheetId emailDetails attachment
       processedDocs)
    (fun message =>
       throw ("Failed to process attachment " ++ filename attachment ++ ": " ++ message)).

(** [for (const attachment of emailDetails.attachments) { ... }] *)
Fixpoint processAttachments (env : Env) (messageId folderId spreadsheetId : string)
    (emailDetails : EmailDetails) (rest : list EmailAttachment)
    (processedDocs : list ProcessedDocumentResult)
  : M World (list ProcessedDocumentResult) :=
  match rest with
  | [] => ret processedDocs
  | attachment :: rest' =>
      docs <- processAttachment env messageId folderId spreadsheetId emailDetails
                attachment processedDocs ;;
      processAttachments env messageId folderId spreadsheetId emailDetails rest' docs
  end.

(** [processEmail(messageId, folderId, spreadsheetId)]. [getEmailDetails]
    returns an object or throws, so the [!emailDetails] test of line 123 never
    fires and is left out. *)
Definition processEmail (env : Env) (messageId folderId spreadsheetId : string)
  : M World (list ProcessedDocumentResult) :=
  emailDetails <- call (GetEmailDetails messageId)
    (fun h => getEmailDetails env h messageId) ;;
  processedDocs <- processAttachments env messageId folderId spreadsheetId
    emailDetails (attachments emailDetails) [] ;;
  if (0 <? length processedDocs)%nat
  then _ <- gmail_labelEmail env messageId ;; ret processedDocs
  else ret processedDocs.

(** *** The scan cycle *)

(** The [for] loop of [scanAndProcess] (lines 71-88): each email runs inside
    its own [try]; the [catch] turns a failure into an entry of
    [result.errors]. *)
Fixpoint processMessages (env : Env) (folderId spreadsheetId : string)
    (messages : list string) (result : ProcessingResult)
  : World -> ProcessingResult * World :=
  fun w =>
    match messages with
    | [] => (result, w)
    | message :: rest =>
        match processEmail env message folderId spreadsheetId w with
        | (Ok processedDocs, w') =>
            processMessages env folderId spreadsheetId rest
              {| processed := S (processed result);
                 errors := errors result;
                 details := details result ++ processedDocs |} w'
        | (Throw error_message, w') =>
            processMessages env folderId spreadsheetId rest
              {| processed := processed result;
                 errors := errors result ++
                           ["Email " ++ message ++ ": " ++ error_message];
                 details := details result |} w'
        end
    end.

(** [Promise.all([ensureFolderExists(...), ensureSpreadsheetExists(...)])]:
    both calls are made; the pair when both resolve, otherwise the rejection
    that settles first. *)
Definition setup (env : Env) : M World (string * string) :=
  fun w =>
    let h := history w in
    let folder := ensureFolderExists env h "Financial Document" in
    let sheet :=
      ensureSpreadsheetExists env (EnsureFolderExists :: h) "Financial Documents Log" in
    let w' := record EnsureSpreadsheetExists (record EnsureFolderExists w) in
    match folder, sheet with
    | Ok folderId, Ok spreadsheetId => (Ok (folderId, spreadsheetId), w')
    | Throw e, Ok _ => (Throw e, w')
    | Ok _, Throw e => (Throw e, w')
    | Throw e1, Throw e2 =>
        (Throw (if folder_settles_first env h then e1 else e2), w')
    end.

(** The local variable [scanLog] lives beside the world while the [try]
    block runs: the handler reads the object as the block left it. *)
Record Run : Type := {
  scanLog : ScanLog;
  world : World
}.

Definition lift {A : Type} (m : M World A) : M Run A :=
  fun r =>
    let '(a, w') := m (world r) in
    (a, {| scanLog := scanLog r; world := w' |}).

Definition update_scanLog (f : ScanLog -> ScanLog) : M Run unit :=
  fun r => (Ok tt, {| scanLog := f (scanLog r); world := world r |}).

(** [await this.scanLogRepository.save(scanLog)] on the local object. *)
Definition save_scanLog (env : Env) : M Run unit :=
  fun r =>
    match scanLogRepository_save env (scanLog r) (world r) with
    | (Ok l, w') => (Ok tt, {| scanLog := l; world := w' |})
    | (Throw e, w') => (Throw e, {| scanLog := scanLog r; world := w' |})
    end.

Definition now (env : Env) (r : Run) : Z := Date_now env (history (world r)).

Definition empty_result : ProcessingResult :=
  {| processed := 0; errors := []; details := [] |}.

(** Lines 63-64: the assignments before the early return. *)
Definition mark_idle (t : Z) (l : ScanLog) : ScanLog :=
  {| log_id := log_id l; status := completed;
     emailsProcessed := emailsProcessed l;
     documentsProcessed := documentsProcessed l;
     errorsCount := errorsCount l; errorDetails := errorDetails l;
     completedAt := Some t |}.

(** Lines 90-96: the assignments after the loop. *)
Definition mark_completed (env : Env) (t : Z) (result : ProcessingResult)
    (l : ScanLog) : ScanLog :=
  {| log_id := log_id l; status := completed;
     emailsProcessed := processed result;
     documentsProcessed := length (details result);
     errorsCount := length (errors result);
     errorDetails :=
       if (0 <? length (errors result))%nat
       then Some (JSON_stringify env (errors result)) else None;
     completedAt := Some t |}.

(** Lines 104-106: the assignments of the handler. *)
Definition mark_failed (t : Z) (error_message : string) (l : ScanLog) : ScanLog :=
  {| log_id := log_id l; status := failed;
     emailsProcessed := emailsProcessed l;
     documentsProcessed := documentsProcessed l;
     errorsCount := errorsCount l;
     errorDetails := Some error_message;
     completedAt := Some t |}.

(** [messages.filter((msg) => !processedEmailIds.includes(msg.id))] *)
Definition unprocessed (processedEmailIds messages : list string) : list string :=
  filter (fun msg => negb (Js.includes processedEmailIds msg)) messages.

(** The [try] block of [scanAndProcess] (lines 41-102). *)
Definition scanBody (env : Env) : M Run ProcessingResult :=
  ids <- lift (setup env) ;;
  let '(folderId, spreadsheetId) := ids in
  processedEmailIds <- lift (getProcessedEmailIds env) ;;
  messages <- lift (call SearchEmails (searchEmails env)) ;;
  let unprocessedMessages := unprocessed processedEmailIds messages in
  if (length unprocessedMessages =? 0)%nat
  then
    _ <- (fun r => update_scanLog (mark_idle (now env r)) r) ;;
    _ <- save_scanLog env ;;
    ret empty_result
  else
    result <- lift (fun w =>
      let '(res, w') :=
        processMessages env folderId spreadsheetId unprocessedMessages
          empty_result w in
      (Ok res, w')) ;;
    _ <- (fun r => update_scanLog (mark_completed env (now env r) result) r) ;;
    _ <- save_scanLog env ;;
    ret result.

Definition new_scanLog : ScanLog :=
  {| log_id := None; status := started; emailsProcessed := 0;
     documentsProcessed := 0; errorsCount := 0; errorDetails := None;
     completedAt := None |}.

(** The [catch] of [scanAndProcess] (lines 103-111). *)
Definition scanHandler (env : Env) (error_message : string) : M Run ProcessingResult :=
  _ <- (fun r => update_scanLog (mark_failed (now env r) error_message) r) ;;
  _ <- save_scanLog env ;;
  throw ("Scan process failed: " ++ error_message).

(** [scanAndProcess()]. The first save stands before the [try]. *)
Definition scanAndProcess (env : Env) : M World ProcessingResult :=
  fun w =>
    match scanLogRepository_save env new_scanLog w with
    | (Throw e, w1) => (Throw e, w1)
    | (Ok l, w1) =>
        let '(res, r) :=
          try_catch (scanBody env) (scanHandler env) {| scanLog := l; world := w1 |} in
        (res, world r)
    end.

End Scanner.

(** ** [AuthService]: the credential lifecycle *)

Module Auth.
Local Open Scope js_scope.

(** [Credentials] of google-auth-library: every field may be absent. *)
Record Credentials : Type := {
  access_token : option string;
  refresh_token : option string;
  scope : option string;
  token_type : option string;
  expiry_date : option Z
}.

(** The row of [user_tokens] that belongs to [defaultUserId]. The text
    columns are optional because [create] copies fields that the exchange may
    have left out. *)
Record UserToken : Type := {
  userId : string;
  accessToken : option string;
  refreshToken : option string;
  tok_scope : option string;
  tokenType : option string;
  expiryDate : option Z
}.

Definition defaultUserId : string := "default_user".

Inductive Call : Type :=
| FindOne
| Save
| RefreshAccessToken.

Definition History : Type := list Call.

Record Env : Type := {
  Date_now : History -> Z;
  (** The token exchange behind [oauth2Client.refreshAccessToken()], given
      the credentials the client holds. *)
  refreshAccessToken : History -> Credentials -> Result Credentials;
  findOne_fault : History -> option string;
  save_fault : History -> option string
}.

Record State : Type := {
  stored : option UserToken;   (* the persisted record *)
  client : Credentials;        (* [this.oauth2Client.credentials] *)
  history : History
}.

Definition record (c : Call) (s : State) : State :=
  {| stored := stored s; client := client s; history := c :: history s |}.

(** JavaScript truthiness of an optional string and of an optional number. *)
Definition truthy_string (x : option string) : bool :=
  match x with
  | Some EmptyString | None => false
  | Some _ => true
  end.

Definition truthy_number (x : option Z) : bool :=
  match x with
  | Some z => negb (z =? 0)%Z
  | None => false
  end.

(** [a ?? b] *)
Definition nullish {A : Type} (a : option A) (b : A) : A :=
  match a with
  | Some v => v
  | None => b
  end.

(** [userTokenRepository.findOne({ where: { userId } })] *)
Definition findOne (env : Env) : M State (option UserToken) :=
  fun s =>
    match findOne_fault env (history s) with
    | Some message => (Throw message, record FindOne s)
    | None => (Ok (stored s), record FindOne s)
    end.

(** [userTokenRepository.save(userToken)] *)
Definition save (env : Env) (t : UserToken) : M State unit :=
  fun s =>
    match save_fault env (history s) with
    | Some message => (Throw message, record Save s)
    | None =>
        (Ok tt, {| stored := Some t; client := client s;
                   history := Save :: history s |})
    end.

(** [oauth2Client.setCredentials(tokens)] *)
Definition setCredentials (tokens : Credentials) : M State unit :=
  fun s => (Ok tt, {| stored := stored s; client := tokens; history := history s |}).

(** [loadTokens()]: a failing query is logged and reads as no record. *)
Definition loadTokens (env : Env) : M State (option UserToken) :=
  try_catch (findOne env) (fun _ => ret None).

(** What [saveTokens] writes over the record it finds (lines 137-141). *)
Definition merged (userToken : UserToken) (tokens : Credentials) : UserToken :=
  {| userId := userId userToken;
     accessToken := Some (nullish (access_token tokens) "");
     refreshToken :=
       if truthy_string (refresh_token tokens)
       then refresh_token tokens else refreshToken userToken;
     tok_scope := Some (nullish (scope tokens) "");
     tokenType := Some (nullish (token_type tokens) "");
     expiryDate := expiry_date tokens |}.

(** What it creates when there is none (lines 143-150). *)
Definition created (tokens : Credentials) : UserToken :=
  {| userId := defaultUserId;
     accessToken := access_token tokens;
     refreshToken := refresh_token tokens;
     tok_scope := scope tokens;
     tokenType := token_type tokens;
     expiryDate := expiry_date tokens |}.

(** [saveTokens(tokens)] *)
Definition saveTokens (env : Env) (tokens : Credentials) : M State unit :=
  try_catch
    (found <- findOne env ;;
     let userToken :=
       match found with
       | Some userToken => merged userToken tokens
       | None => created tokens
       end in
     save env userToken)
    (fun _ => throw "Failed to save authentication tokens").

(** [refreshTokens()] *)
Definition refreshTokens (env : Env) : M State unit :=
  try_catch
    (credentials <- (fun s =>
        (refreshAccessToken env (history s) (client s), record RefreshAccessToken s)) ;;
     _ <- saveTokens env credentials ;;
     setCredentials credentials)
    (fun _ => throw "Failed to refresh authentication tokens").

Definition credentials_of (userToken : UserToken) : Credentials :=
  {| access_token := accessToken userToken;
     refresh_token := refreshToken userToken;
     scope := tok_scope userToken;
     token_type := tokenType userToken;
     expiry_date := expiryDate userToken |}.

(** The test of lines 107-111:
    [expiryDate && expiryDate <= Date.now() && refreshToken]. *)
Definition must_refresh (now : Z) (userToken : UserToken) : bool :=
  truthy_number (expiryDate userToken)
  && (nullish (expiryDate userToken) 0 <=? now)%Z
  && truthy_string (refreshToken userToken).

(** [getAuthenticated()]. The client it returns is the shared
    [this.oauth2Client]; the value here is the credentials that client holds
    at the moment of the return. *)
Definition getAuthenticated (env : Env) : M State Credentials :=
  loaded <- loadTokens env ;;
  match loaded with
  | None => throw "No authentication tokens found"
  | Some userToken =>
      _ <- setCredentials (credentials_of userToken) ;;
      _ <- (fun s =>
              if must_refresh (Date_now env (history s)) userToken
              then refreshTokens env s
              else (Ok tt, s)) ;;
      fun s => (Ok (client s), s)
  end.

Definition is_refresh (c : Call) : bool :=
  match c with
  | RefreshAccessToken => true
  | _ => false
  end.

Definition is_save (c : Call) : bool :=
  match c with
  | Save => true
  | _ => false
  end.

(** How often the exchange, and the repository's save, was called. *)
Definition refresh_calls (s : State) : nat :=
  length (filter is_refresh (history s)).

Definition save_calls (s : State) : nat :=
  length (filter is_save (history s)).

(** A credential is expired at [now] when it has an expiry that is not in
    the future. *)
Definition expired (now : Z) (c : Credentials) : Prop :=
  exists e, expiry_date c = Some e /\ (e <= now)%Z.

End Auth.

(** ** Vocabulary for statements about the scan *)

Module ScanSpec.
Import Scanner.

(** The email a call is made for, when it is made for one. *)
Definition email_of (c : Call) : option string :=
  match c with
  | GetEmailDetails m | DownloadAttachment m _ | DocumentSave m | LabelEmail m =>
      Some m
  | _ => None
  end.

(** The dedup set: the email identifiers of the stored documents. *)
Definition processedIds (w : World) : list string :=
  List.map emailId (documents w).

(** From [w] to [w']: documents, calls and labels were only added, and each
    addition that is made for an email is made for one that satisfies [P]. *)
Definition only_added (P : string -> Prop) (w w' : World) : Prop :=
  (exists new, documents w' = (documents w ++ new)%list
               /\ Forall (fun d => P (emailId d)) new)
  /\ (exists calls, history w' = (calls ++ history w)%list
                    /\ Forall (fun c => forall m, email_of c = Some m -> P m) calls)
  /\ (exists marks, labelled w' = (labelled w ++ marks)%list /\ Forall P marks).

(** The same, and the scan log table is as it was. *)
Definition email_step (P : string -> Prop) (w w' : World) : Prop :=
  scanLogs w' = scanLogs w /\ only_added P w w'.

(** A computation whose every run relates the state before to the state
    after by [R], whether it returns or throws. *)
Definition respects {S A : Type} (R : S -> S -> Prop) (m : M S A) : Prop :=
  forall s, R s (snd (m s)).


(** The world and the local [scanLog] when the [try] block is entered, the
    first save having succeeded. *)
Definition started_log (w : World) : ScanLog :=
  with_id (length (scanLogs w)) new_scanLog.

Definition started_run (w : World) : Run :=
  {| scanLog := started_log w;
     world := {| scanLogs := scanLogs w ++ [started_log w];
                 documents := documents w; labelled := labelled w;
                 history := ScanLogSave :: history w |} |}.

(** From [r] to [r']: when the local [scanLog] names the last row of the
    table it still does, and the table only had that row rewritten. *)
Definition run_keeps (r r' : Run) : Prop :=
  forall pre row,
    log_id (scanLog r) = Some (length pre) ->
    scanLogs (world r) = (pre ++ [row])%list ->
    log_id (scanLog r') = Some (length pre)
    /\ exists row', scanLogs (world r') = (pre ++ [row'])%list.

(** The last steps of the [try] block: save the local [scanLog], now [l],
    and return [result]. *)
Definition finish (env : Env) (l : ScanLog) (w : World) (result : ProcessingResult)
  : Result ProcessingResult * Run :=
  match save_scanLog env {| scanLog := l; world := w |} with
  | (Ok _, r) => (Ok result, r)
  | (Throw e, r) => (Throw e, r)
  end.

(** The world once setup, the read of the dedup set and the search have been
    called, in the order the code calls them. *)
Definition after_setup (w : World) : World :=
  record EnsureSpreadsheetExists (record EnsureFolderExists w).

Definition after_find (w : World) : World := record DocumentFind (after_setup w).

Definition after_search (w : World) : World := record SearchEmails (after_find w).

(** A stored document and the summary returned for it agree. *)
Definition summarises (d : ProcessedDocument) (r : ProcessedDocumentResult) : Prop :=
  emailId d = res_emailId r
  /\ driveFileId d = res_driveFileId r
  /\ spreadsheetRow d = res_spreadsheetRow r.

(** The error entry the scan loop writes for a failing email. *)
Definition error_entry (message error_message : string) : string :=
  "Email " ++ message ++ ": " ++ error_message.

(** [s] starts with [p]. *)
Definition starts_with (p s : string) : Prop := exists rest, s = p ++ rest.

End ScanSpec.

(** ** Concrete scenarios *)

Module Scenario.

(** A day in 2023, in epoch milliseconds. *)
Definition noon : Z := 1700000000000.

Definition auth_env (exchange : Result Auth.Credentials) : Auth.Env :=
  {| Auth.Date_now := fun _ => noon;
     Auth.refreshAccessToken := fun _ _ => exchange;
     Auth.findOne_fault := fun _ => None;
     Auth.save_fault := fun _ => None |}.

(** A record that expired an hour before [noon]. *)
Definition expired_token (refreshToken : option string) : Auth.UserToken :=
  {| Auth.userId := Auth.defaultUserId;
     Auth.accessToken := Some "old-access";
     Auth.refreshToken := refreshToken;
     Auth.tok_scope := Some "gmail.readonly";
     Auth.tokenType := Some "Bearer";
     Auth.expiryDate := Some (noon - 3600000)%Z |}.

Definition no_credentials : Auth.Credentials :=
  {| Auth.access_token := None; Auth.refresh_token := None; Auth.scope := None;
     Auth.token_type := None; Auth.expiry_date := None |}.

Definition auth_state (t : Auth.UserToken) : Auth.State :=
  {| Auth.stored := Some t; Auth.client := no_credentials; Auth.history := [] |}.

(** What a successful exchange answers: a fresh access token, no new refresh
    token, one hour of validity. *)
Definition fresh_credentials : Auth.Credentials :=
  {| Auth.access_token := Some "new-access"; Auth.refresh_token := None;
     Auth.scope := Some "gmail.readonly"; Auth.token_type := Some "Bearer";
     Auth.expiry_date := Some (noon + 3600000)%Z |}.

Import Scanner.

Definition attachment (name : string) : EmailAttachment :=
  {| filename := name; attachmentId := "att-" ++ name;
     mimeType := Some "application/octet-stream"; size := 1536 |}.

Definition email (messageId : string) (names : list string) : EmailDetails :=
  {| id := messageId; subject := "Invoice #4821 - March";
     from := "billing@acme.example"; date := "Fri, 01 Mar 2024 10:00:00 +0000";
     attachments := List.map attachment names |}.

(** A mailbox of four emails: [m1] and [m3] carry only an archive, [m2] a
    PDF, [m4] two PDFs. The download of [m2]'s PDF and that of [m4]'s second
    PDF fail; every other call to Gmail, Drive and Sheets succeeds. *)
Definition mailbox (messageId : string) : Result EmailDetails :=
  if String.eqb messageId "m1" then Ok (email "m1" ["logs.zip"])
  else if String.eqb messageId "m2" then Ok (email "m2" ["a.pdf"])
  else if String.eqb messageId "m3" then Ok (email "m3" ["photos.zip"])
  else if String.eqb messageId "m4" then Ok (email "m4" ["first.pdf"; "second.pdf"])
  else Throw "Failed to get email details: Not Found".

Definition fetch (messageId attachmentId : string) : Result string :=
  if String.eqb messageId "m2" || String.eqb attachmentId "att-second.pdf"
  then Throw "Failed to download attachment: socket hang up"
  else Ok "%PDF-1.7".

Definition saves (h : History) : nat :=
  length (filter (fun c => match c with ScanLogSave => true | _ => false end) h).

(** [candidates] is what the search returns; [log_fault] decides which
    saves of the scan log fail. [JSON_stringify] is a stand-in that joins the
    entries. *)
Definition scan_env (candidates : list string) (log_fault : History -> option string)
  : Env :=
  {| ensureFolderExists := fun _ _ => Ok "folder-1";
     ensureSpreadsheetExists := fun _ _ => Ok "sheet-1";
     folder_settles_first := fun _ => true;
     searchEmails := fun _ => Ok candidates;
     getEmailDetails := fun _ messageId => mailbox messageId;
     downloadAttachment := fun _ messageId attachmentId => fetch messageId attachmentId;
     uploadFile := fun _ _ name _ _ => Ok ("drive-" ++ name);
     logDocument := fun h _ _ => Ok (2 + length h)%nat;
     labelEmail := fun _ _ => Ok tt;
     scanLog_save_fault := log_fault;
     document_save_fault := fun _ => None;
     document_find_fault := fun _ => None;
     Date_now := fun _ => noon;
     isoDate := fun _ => Some "2024-03-01";
     today := fun _ => "2026-01-01";
     random36 := fun _ => "0.4fzyo82mvyr";
     JSON_stringify := fun l => "[" ++ String.concat "," l ++ "]";
     global_structuredFilename := None |}.

Definition reliable : History -> option string := fun _ => None.

(** The second save of the scan log fails, the others succeed. *)
Definition second_save_fails : History -> option string :=
  fun h => if (saves h =? 1)%nat then Some "connection terminated" else None.

(** Setup fails: Drive refuses the folder. *)
Definition setup_fails_env : Env :=
  {| ensureFolderExists := fun _ _ => Throw "Failed to manage Drive folder: quota";
     ensureSpreadsheetExists := fun _ _ => Ok "sheet-1";
     folder_settles_first := fun _ => true;
     searchEmails := fun _ => Ok ["m1"];
     getEmailDetails := fun _ messageId => mailbox messageId;
     downloadAttachment := fun _ messageId attachmentId => fetch messageId attachmentId;
     uploadFile := fun _ _ name _ _ => Ok ("drive-" ++ name);
     logDocument := fun h _ _ => Ok (2 + length h)%nat;
     labelEmail := fun _ _ => Ok tt;
     scanLog_save_fault := reliable;
     document_save_fault := fun _ => None;
     document_find_fault := fun _ => None;
     Date_now := fun _ => noon;
     isoDate := fun _ => Some "2024-03-01";
     today := fun _ => "2026-01-01";
     random36 := fun _ => "0.4fzyo82mvyr";
     JSON_stringify := fun l => "[" ++ String.concat "," l ++ "]";
     global_structuredFilename := None |}.

Definition empty_world : World :=
  {| scanLogs := []; documents := []; labelled := []; history := [] |}.

Definition stored_document (messageId : string) : ProcessedDocument :=
  {| emailId := messageId; messageId := messageId;
     senderEmail := "billing@acme.example"; senderName := "billing";
     doc_subject := "Invoice #4821 - March"; invoiceNumber := Some "4821";
     emailDate := "Fri, 01 Mar 2024 10:00:00 +0000";
     fileName := "2026-01-01_undefined"; originalFileName := "a.pdf";
     driveFileId := "drive-1";
     driveFileUrl := "https://drive.google.com/file/d/drive-1/view";
     doc_spreadsheetId := "sheet-1"; spreadsheetRow := 2;
     fileSize := "1.5 KB"; doc_mimeType := Some "application/pdf";
     doc_status := "completed" |}.

(** A world in which [m2] and [m4] already have documents. *)
Definition seen_world : World :=
  {| scanLogs := []; documents := [stored_document "m2"; stored_document "m4"];
     labelled := []; history := [] |}.

End Scenario.

(** ** Invariants of the scan *)

Module ScanInv.
Import Scanner ScanSpec.

(** The table of scan logs is [pre] followed by the row of the current run,
    and the local [scanLog] carries that row's id. *)
Definition run_row (pre : list ScanLog) (r : Run) : Prop :=
  log_id (scanLog r) = Some (length pre)
  /\ exists row, scanLogs (world r) = (pre ++ [row])%list
                 /\ log_id row = Some (length pre).

(** Every email that carries the processed label has a stored document. *)
Definition labels_have_documents (w : World) : Prop :=
  forall m, In m (labelled w) -> In m (processedIds w).

(** From [w] to [w'] no label was given. *)
Definition keeps_labels (w w' : World) : Prop := labelled w' = labelled w.

(** The history when the search is called, in a run that started at [w]. *)
Definition search_history (w : World) : History :=
  DocumentFind :: EnsureSpreadsheetExists :: EnsureFolderExists :: ScanLogSave
    :: history w.

(** What the pipeline of [messageId] guarantees of a document it stores. *)
Definition well_formed_document (env : Env) (messageId : string)
    (d : ProcessedDocument) : Prop :=
  emailId d = messageId
  /\ Scanner.messageId d = messageId
  /\ DocumentFile.isDocumentFile (originalFileName d) = true
  /\ doc_status d = "completed"
  /\ driveFileUrl d = "https://drive.google.com/file/d/" ++ driveFileId d ++ "/view"
  /\ exists h, fileName d = today env h ++ "_undefined".

(** From [w] to [w'] documents were only added, each satisfying [Q]. *)
Definition stores (Q : ProcessedDocument -> Prop) (w w' : World) : Prop :=
  exists new, documents w' = (documents w ++ new)%list /\ Forall Q new.

End ScanInv.

(** ** Vocabulary for the string helpers *)

Module StringSpec.

(** A non-empty run of decimal digits. *)
Definition digits (s : string) : Prop :=
  s <> "" /\ Js.forallb Js.is_digit s = true.

End StringSpec.

(** ** Vocabulary for the calls and the attachments of a run *)

Module Trace.
Import Scanner ScanSpec.

(** From [w] to [w'] calls were only added, each satisfying [P]. *)
Definition calls_added (P : Call -> Prop) (w w' : World) : Prop :=
  exists calls, history w' = (calls ++ history w)%list /\ Forall P calls.

(** The attachments of an email that the loop does not skip, in their
    order. *)
Definition kept (rest : list EmailAttachment) : list EmailAttachment :=
  filter (fun a => DocumentFile.isDocumentFile (filename a)) rest.

(** A call of the pipeline of one attachment of [messageId]; a download is
    of an attachment id among [ids]. *)
Definition attachment_call (messageId : string) (ids : list string) (c : Call) : Prop :=
  match c with
  | DownloadAttachment m a => m = messageId /\ In a ids
  | UploadFile _ | LogDocument _ => True
  | DocumentSave m => m = messageId
  | _ => False
  end.

(** A call that [processEmail] makes for [messageId] once it has the
    details of the email, and any call it makes. *)
Definition followup_call (messageId : string) (ids : list string) (c : Call) : Prop :=
  c = LabelEmail messageId \/ attachment_call messageId ids c.

Definition email_call (messageId : string) (ids : list string) (c : Call) : Prop :=
  c = GetEmailDetails messageId \/ followup_call messageId ids c.

(** The emails whose details a history asks for, most recent first. *)
Fixpoint details_requests (h : History) : list string :=
  match h with
  | [] => []
  | GetEmailDetails m :: h' => m :: details_requests h'
  | _ :: h' => details_requests h'
  end.

Definition is_details_request (c : Call) : bool :=
  match c with
  | GetEmailDetails _ => true
  | _ => false
  end.

Definition is_label (c : Call) : bool :=
  match c with
  | LabelEmail _ => true
  | _ => false
  end.

(** From [w] to [w'] no label was given and none was asked for. *)
Definition never_labels (w w' : World) : Prop :=
  labelled w' = labelled w
  /\ calls_added (fun c => is_label c = false) w w'.

End Trace.

(** ** A mailbox of invoices *)

Module Invoices.
Import Scanner.

(** Three emails with one PDF each, and [x1], which carries an archive, a
    PDF and a text file. The download fails for [i2] only. *)
Definition mailbox (messageId : string) : Result EmailDetails :=
  if String.eqb messageId "i1" then Ok (Scenario.email "i1" ["january.pdf"])
  else if String.eqb messageId "i2" then Ok (Scenario.email "i2" ["february.pdf"])
  else if String.eqb messageId "i3" then Ok (Scenario.email "i3" ["march.pdf"])
  else if String.eqb messageId "x1"
       then Ok (Scenario.email "x1" ["logs.zip"; "a.pdf"; "NOTES.TXT"])
  else Throw "Failed to get email details: Not Found".

Definition fetch (messageId attachmentId : string) : Result string :=
  if String.eqb messageId "i2"
  then Throw "Failed to download attachment: socket hang up"
  else Ok "%PDF-1.7".

(** The environment of [Scenario.scan_env] over this mailbox. No global
    named [structuredFilename] exists, as in the program as it stands. *)
Definition env (candidates : list string) (log_fault : History -> option string)
  : Env :=
  {| ensureFolderExists := fun _ _ => Ok "folder-1";
     ensureSpreadsheetExists := fun _ _ => Ok "sheet-1";
     folder_settles_first := fun _ => true;
     searchEmails := fun _ => Ok candidates;
     getEmailDetails := fun _ messageId => mailbox messageId;
     downloadAttachment := fun _ messageId attachmentId => fetch messageId attachmentId;
     uploadFile := fun _ _ name _ _ => Ok ("drive-" ++ name);
     logDocument := fun h _ _ => Ok (2 + length h)%nat;
     labelEmail := fun _ _ => Ok tt;
     scanLog_save_fault := log_fault;
     document_save_fault := fun _ => None;
     document_find_fault := fun _ => None;
     Date_now := fun _ => Scenario.noon;
     isoDate := fun _ => Some "2024-03-01";
     today := fun _ => "2026-01-01";
     random36 := fun _ => "0.4fzyo82mvyr";
     JSON_stringify := fun l => "[" ++ String.concat "," l ++ "]";
     global_structuredFilename := None |}.

(** A world in which [m2] and [m4] have stored documents and [m2] carries
    the processed label. *)
Definition labelled_world : World :=
  {| scanLogs := [];
     documents := [Scenario.stored_document "m2"; Scenario.stored_document "m4"];
     labelled := ["m2"]; history := [] |}.

End Invoices.

(** ** [AuthService]: sign-in, sign-out and the authentication check *)

Module AuthOps.
Import Auth.
Local Open Scope js_scope.

(** The collaborators the other methods add: the exchange of an
    authorization code behind [oauth2Client.getToken(code)] and the
    repository's [delete]. Neither call joins the history, which records the
    calls the refresh path makes. *)
Record Env : Type := {
  base : Auth.Env;
  getToken : History -> string -> Result Credentials;
  delete_fault : History -> option string
}.

(** [handleCallback(code)] *)
Definition handleCallback (env : Env) (code : string) : M State Credentials :=
  try_catch
    (tokens <- (fun s => (getToken env (history s) code, s)) ;;
     _ <- saveTokens (base env) tokens ;;
     _ <- setCredentials tokens ;;
     ret tokens)
    (fun _ => throw "Failed to authenticate with Google").

(** [isAuthenticated()] *)
Definition isAuthenticated (env : Auth.Env) : M State bool :=
  try_catch
    (loaded <- loadTokens env ;;
     match loaded with
     | None => ret false
     | Some userToken =>
         _ <- setCredentials (credentials_of userToken) ;;
         fun s =>
           if truthy_number (expiryDate userToken)
              && (nullish (expiryDate userToken) 0 <=? Date_now env (history s))%Z
           then
             if truthy_string (refreshToken userToken)
             then (_ <- refreshTokens env ;; ret true) s
             else (Ok false, s)
           else (Ok true, s)
     end)
    (fun _ => ret false).

(** [clearTokens()] *)
Definition clearTokens (env : Env) : M State unit :=
  try_catch
    (fun s =>
       match delete_fault env (history s) with
       | Some message => (Throw message, s)
       | None =>
           (Ok tt, {| stored := None; client := client s; history := history s |})
       end)
    (fun _ => throw "Failed to clear authentication tokens").


End AuthOps.

Module AuthScenario.

Definition ops_env (exchange : Result Auth.Credentials) : AuthOps.Env :=
  {| AuthOps.base := Scenario.auth_env (Ok Scenario.fresh_credentials);
     AuthOps.getToken := fun _ _ => exchange;
     AuthOps.delete_fault := fun _ => None |}.

(** Nobody has signed in yet. *)
Definition signed_out : Auth.State :=
  {| Auth.stored := None; Auth.client := Scenario.no_credentials; Auth.history := [] |}.

(** What the first authorization answers: both tokens and an hour of
    validity. *)
Definition first_credentials : Auth.Credentials :=
  {| Auth.access_token := Some "access-1"; Auth.refresh_token := Some "refresh-1";
     Auth.scope := Some "gmail.readonly"; Auth.token_type := Some "Bearer";
     Auth.expiry_date := Some (Scenario.noon + 3600000)%Z |}.

(** A record that is valid for another hour. *)
Definition valid_token : Auth.UserToken :=
  {| Auth.userId := Auth.defaultUserId;
     Auth.accessToken := Some "access-1";
     Auth.refreshToken := Some "refresh-1";
     Auth.tok_scope := Some "gmail.readonly";
     Auth.tokenType := Some "Bearer";
     Auth.expiryDate := Some (Scenario.noon + 3600000)%Z |}.

End AuthScenario.

(** ** [GmailService]: reading a message *)

Module GmailMessage.
Import Scanner.

(** The parts of a message as the Gmail API returns them; every field may be
    missing. *)
Record GmailMessagePartBody : Type := {
  body_attachmentId : option string;
  body_size : option N
}.

#[local] Unset Elimination Schemes.
Inductive GmailMessagePart : Type :=
| Part (part_filename : option string) (part_body : option GmailMessagePartBody)
       (part_mimeType : option string) (parts : option (list GmailMessagePart)).
#[local] Set Elimination Schemes.

Record Header : Type := {
  name : option string;
  value : option string
}.

(** [message.payload]: a part that also carries the headers. *)
Record Payload : Type := {
  headers : option (list Header);
  root : GmailMessagePart
}.

Record Message : Type := {
  payload : option Payload
}.

(** The push guarded by [filename && body?.attachmentId]: the attachment of
    a part that has a file name and an attachment id, both non-empty; the
    size is [body.size || 0]. *)
Definition attachment_of (filename : option string)
    (body : option GmailMessagePartBody) (mimeType : option string)
  : list EmailAttachment :=
  match filename, body with
  | Some f, Some b =>
      match body_attachmentId b with
      | Some a =>
          if Auth.truthy_string (Some f) && Auth.truthy_string (Some a)
          then [{| Scanner.filename := f; attachmentId := a; mimeType := mimeType;
                   size := match body_size b with Some n => n | None => 0%N end |}]
          else []
      | None => []
      end
  | _, _ => []
  end.

(** [extractFromPart(part)]: what the closure pushes, in the order it pushes:
    the part itself, then its children in turn. *)
Fixpoint extractFromPart (part : GmailMessagePart) : list EmailAttachment :=
  match part with
  | Part filename body mimeType children =>
      attachment_of filename body mimeType ++
      match children with
      | Some ps => flat_map extractFromPart ps
      | None => []
      end
  end.

(** [extractAttachments(payload)]: a payload with a [parts] array is walked
    through its children only; one without is looked at itself. *)
Definition extractAttachments (payload : GmailMessagePart) : list EmailAttachment :=
  match payload with
  | Part filename body mimeType (Some ps) => flat_map extractFromPart ps
  | Part filename body mimeType None => attachment_of filename body mimeType
  end.

(** The filter and map of lines 70-77: the headers that have a name and a
    value, both non-empty. *)
Definition usable (hs : option (list Header)) : list (string * string) :=
  flat_map
    (fun h =>
       match name h, value h with
       | Some n, Some v =>
           if Auth.truthy_string (Some n) && Auth.truthy_string (Some v)
           then [(n, v)] else []
       | _, _ => []
       end)
    (match hs with Some l => l | None => [] end).

(** [getHeaderValue(headers, name)] *)
Fixpoint getHeaderValue (hs : list (string * string)) (wanted : string) : string :=
  match hs with
  | [] => ""
  | (n, v) :: rest => if String.eqb n wanted then v else getHeaderValue rest wanted
  end.

(** The body of [getEmailDetails] once the response is there (lines 65-88). *)
Definition details_of (messageId : string) (message : Message) : Result EmailDetails :=
  match payload message with
  | None => Throw "No payload found for this email"
  | Some p =>
      let hs := usable (headers p) in
      Ok {| id := messageId;
            subject := getHeaderValue hs "Subject";
            from := getHeaderValue hs "From";
            date := getHeaderValue hs "Date";
            attachments := extractAttachments (root p) |}
  end.

(** An attachment the pipeline can fetch: it has a name and an id. *)
Definition usable_attachment (a : EmailAttachment) : Prop :=
  Scanner.filename a <> "" /\ attachmentId a <> "".

(** The number of parts below and including a part. *)
Fixpoint count_parts (part : GmailMessagePart) : nat :=
  match part with
  | Part _ _ _ children =>
      S (match children with
         | Some ps => list_sum (List.map count_parts ps)
         | None => 0
         end)
  end.

End GmailMessage.


(** ** The Google APIs behind [GmailService], [DriveService] and
    [SheetsService]

    Every method first asks [AuthService.getAuthenticated] for the client and
    then sends requests with it. A state holds the authentication state and
    the requests sent so far, most recent first; an API answers a request
    from the requests sent before it and the credentials the client holds. *)

Module GoogleApi.
Import Auth.

Section Api.
Variable Request : Type.

Record State : Type := {
  auth : Auth.State;
  requests : list Request
}.

(** [const auth = await this.authService.getAuthenticated()] *)
Definition authenticate (env : Auth.Env) : M State unit :=
  fun s =>
    let '(r, a) := getAuthenticated env (auth s) in
    (match r with Ok _ => Ok tt | Throw e => Throw e end,
     {| auth := a; requests := requests s |}).

Definition request {A : Type} (r : Request)
    (answer : list Request -> Credentials -> Result A) : M State A :=
  fun s =>
    (answer (requests s) (client (auth s)),
     {| auth := auth s; requests := r :: requests s |}).

(** The requests sent from [s] to [s'], most recent first. *)
Definition sent (s s' : State) (new : list Request) : Prop :=
  requests s' = (new ++ requests s)%list.

End Api.

Arguments auth {Request} _.
Arguments requests {Request} _.
Arguments authenticate {Request} env _.
Arguments request {Request A} r answer _.
Arguments sent {Request} s s' new.

End GoogleApi.

(** ** [GmailService] *)

Module GmailService.
Import Auth GmailMessage GoogleApi.
Local Open Scope js_scope.

(** The requests the service sends, with the parameters that matter here. *)
Inductive Request : Type :=
| MessagesList (q : string) (maxResults : nat)
| MessagesGet (id : string)
| AttachmentsGet (messageId id : string)
| LabelsList
| LabelsCreate (name : string)
| MessagesModify (id : string) (addLabelIds : list string).

Record Label : Type := {
  label_id : option string;
  label_name : option string
}.

(** A missing field of a response is [None]. *)
Record Env : Type := {
  auth_env : Auth.Env;
  messages_list :
    list Request -> Credentials -> string -> nat -> Result (option (list string));
  messages_get : list Request -> Credentials -> string -> Result Message;
  attachments_get :
    list Request -> Credentials -> string -> string -> Result (option string);
  labels_list : list Request -> Credentials -> Result (option (list Label));
  labels_create : list Request -> Credentials -> string -> Result unit;
  messages_modify :
    list Request -> Credentials -> string -> list string -> Result unit;
  (** [Buffer.from(text, 'base64')] *)
  base64_decode : string -> string;
  (** [date.toISOString()] of the day [days] days ago; a date out of range
      raises "Invalid time value". *)
  day_before : Z -> option string
}.

Definition State : Type := GoogleApi.State Request.

Definition exclusion : string := " -label:processed-financial-docs".

Definition default_query : string := "has:attachment (invoice OR receipt OR bill)".

(** [searchEmails(query)]. Every exception the body can raise is an [Error],
    so the handler takes its first branch. *)
Definition searchEmails (env : Env) (query : string) : M State (list string) :=
  try_catch
    (_ <- authenticate (auth_env env) ;;
     messages <- request (MessagesList (query ++ exclusion) 50)
       (fun h c => messages_list env h c (query ++ exclusion) 50) ;;
     ret (match messages with Some l => l | None => [] end))
    (fun message => throw ("Gmail search failed: " ++ message)).

(** [getEmailDetails(messageId)] *)
Definition getEmailDetails (env : Env) (messageId : string)
  : M State Scanner.EmailDetails :=
  try_catch
    (_ <- authenticate (auth_env env) ;;
     message <- request (MessagesGet messageId)
       (fun h c => messages_get env h c messageId) ;;
     fun s => (details_of messageId message, s))
    (fun message => throw ("Failed to get email details: " ++ message)).

(** [data.replace(/-/g, '+').replace(/_/g, '/')] *)
Definition standard_alphabet (c : ascii) : ascii :=
  if Ascii.eqb c "-" then "+"%char
  else if Ascii.eqb c "_" then "/"%char else c.

(** [downloadAttachment(messageId, attachmentId)] *)
Definition downloadAttachment (env : Env) (messageId attachmentId : string)
  : M State string :=
  try_catch
    (_ <- authenticate (auth_env env) ;;
     data <- request (AttachmentsGet messageId attachmentId)
       (fun h c => attachments_get env h c messageId attachmentId) ;;
     if truthy_string data
     then ret (base64_decode env
                 (Js.map standard_alphabet
                    (match data with Some d => d | None => "" end)))
     else throw "No attachment data received")
    (fun message => throw ("Failed to download attachment: " ++ message)).

(** [labels.find((label) => label.name === labelName)] *)
Fixpoint find_label (labelName : string) (labels : list Label) : option Label :=
  match labels with
  | [] => None
  | l :: rest =>
      match label_name l with
      | Some n => if String.eqb n labelName then Some l else find_label labelName rest
      | None => find_label labelName rest
      end
  end.

(** [ensureLabelExists(labelName)]: whatever fails is logged and dropped. *)
Definition ensureLabelExists (env : Env) (labelName : string) : M State unit :=
  try_catch
    (_ <- authenticate (auth_env env) ;;
     labels <- request LabelsList (labels_list env) ;;
     match match labels with
           | Some l => find_label labelName l
           | None => None
           end with
     | Some _ => ret tt
     | None => request (LabelsCreate labelName)
                 (fun h c => labels_create env h c labelName)
     end)
    (fun _ => ret tt).

Definition processed_label : string := "processed-financial-docs".

(** [labelEmail(messageId)] *)
Definition labelEmail (env : Env) (messageId : string) : M State unit :=
  try_catch
    (_ <- authenticate (auth_env env) ;;
     _ <- ensureLabelExists env processed_label ;;
     labels <- request LabelsList (labels_list env) ;;
     match find_label processed_label (match labels with Some l => l | None => [] end)
     with
     | Some l =>
         if truthy_string (label_id l)
         then request
                (MessagesModify messageId
                   [match label_id l with Some i => i | None => "" end])
                (fun h c => messages_modify env h c messageId
                              [match label_id l with Some i => i | None => "" end])
         else throw "Failed to create or find processed label"
     | None => throw "Failed to create or find processed label"
     end)
    (fun message => throw ("Failed to label email: " ++ message)).

(** The query of [searchEmailsFromSenders(senders)]. *)
Definition senders_query (senders : list string) : string :=
  "has:attachment ("
  ++ String.concat " OR " (List.map (fun sender => "from:" ++ sender) senders)
  ++ ") (invoice OR receipt OR bill)".

(** [searchEmailsFromSenders(senders)]. The promise of [searchEmails] is
    returned without being awaited, so its rejection passes by the handler
    of this method, which only guards the building of the query. *)
Definition searchEmailsFromSenders (env : Env) (senders : list string)
  : M State (list string) :=
  searchEmails env (senders_query senders).

(** [formattedDate]: the day of the ISO text, its dashes turned into
    slashes. *)
Definition slashes (c : ascii) : ascii := if Ascii.eqb c "-" then "/"%char else c.

Definition date_query (iso : string) : string :=
  "after:" ++ Js.map slashes (Js.before "T" iso)
  ++ " has:attachment (invoice OR receipt OR bill)".

(** [searchEmailsByDateRange(days)], with the same remark: the handler of
    this method sees only the failure of [toISOString]. *)
Definition searchEmailsByDateRange (env : Env) (days : Z) : M State (list string) :=
  match day_before env days with
  | Some iso => searchEmails env (date_query iso)
  | None => throw "Failed to search emails by date: Invalid time value"
  end.

(** [getEmailCount(query)]: any failure counts as 0. *)
Definition getEmailCount (env : Env) (query : option string) : M State nat :=
  try_catch
    (_ <- authenticate (auth_env env) ;;
     let searchQuery :=
       if truthy_string query
       then match query with Some q => q | None => "" end
       else default_query in
     messages <- request (MessagesList searchQuery 500)
       (fun h c => messages_list env h c searchQuery 500) ;;
     ret (match messages with Some l => length l | None => 0%nat end))
    (fun _ => ret 0%nat).

(** A request of one of the three searches: at most 50 messages, none of
    them carrying the label of processed mail. *)
Definition excluding (r : Request) : Prop :=
  exists q, r = MessagesList (q ++ exclusion) 50.

(** What a search does from any state: it sends nothing, or one request
    that excludes processed mail; when it succeeds it has sent one, and it
    returns the messages the API listed for it, none when the response has
    no list. *)
Definition search_sends (env : Env) (m : M State (list string)) : Prop :=
  forall s,
    let s' := snd (m s) in
    exists new,
      sent s s' new
      /\ (new = [] \/ exists q, new = [MessagesList (q ++ exclusion) 50])
      /\ forall l, fst (m s) = Ok l ->
           exists q,
             new = [MessagesList (q ++ exclusion) 50]
             /\ match messages_list env (requests s) (client (auth s'))
                        (q ++ exclusion) 50 with
                | Ok (Some listed) => l = listed
                | Ok None => l = []
                | Throw _ => False
                end.

Definition is_create (r : Request) : bool :=
  match r with
  | LabelsCreate _ => true
  | _ => false
  end.

(** A character of the standard base64 alphabet, as far as the two
    URL-safe characters go. *)
Definition standard (c : ascii) : bool :=
  negb (Ascii.eqb c "-" || Ascii.eqb c "_").

End GmailService.

(** ** [DriveService] and [SheetsService]: files, spreadsheet and rows *)

Module Workspace.
Import Auth GoogleApi.
Local Open Scope js_scope.

Inductive Request : Type :=
| FilesList (q : string)
| FilesCreateFolder (name : string)
| FilesUpload (name mimeType : string) (parents : list string) (body : string)
| SpreadsheetsCreate (title : string)
| ValuesUpdate (spreadsheetId range : string) (values : list string)
| BatchUpdate (spreadsheetId : string)
| ValuesAppend (spreadsheetId range : string) (row : list string).

(** What the listing shows of a file. *)
Record File : Type := { file_id : option string }.

Record Env : Type := {
  auth_env : Auth.Env;
  files_list : list Request -> Credentials -> string -> Result (option (list File));
  (** [data.id] of a created folder or file *)
  files_create : list Request -> Credentials -> Request -> Result (option string);
  (** [data.spreadsheetId] *)
  spreadsheets_create : list Request -> Credentials -> string -> Result (option string);
  values_update : list Request -> Credentials -> string -> Result unit;
  batchUpdate : list Request -> Credentials -> string -> Result unit;
  (** [data.updates] and, inside it, [updatedRange] *)
  values_append :
    list Request -> Credentials -> string -> list string
    -> Result (option (option string));
  (** [new Date().toISOString().split('T')[0]] *)
  today : list Request -> string;
  (** [new Date(text).toISOString().split('T')[0]]; [None] when the text is
      no date, and [toISOString] raises "Invalid time value". *)
  iso_day : string -> option string
}.

Definition State : Type := GoogleApi.State Request.

(** *** [DriveService] *)

Definition folder_query (folderName : string) : string :=
  "name='" ++ folderName
  ++ "' and mimeType='application/vnd.google-apps.folder' and trashed=false".

(** [ensureFolderExists(folderName)] *)
Definition ensureFolderExists (env : Env) (folderName : string) : M State string :=
  try_catch
    (_ <- authenticate (auth_env env) ;;
     files <- request (FilesList (folder_query folderName))
       (fun h c => files_list env h c (folder_query folderName)) ;;
     match files with
     | Some (f :: _) =>
         if truthy_string (file_id f)
         then ret (match file_id f with Some i => i | None => "" end)
         else throw ("Google Drive did not return a folder ID for " ++ folderName)
     | _ =>
         folderId <- request (FilesCreateFolder folderName)
           (fun h c => files_create env h c (FilesCreateFolder folderName)) ;;
         if truthy_string folderId
         then ret (match folderId with Some i => i | None => "" end)
         else throw ("Google Drive did not return a folder ID for " ++ folderName)
     end)
    (fun message => throw ("Failed to manage Drive folder: " ++ message)).

(** [uploadFile(fileBuffer, filename, mimeType, folderId)] *)
Definition uploadFile (env : Env) (fileBuffer filename mimeType folderId : string)
  : M State string :=
  try_catch
    (_ <- authenticate (auth_env env) ;;
     fileId <- request (FilesUpload filename mimeType [folderId] fileBuffer)
       (fun h c => files_create env h c
                     (FilesUpload filename mimeType [folderId] fileBuffer)) ;;
     if truthy_string fileId
     then ret (match fileId with Some i => i | None => "" end)
     else throw ("Google Drive did not return a file ID for " ++ filename))
    (fun message => throw ("Failed to upload file: " ++ message)).

(** *** [SheetsService] *)

Definition spreadsheet_query (spreadsheetName : string) : string :=
  "name='" ++ spreadsheetName
  ++ "' and mimeType='application/vnd.google-apps.spreadsheet' and trashed=false".

Definition header_row : list string :=
  ["Date Processed"; "Email Date"; "Sender Email"; "Sender Name"; "Subject";
   "Invoice Number"; "File Name"; "Drive File ID"; "Drive File Link";
   "File Size"].

(** [setupHeaders(spreadsheetId)]: whatever fails is logged and dropped. *)
Definition setupHeaders (env : Env) (spreadsheetId : string) : M State unit :=
  try_catch
    (_ <- authenticate (auth_env env) ;;
     _ <- request (ValuesUpdate spreadsheetId "Financial Documents!A1:J1" header_row)
       (fun h c => values_update env h c spreadsheetId) ;;
     request (BatchUpdate spreadsheetId)
       (fun h c => batchUpdate env h c spreadsheetId))
    (fun _ => ret tt).

(** [ensureSpreadsheetExists(spreadsheetName)] *)
Definition ensureSpreadsheetExists (env : Env) (spreadsheetName : string)
  : M State string :=
  try_catch
    (_ <- authenticate (auth_env env) ;;
     files <- request (FilesList (spreadsheet_query spreadsheetName))
       (fun h c => files_list env h c (spreadsheet_query spreadsheetName)) ;;
     match files with
     | Some (f :: _) =>
         if truthy_string (file_id f)
         then ret (match file_id f with Some i => i | None => "" end)
         else throw ("Google  did not return a spreadsheet ID for "
                     ++ spreadsheetName)
     | _ =>
         spreadsheetId <- request (SpreadsheetsCreate spreadsheetName)
           (fun h c => spreadsheets_create env h c spreadsheetName) ;;
         if truthy_string spreadsheetId
         then
           let id := match spreadsheetId with Some i => i | None => "" end in
           _ <- setupHeaders env id ;;
           ret id
         else throw "Spreadsheet ID is missing in the create response."
     end)
    (fun message => throw ("Failed to manage spreadsheet: " ++ message)).

(** [SheetsService.extractInvoiceNumber(subject)]: the patterns of the
    scanner's method, with 'N/A' where that one answers [null]. *)
Definition extractInvoiceNumber (subject : string) : string :=
  match Pattern.first_match Scanner.patterns subject with
  | Some group => group
  | None => "N/A"
  end.

Record DocumentData : Type := {
  emailDate : string;
  senderEmail : string;
  subject : string;
  fileName : string;
  driveFileId : string;
  fileSize : option string
}.

(** The cells of the row, given the two days. [extractSenderName] has the
    body of the scanner's method. *)
Definition row_of (processed emailDay : string) (documentData : DocumentData)
  : list string :=
  [processed; emailDay; senderEmail documentData;
   Scanner.extractSenderName (senderEmail documentData);
   subject documentData; extractInvoiceNumber (subject documentData);
   fileName documentData; driveFileId documentData;
   "https://drive.google.com/file/d/" ++ driveFileId documentData ++ "/view";
   if truthy_string (fileSize documentData)
   then match fileSize documentData with Some t => t | None => "" end
   else "Unknown"].

(** What follows the first occurrence of [sep], if there is one. *)
Fixpoint after_first (sep s : string) : option string :=
  if String.prefix sep s then Some (Js.drop (String.length sep) s)
  else match s with
       | EmptyString => None
       | String _ rest => after_first sep rest
       end.

(** What comes before the first occurrence of [sep]: [s.split(sep)[0]]. *)
Fixpoint before_first (sep s : string) : string :=
  if String.prefix sep s then EmptyString
  else match s with
       | EmptyString => EmptyString
       | String c rest => String c (before_first sep rest)
       end.

(** [s.split(sep)[1]] for a separator that is not empty: [None] is
    [undefined]. *)
Definition second_piece (sep s : string) : option string :=
  match after_first sep s with
  | Some rest => Some (before_first sep rest)
  | None => None
  end.

Definition is_hex (c : ascii) : bool :=
  Js.is_digit c || Js.between 97 102 c || Js.between 65 70 c.

Definition hex_digit (c : ascii) : Z :=
  if Js.is_digit c then Z.of_nat (Js.code c) - 48
  else if Js.between 97 102 c then Z.of_nat (Js.code c) - 87
  else Z.of_nat (Js.code c) - 55.

Fixpoint hex_value (acc : Z) (digits : string) : Z :=
  match digits with
  | EmptyString => acc
  | String c rest => hex_value (16 * acc + hex_digit c) rest
  end.

Definition decimal_value (digits : string) : Z :=
  match NilZero.uint_of_string digits with
  | Some d => Z.of_uint d
  | None => 0
  end.

(** [parseInt(text)] without a radix: leading white space, a sign, a
    hexadecimal prefix, then the longest run of digits; [None] is NaN. The
    value is the exact integer, which is what the number holds up to
    2^53. *)
Definition parseInt (text : string) : option Z :=
  let s1 := Js.drop_while Js.is_space text in
  let '(sign, s2) :=
    match s1 with
    | String "-" rest => ((-1)%Z, rest)
    | String "+" rest => (1%Z, rest)
    | _ => (1%Z, s1)
    end in
  if String.prefix "0x" s2 || String.prefix "0X" s2
  then match Js.take_while is_hex (Js.drop 2 s2) with
       | EmptyString => None
       | digits => Some (sign * hex_value 0 digits)%Z
       end
  else match Js.take_while Js.is_digit s2 with
       | EmptyString => None
       | digits => Some (sign * decimal_value digits)%Z
       end.

(** [parseInt(range.split('!A')[1].split(':')[0])]; reading [split] from
    [undefined] raises a [TypeError]. *)
Definition row_number (range : string) : Result (option Z) :=
  match second_piece "!A" range with
  | Some piece => Ok (parseInt (Js.before ":" piece))
  | None => Throw "Cannot read properties of undefined (reading 'split')"
  end.

(** [logDocument(spreadSheetId, documentData)]; the row number is [None]
    when it is NaN. *)
Definition logDocument (env : Env) (spreadSheetId : string)
    (documentData : DocumentData) : M State (option Z) :=
  try_catch
    (_ <- authenticate (auth_env env) ;;
     processed <- (fun s => (Ok (today env (requests s)), s)) ;;
     match iso_day env (emailDate documentData) with
     | None => throw "Invalid time value"
     | Some emailDay =>
         let row := row_of processed emailDay documentData in
         updates <- request
           (ValuesAppend spreadSheetId "Financial Documents!A:J" row)
           (fun h c => values_append env h c spreadSheetId row) ;;
         match updates with
         | Some (Some range) =>
             if truthy_string (Some range)
             then fun s => (row_number range, s)
             else throw "Append response missing update range info"
         | _ => throw "Append response missing update range info"
         end
     end)
    (fun message => throw ("Failed to log document: " ++ message)).

(** The range the API reports for a row written at line [n] of a sheet. *)
Definition range_of_row (sheet : string) (n : N) : string :=
  sheet ++ "!A" ++ Js.N_to_string n ++ ":J" ++ Js.N_to_string n.

Definition no_bang (c : ascii) : bool := negb (Ascii.eqb c "!").

#[global] Arguments folder_query : simpl never.
#[global] Arguments spreadsheet_query : simpl never.

(** A request of [setupHeaders]. *)
Definition is_setup (r : Request) : bool :=
  match r with
  | ValuesUpdate _ _ _ | BatchUpdate _ => true
  | _ => false
  end.

(** What a method that looks an item up by [q] and creates it with [create]
    has done when it returns [id]: the id is not empty, and it is either the
    id of the first file listed, with nothing created, or the id that the
    creation answered after a listing that showed no file; only requests of
    the header setup follow a creation. *)
Definition finds_or_creates (env : Env) (q : string) (create : Request)
    (created : list Request -> Credentials -> Result (option string))
    (m : M State string) : Prop :=
  forall s id,
    fst (m s) = Ok id ->
    let s' := snd (m s) in
    id <> ""
    /\ exists c,
         (exists f rest,
            files_list env (requests s) c q = Ok (Some (f :: rest))
            /\ file_id f = Some id
            /\ sent s s' [FilesList q])
         \/ ((files_list env (requests s) c q = Ok None
              \/ files_list env (requests s) c q = Ok (Some []))
             /\ created (FilesList q :: requests s) c = Ok (Some id)
             /\ exists setup,
                  sent s s' (setup ++ [create; FilesList q])
                  /\ forallb is_setup setup = true).

End Workspace.

Module ApiScenario.
Import GoogleApi.

Definition financial_label : GmailService.Label :=
  {| GmailService.label_id := Some "Label_7";
     GmailService.label_name := Some GmailService.processed_label |}.

(** An API in which the label does not exist until it is created. *)
Definition gmail : GmailService.Env :=
  {| GmailService.auth_env := Scenario.auth_env (Throw "unused");
     GmailService.messages_list := fun _ _ _ _ => Ok (Some ["m1"; "m2"]);
     GmailService.messages_get := fun _ _ _ =>
       Ok {| GmailMessage.payload := None |};
     GmailService.attachments_get := fun _ _ _ _ => Ok (Some "JVBE_i0-");
     GmailService.labels_list := fun h _ =>
       if existsb GmailService.is_create h then Ok (Some [financial_label]) else Ok (Some []);
     GmailService.labels_create := fun _ _ _ => Ok tt;
     GmailService.messages_modify := fun _ _ _ _ => Ok tt;
     GmailService.base64_decode := fun text => text;
     GmailService.day_before := fun _ => Some "2024-02-01T09:30:00.000Z" |}.

Definition signed_in {Request : Type} : GoogleApi.State Request :=
  {| auth := Scenario.auth_state AuthScenario.valid_token; requests := [] |}.

Definition signed_out {Request : Type} : GoogleApi.State Request :=
  {| auth := AuthScenario.signed_out; requests := [] |}.

(** A Drive without the folder and the spreadsheet, and a sheet whose next
    free row is the 12th. *)
Definition workspace : Workspace.Env :=
  {| Workspace.auth_env := Scenario.auth_env (Throw "unused");
     Workspace.files_list := fun _ _ _ => Ok (Some []);
     Workspace.files_create := fun _ _ _ => Ok (Some "file-1");
     Workspace.spreadsheets_create := fun _ _ _ => Ok (Some "sheet-1");
     Workspace.values_update := fun _ _ _ => Throw "quota exceeded";
     Workspace.batchUpdate := fun _ _ _ => Ok tt;
     Workspace.values_append := fun _ _ _ _ =>
       Ok (Some (Some (Workspace.range_of_row "'Financial Documents'" 12)));
     Workspace.today := fun _ => "2024-03-02";
     Workspace.iso_day := fun text =>
       if String.eqb text "" then None else Some "2024-03-01" |}.

Definition invoice_row : Workspace.DocumentData :=
  {| Workspace.emailDate := "Fri, 1 Mar 2024 10:00:00 +0000";
     Workspace.senderEmail := "billing@acme.example";
     Workspace.subject := "Invoice #4711";
     Workspace.fileName := "2024-03-01_acme_INV4711.pdf";
     Workspace.driveFileId := "file-1";
     Workspace.fileSize := Some "12.5 KB" |}.

End ApiScenario.
Example formatFileSize_0 : FileSize.formatFileSize 0 = "Unknown".
Proof. reflexivity. Qed.

Example formatFileSize_1536 : FileSize.formatFileSize 1536 = "1.5 KB".
Proof. vm_compute. reflexivity. Qed.

Example formatFileSize_1GiB : FileSize.formatFileSize 1073741824 = "1 GB".
Proof. vm_compute. reflexivity. Qed.

Example formatFileSize_1TiB : FileSize.formatFileSize 1099511627776 = "1 undefined".
Proof. vm_compute. reflexivity. Qed.

(** ** Facts about the scaling loop *)

Module FileSizeFacts.
Import FileSize.

(** One turn of the loop. *)
Lemma scale_step (size : Q) (unitIndex : nat) :
  scale size unitIndex =
  if Qle_bool 1024 size && (unitIndex <=? length units - 1)%nat
  then scale (size / 1024) (S unitIndex)
  else (size, unitIndex).
Proof.
  funelim (scale size unitIndex);
    match goal with
    | e : (_ && _)%bool = _ |- _ => clear -e; rewrite e; reflexivity
    end.
Qed.

Lemma guard_after_division (c size : Q) :
  Qle_bool c (size / 1024) = Qle_bool (c * 1024) size.
Proof.
  apply eq_true_iff_eq. rewrite !Qle_bool_iff. split; intro H.
  - apply Qmult_le_compat_r with (z := 1024) in H; [|discriminate].
    rewrite Qmult_comm with (x := size / 1024) in H.
    rewrite Qmult_div_r in H; [exact H | discriminate].
  - apply Qle_shift_div_l; [reflexivity | exact H].
Qed.

Lemma guard_on_integer (c z : Z) :
  Qle_bool (inject_Z c) (inject_Z z) = (c <=? z)%Z.
Proof. unfold Qle_bool. simpl. rewrite !Z.mul_1_r. reflexivity. Qed.

Lemma guard_scaled (c : Z) (size : Q) :
  Qle_bool (inject_Z c) (size / 1024) = Qle_bool (inject_Z (c * 1024)) size.
Proof.
  rewrite guard_after_division. apply Qleb_comp; [|reflexivity].
  rewrite inject_Z_mult. reflexivity.
Qed.

(** Closed form of the loop on an integer byte count: the index it stops at
    and the value it holds there. *)
Lemma scale_bytes (z : Z) :
  scale (inject_Z z) 0 =
  if (z <? 1024)%Z then (inject_Z z, 0%nat)
  else if (z <? 1024 ^ 2)%Z then (inject_Z z / 1024, 1%nat)
  else if (z <? 1024 ^ 3)%Z then (inject_Z z / 1024 / 1024, 2%nat)
  else if (z <? 1024 ^ 4)%Z then (inject_Z z / 1024 / 1024 / 1024, 3%nat)
  else (inject_Z z / 1024 / 1024 / 1024 / 1024, 4%nat).
Proof.
  assert (G : forall size, Qle_bool 1024 size = Qle_bool (inject_Z 1024) size)
    by reflexivity.
  change (1024 ^ 2)%Z with 1048576%Z.
  change (1024 ^ 3)%Z with 1073741824%Z.
  change (1024 ^ 4)%Z with 1099511627776%Z.
  do 4 (rewrite scale_step; cbn [length units Nat.sub Nat.leb andb];
        rewrite andb_true_r, G, ?guard_scaled, guard_on_integer;
        rewrite Z.leb_antisym;
        match goal with |- context [negb (z <? ?c)%Z] =>
          let c' := eval cbv in c in change c with c';
          destruct (Z.ltb_spec z c'); cbn [negb]
        end; [reflexivity|]).
  rewrite scale_step; cbn [length units Nat.sub Nat.leb andb].
  rewrite andb_false_r. reflexivity.
Qed.

Lemma unitIndexOf_cases (n : N) :
  unitIndexOf n =
  if (n <? 1024)%N then 0%nat
  else if (n <? 1024 ^ 2)%N then 1%nat
  else if (n <? 1024 ^ 3)%N then 2%nat
  else if (n <? 1024 ^ 4)%N then 3%nat
  else 4%nat.
Proof.
  unfold unitIndexOf. rewrite scale_bytes.
  change (1024 ^ 2)%Z with 1048576%Z; change (1024 ^ 2)%N with 1048576%N.
  change (1024 ^ 3)%Z with 1073741824%Z; change (1024 ^ 3)%N with 1073741824%N.
  change (1024 ^ 4)%Z with 1099511627776%Z; change (1024 ^ 4)%N with 1099511627776%N.
  repeat match goal with
         | |- context [(Z.of_N n <? ?c)%Z] => destruct (Z.ltb_spec (Z.of_N n) c)
         | |- context [(n <? ?c)%N] => destruct (N.ltb_spec n c)
         end; try reflexivity; exfalso; lia.
Qed.

Lemma formatFileSize_shape (n : N) :
  (0 < n)%N ->
  exists num : string, formatFileSize n = num ++ " " ++ unit_label (unitIndexOf n).
Proof.
  intro Hpos. unfold formatFileSize, unitIndexOf.
  destruct (N.eqb_spec n 0) as [->|_]; [inversion Hpos|].
  destruct (scale (inject_Z (Z.of_N n)) 0) as [size unitIndex]. simpl snd.
  eexists. reflexivity.
Qed.

End FileSizeFacts.

(** C10. [formatFileSize] looks its unit up inside the four-element array
    exactly for byte counts below 1024^4: for a positive count below that
    bound the index is at most 3 and the result is a number followed by one of
    B, KB, MB, GB; from 1024^4 on the loop guard lets the index reach 4, the
    lookup falls outside the array and the result carries no unit. *)
Theorem formatFileSize_unit_lookup_in_bounds_iff_below_1TiB (n : N) :
  (0 < n)%N ->
  if (n <? 1024 ^ 4)%N
  then (FileSize.unitIndexOf n < length FileSize.units)%nat
       /\ exists num u, In u FileSize.units
                        /\ FileSize.formatFileSize n = num ++ " " ++ u
  else FileSize.unitIndexOf n = length FileSize.units
       /\ nth_error FileSize.units (FileSize.unitIndexOf n) = None
       /\ exists num, FileSize.formatFileSize n = num ++ " undefined".
Proof.
  intro Hpos.
  destruct (FileSizeFacts.formatFileSize_shape n Hpos) as [num Hnum].
  rewrite Hnum. clear Hnum.
  rewrite FileSizeFacts.unitIndexOf_cases.
  destruct (N.ltb_spec n (1024 ^ 4)) as [Hlt|Hge].
  - assert (Hnth : forall i, (i < 4)%nat ->
              (i < length FileSize.units)%nat
              /\ exists num' u, In u FileSize.units
                   /\ num ++ " " ++ FileSize.unit_label i = num' ++ " " ++ u).
    { intros i Hi. split; [exact Hi|]. exists num.
      do 4 (destruct i as [|i];
            [eexists; split; [|reflexivity]; simpl; tauto|]).
      lia. }
    repeat match goal with
           | |- context [(n <? ?c)%N] => destruct (N.ltb_spec n c)
           end; apply Hnth; lia.
  - assert (H1 : (n <? 1024)%N = false) by (apply N.ltb_ge; cbn in Hge |- *; lia).
    assert (H2 : (n <? 1024 ^ 2)%N = false) by (apply N.ltb_ge; cbn in Hge |- *; lia).
    assert (H3 : (n <? 1024 ^ 3)%N = false) by (apply N.ltb_ge; cbn in Hge |- *; lia).
    rewrite H1, H2, H3.
    split; [reflexivity|]. split; [reflexivity|]. exists num. reflexivity.
Qed.

Lemma formatFileSize_unit_lookup_witness :
  (0 < 1536)%N
  /\ (FileSize.unitIndexOf 1536 < length FileSize.units)%nat
  /\ exists num u, In u FileSize.units
                   /\ FileSize.formatFileSize 1536 = num ++ " " ++ u.
Proof.
  split; [reflexivity|].
  exact (formatFileSize_unit_lookup_in_bounds_iff_below_1TiB 1536 eq_refl).
Defined.

(** C7. At 1024^4 bytes the loop runs a fifth time, the index leaves the
    four-element array and the result carries the word "undefined" where the
    unit should be: it ends in none of B, KB, MB, GB. (Below that bound the
    claim's examples hold: see the examples above and [scale_bytes].) *)
Theorem formatFileSize_at_1TiB_has_no_unit :
  FileSize.formatFileSize (1024 ^ 4) = "1 undefined"
  /\ FileSize.unitIndexOf (1024 ^ 4) = 4%nat
  /\ existsb (fun u => Js.ends_with (" " ++ u) (FileSize.formatFileSize (1024 ^ 4)))
       FileSize.units = false.
Proof. vm_compute. repeat split. Qed.

(** ** Document extensions *)

Module DocumentFileFacts.
Import DocumentFile.

Lemma take_drop (n : nat) (s : string) : Js.take n s ++ Js.drop n s = s.
Proof.
  revert s. induction n as [|n IH]; intros [|c s]; cbn; try reflexivity.
  rewrite IH. reflexivity.
Qed.

Lemma drop_length_app (stem rest : string) :
  Js.drop (String.length stem) (stem ++ rest) = rest.
Proof. induction stem as [|c stem IH]; cbn; auto. Qed.

Lemma map_app (f : ascii -> ascii) (a b : string) :
  Js.map f (a ++ b) = Js.map f a ++ Js.map f b.
Proof. induction a as [|c a IH]; cbn; [reflexivity | rewrite IH; reflexivity]. Qed.

Lemma map_length (f : ascii -> ascii) (s : string) :
  String.length (Js.map f s) = String.length s.
Proof. induction s as [|c s IH]; cbn; auto. Qed.

(** Lower-casing neither makes nor unmakes a dot. *)
Lemma lower_char_dot (c : ascii) :
  Ascii.eqb (Js.lower_char c) "." = Ascii.eqb c ".".
Proof.
  destruct c as [[] [] [] [] [] [] [] []]; vm_compute; reflexivity.
Qed.

Lemma lastIndexOf_lower (s : string) :
  Js.lastIndexOf "." (Js.toLowerCase s) = Js.lastIndexOf "." s.
Proof.
  induction s as [|c s IH]; cbn [Js.toLowerCase Js.map Js.lastIndexOf];
    [reflexivity|].
  fold (Js.toLowerCase s). rewrite IH, lower_char_dot. reflexivity.
Qed.

Lemma lastIndexOf_lower_bound (c : ascii) (s : string) :
  (-1 <= Js.lastIndexOf c s)%Z.
Proof.
  induction s as [|a s IH]; cbn [Js.lastIndexOf]; [lia|].
  destruct (Z.leb_spec 0 (Js.lastIndexOf c s)); [lia|].
  destruct (Ascii.eqb a c); lia.
Qed.

(** The last dot of [stem.ext], for an [ext] without dots, is the one
    written. *)
Lemma lastIndexOf_stem_ext (stem ext : string) :
  Js.lastIndexOf "." ext = (-1)%Z ->
  Js.lastIndexOf "." (stem ++ "." ++ ext) = Z.of_nat (String.length stem).
Proof.
  intro Hext. change ("." ++ ext) with (String "."%char ext).
  induction stem as [|c stem IH].
  - cbn [String.append Js.lastIndexOf String.length]. rewrite Hext. reflexivity.
  - cbn [String.append Js.lastIndexOf String.length]. rewrite IH.
    destruct (Z.leb_spec 0 (Z.of_nat (String.length stem))); lia.
Qed.

Lemma includes_dotted (ext : string) :
  In ext allowed_extensions ->
  Js.includes documentExtensions ("." ++ ext) = true
  /\ Js.lastIndexOf "." ext = (-1)%Z.
Proof.
  cbn [In allowed_extensions].
  intros H. repeat (destruct H as [<-|H]; [split; reflexivity|]). destruct H.
Qed.

Lemma includes_inv (extension : string) :
  Js.includes documentExtensions extension = true ->
  exists ext, In ext allowed_extensions /\ extension = "." ++ ext.
Proof.
  unfold Js.includes. rewrite existsb_exists. intros [x [Hin Heq]].
  apply String.eqb_eq in Heq. subst x.
  cbn [In documentExtensions] in Hin.
  repeat (destruct Hin as [<-|Hin];
          [eexists; split; [|reflexivity]; cbn; tauto|]).
  destruct Hin.
Qed.

(** [isDocumentFile] against the allow-list as the specification words it:
    the name, lower-cased, ends in a dot and one of the eight extensions. *)
Lemma isDocumentFile_iff (name : string) :
  isDocumentFile name = true <->
  exists ext, In ext allowed_extensions /\ has_extension ext name.
Proof.
  unfold isDocumentFile, has_extension. split.
  - intro H. apply includes_inv in H. destruct H as [ext [Hin Heq]].
    exists ext. split; [exact Hin|].
    exists (Js.take (Z.to_nat (Z.max 0 (Js.lastIndexOf "." name)))
              (Js.toLowerCase name)).
    unfold Js.substring_from in Heq. rewrite <- Heq. symmetry. apply take_drop.
  - intros [ext [Hin [stem Hstem]]].
    destruct (includes_dotted ext Hin) as [Hinc Hnodot].
    rewrite <- lastIndexOf_lower, Hstem.
    rewrite (lastIndexOf_stem_ext stem ext Hnodot).
    unfold Js.substring_from.
    rewrite Z.max_r by lia. rewrite Nat2Z.id, drop_length_app. exact Hinc.
Qed.

Lemma isDocumentFile_false (name : string) :
  (forall ext, In ext allowed_extensions -> ~ has_extension ext name) ->
  isDocumentFile name = false.
Proof.
  intro H. destruct (isDocumentFile name) eqn:E; [|reflexivity].
  apply isDocumentFile_iff in E. destruct E as [ext [Hin Hext]].
  exfalso. exact (H ext Hin Hext).
Qed.

End DocumentFileFacts.

Example isDocumentFile_upper_case : DocumentFile.isDocumentFile "Scan.PDF" = true.
Proof. reflexivity. Qed.

Example isDocumentFile_zip : DocumentFile.isDocumentFile "logs.zip" = false.
Proof. reflexivity. Qed.

Example isDocumentFile_no_dot : DocumentFile.isDocumentFile "pdf" = false.
Proof. reflexivity. Qed.

(** ** Invoice tokens *)

Module DriveFacts.
Import Pattern Drive.

Lemma first_match_app (before after : list Pattern.t) (subject : string) :
  (forall q, In q before -> exec q subject = None) ->
  first_match (before ++ after) subject = first_match after subject.
Proof.
  induction before as [|q before IH]; intro H; cbn [app first_match].
  - reflexivity.
  - rewrite (H q) by (left; reflexivity). apply IH.
    intros q' Hq'. apply H. right. exact Hq'.
Qed.

(** The patterns are tried in the order of the array and the first one that
    matches gives the token. *)
Lemma extractInvoiceNumber_first_match (random36 subject : string)
    (before : list Pattern.t) (p : Pattern.t) (after : list Pattern.t)
    (group : string) :
  patterns = (before ++ p :: after)%list ->
  (forall q, In q before -> exec q subject = None) ->
  exec p subject = Some group ->
  extractInvoiceNumber random36 subject = "INV" ++ group.
Proof.
  intros Hsplit Hbefore Hp. unfold extractInvoiceNumber.
  rewrite Hsplit, (first_match_app before (p :: after) subject Hbefore).
  cbn [first_match]. rewrite Hp. reflexivity.
Qed.

Lemma upper_base36 (c : ascii) :
  is_base36 c = true -> is_token_char (Js.upper_char c) = true.
Proof.
  destruct c as [[] [] [] [] [] [] [] []]; vm_compute; intro H;
    first [reflexivity | discriminate H].
Qed.

Lemma take_token (n : nat) (frac : string) :
  Js.forallb is_base36 frac = true ->
  Js.forallb is_token_char (Js.toUpperCase (Js.take n frac)) = true
  /\ String.length (Js.toUpperCase (Js.take n frac)) = Nat.min n (String.length frac).
Proof.
  revert frac. induction n as [|n IH]; intros [|c frac] H; cbn; auto.
  cbn in H. apply andb_prop in H. destruct H as [Hc Hrest].
  destruct (IH frac Hrest) as [Hall Hlen].
  fold (Js.toUpperCase (Js.take n frac)).
  rewrite (upper_base36 c Hc), Hall, Hlen. auto.
Qed.

(** The fallback token: the first six digits of the rendering's fraction,
    upper-cased; fewer when the rendering has fewer. It has the shape
    [INV[A-Z0-9]{6}] exactly when the fraction has six digits or more. *)
Lemma extractInvoiceNumber_fallback (frac subject : string) :
  first_match patterns subject = None ->
  Js.forallb is_base36 frac = true ->
  extractInvoiceNumber ("0." ++ frac) subject
    = "INV" ++ Js.toUpperCase (Js.take 6 frac)
  /\ matches_INV6 (extractInvoiceNumber ("0." ++ frac) subject)
     = (6 <=? String.length frac)%nat.
Proof.
  intros Hnone Hfrac. unfold extractInvoiceNumber. rewrite Hnone.
  change (Js.substr 2 6 ("0." ++ frac)) with (Js.take 6 frac).
  split; [reflexivity|].
  destruct (take_token 6 frac Hfrac) as [Hall Hlen].
  unfold matches_INV6.
  change (Js.take 3 ("INV" ++ Js.toUpperCase (Js.take 6 frac))) with "INV".
  change (Js.drop 3 ("INV" ++ Js.toUpperCase (Js.take 6 frac)))
    with (Js.toUpperCase (Js.take 6 frac)).
  rewrite Hall, Hlen, andb_true_r. cbn [String.eqb Ascii.eqb Bool.eqb andb].
  destruct (Nat.leb_spec 6 (String.length frac)).
  - rewrite Nat.min_l by assumption. reflexivity.
  - rewrite Nat.min_r by lia. apply Nat.eqb_neq. lia.
Qed.

End DriveFacts.

Example extractInvoiceNumber_invoice_4821 :
  forall random36,
    Drive.extractInvoiceNumber random36 "Invoice #4821 - March" = "INV4821".
Proof. intro random36. reflexivity. Qed.

Example extractInvoiceNumber_keyword_before_digit_run :
  Drive.extractInvoiceNumber "0.4fzyo82mvyr" "ref 20240101, bill 12" = "INV12".
Proof. reflexivity. Qed.

Example extractInvoiceNumber_digit_run :
  Drive.extractInvoiceNumber "0.4fzyo82mvyr" "statement 20240101 and 5" = "INV20240101".
Proof. reflexivity. Qed.

Example extractInvoiceNumber_random_token :
  Drive.extractInvoiceNumber "0.4fzyo82mvyr" "Payment due" = "INV4FZYO8".
Proof. reflexivity. Qed.

(** C6. When [Math.random()] returns 0.5, whose base-36 rendering is "0.i",
    and the subject has no number, the token is "INVI": it does not have the
    shape [INV[A-Z0-9]{6}]. (A subject with a number is handled as claimed:
    see [extractInvoiceNumber_first_match] and the examples.) *)
Theorem extractInvoiceNumber_short_rendering_gives_short_token :
  Pattern.first_match Drive.patterns "Payment due" = None
  /\ Drive.extractInvoiceNumber "0.i" "Payment due" = "INVI"
  /\ Drive.matches_INV6 (Drive.extractInvoiceNumber "0.i" "Payment due") = false
  /\ Drive.extractInvoiceNumber "0" "Payment due" = "INV".
Proof. repeat split. Qed.

(** ** The credential lifecycle *)

Module AuthFacts.
Import Auth.

(** A refresh whose exchange fails: one call to the exchange, none to the
    repository, and the record and the client as they were. *)
Lemma refreshTokens_exchange_failure (env : Env) (s : State) (e : string) :
  refreshAccessToken env (history s) (client s) = Throw e ->
  refreshTokens env s =
  (Throw "Failed to refresh authentication tokens", record RefreshAccessToken s).
Proof.
  intro H. unfold refreshTokens, try_catch, bind, throw. rewrite H. reflexivity.
Qed.

(** A refresh whose exchange answers, on a stored record. *)
Lemma refreshTokens_exchange_success (env : Env) (s : State)
    (userToken : UserToken) (c : Credentials) :
  stored s = Some userToken ->
  refreshAccessToken env (history s) (client s) = Ok c ->
  refreshTokens env s =
  match findOne_fault env (RefreshAccessToken :: history s),
        save_fault env (FindOne :: RefreshAccessToken :: history s) with
  | None, None =>
      (Ok tt, {| stored := Some (merged userToken c); client := c;
                 history := Save :: FindOne :: RefreshAccessToken :: history s |})
  | None, Some _ =>
      (Throw "Failed to refresh authentication tokens",
       {| stored := stored s; client := client s;
          history := Save :: FindOne :: RefreshAccessToken :: history s |})
  | Some _, _ =>
      (Throw "Failed to refresh authentication tokens",
       {| stored := stored s; client := client s;
          history := FindOne :: RefreshAccessToken :: history s |})
  end.
Proof.
  intros Hs Hx.
  unfold refreshTokens, saveTokens, try_catch, bind, throw, findOne, save,
    setCredentials, record.
  rewrite Hx. cbn [history stored client].
  destruct (findOne_fault env (RefreshAccessToken :: history s)); [reflexivity|].
  rewrite Hs. cbn [history stored client].
  destruct (save_fault env (FindOne :: RefreshAccessToken :: history s));
    reflexivity.
Qed.

(** [getAuthenticated] once the record is found. *)
Lemma getAuthenticated_found (env : Env) (s : State) (userToken : UserToken) :
  findOne_fault env (history s) = None ->
  stored s = Some userToken ->
  getAuthenticated env s =
  let s1 := {| stored := Some userToken; client := credentials_of userToken;
               history := FindOne :: history s |} in
  if must_refresh (Date_now env (FindOne :: history s)) userToken
  then match refreshTokens env s1 with
       | (Ok _, s2) => (Ok (client s2), s2)
       | (Throw message, s2) => (Throw message, s2)
       end
  else (Ok (credentials_of userToken), s1).
Proof.
  intros Hfind Hstored.
  unfold getAuthenticated, loadTokens, findOne, bind, try_catch, setCredentials.
  rewrite Hfind, Hstored. cbn [record history stored client].
  rewrite ?Hstored.
  destruct (must_refresh (Date_now env (FindOne :: history s)) userToken);
    reflexivity.
Qed.

End AuthFacts.

(** C4. A refresh attempt whose token exchange fails throws the refresh
    failure ("Failed to refresh authentication tokens") and leaves the stored
    record as it was: the repository's save is not called. *)
Theorem refresh_failure_propagates_and_keeps_record
    (env : Auth.Env) (s : Auth.State) (e : string) :
  Auth.refreshAccessToken env (Auth.history s) (Auth.client s) = Throw e ->
  exists s',
    Auth.refreshTokens env s = (Throw "Failed to refresh authentication tokens", s')
    /\ Auth.stored s' = Auth.stored s
    /\ Auth.save_calls s' = Auth.save_calls s
    /\ Auth.refresh_calls s' = S (Auth.refresh_calls s).
Proof.
  intro H. eexists. split.
  - apply AuthFacts.refreshTokens_exchange_failure with (e := e). exact H.
  - repeat split.
Qed.

Lemma refresh_failure_witness :
  exists s',
    Auth.refreshTokens (Scenario.auth_env (Throw "invalid_grant"))
      (Scenario.auth_state (Scenario.expired_token (Some "r1")))
    = (Throw "Failed to refresh authentication tokens", s')
    /\ Auth.stored s' = Some (Scenario.expired_token (Some "r1"))
    /\ Auth.save_calls s' = 0%nat
    /\ Auth.refresh_calls s' = 1%nat.
Proof.
  exact (refresh_failure_propagates_and_keeps_record
           (Scenario.auth_env (Throw "invalid_grant"))
           (Scenario.auth_state (Scenario.expired_token (Some "r1")))
           "invalid_grant" eq_refl).
Defined.

(** C1, as the claim states it, fails: with an expiry in the past and no
    refresh token [getAuthenticated] does not throw; it hands out the client
    holding the expired credential (and calls no refresh). *)
Lemma getAuthenticated_expired_without_refresh_token_does_not_fail :
  let env := Scenario.auth_env (Throw "unused") in
  let s := Scenario.auth_state (Scenario.expired_token None) in
  let c := Auth.credentials_of (Scenario.expired_token None) in
  fst (Auth.getAuthenticated env s) = Ok c
  /\ Auth.expired (Auth.Date_now env []) c
  /\ Auth.refresh_calls (snd (Auth.getAuthenticated env s)) = 0%nat
  /\ ~ exists message, fst (Auth.getAuthenticated env s) = Throw message.
Proof.
  cbv zeta. split; [reflexivity|]. split.
  - eexists. split; [reflexivity|]. vm_compute. discriminate.
  - split; [reflexivity|]. intros [m Hm]. vm_compute in Hm. discriminate Hm.
Qed.

(** C1, amended. For a stored record with a non-zero expiry that has passed:
    with a refresh token, [getAuthenticated] calls the exchange exactly once;
    when the exchange and the write of its answer succeed it returns the
    client holding the exchanged credential and the record holds it too (the
    old refresh token is kept when the exchange sends none), and when either
    fails it throws the refresh failure and the record is as before. Without
    a refresh token it calls no exchange and returns the client holding the
    stored credential. *)
Theorem getAuthenticated_on_expired_record
    (env : Auth.Env) (s : Auth.State) (userToken : Auth.UserToken) (e : Z) :
  Auth.findOne_fault env (Auth.history s) = None ->
  Auth.stored s = Some userToken ->
  Auth.expiryDate userToken = Some e ->
  e <> 0%Z ->
  (e <= Auth.Date_now env (Auth.FindOne :: Auth.history s))%Z ->
  let h1 := Auth.FindOne :: Auth.history s in
  let h2 := Auth.RefreshAccessToken :: h1 in
  let h3 := Auth.FindOne :: h2 in
  let result := fst (Auth.getAuthenticated env s) in
  let s' := snd (Auth.getAuthenticated env s) in
  if Auth.truthy_string (Auth.refreshToken userToken)
  then
    Auth.refresh_calls s' = S (Auth.refresh_calls s)
    /\ match Auth.refreshAccessToken env h1 (Auth.credentials_of userToken),
             Auth.findOne_fault env h2, Auth.save_fault env h3 with
       | Ok c, None, None =>
           result = Ok c
           /\ Auth.stored s' = Some (Auth.merged userToken c)
           /\ Auth.client s' = c
       | _, _, _ =>
           result = Throw "Failed to refresh authentication tokens"
           /\ Auth.stored s' = Auth.stored s
       end
  else
    result = Ok (Auth.credentials_of userToken)
    /\ Auth.refresh_calls s' = Auth.refresh_calls s
    /\ Auth.stored s' = Auth.stored s.
Proof.
  intros Hfind Hstored Hexp Hnz Hle. cbv zeta.
  rewrite (AuthFacts.getAuthenticated_found env s userToken Hfind Hstored).
  cbv zeta. unfold Auth.must_refresh. rewrite Hexp.
  cbn [Auth.truthy_number Auth.nullish].
  apply Z.eqb_neq in Hnz. rewrite Hnz. apply Z.leb_le in Hle. rewrite Hle.
  cbn [negb andb].
  destruct (Auth.truthy_string (Auth.refreshToken userToken)).
  - set (s1 := {| Auth.stored := Some userToken;
                  Auth.client := Auth.credentials_of userToken;
                  Auth.history := Auth.FindOne :: Auth.history s |}).
    destruct (Auth.refreshAccessToken env (Auth.FindOne :: Auth.history s)
                (Auth.credentials_of userToken)) as [c|m] eqn:Hx.
    + rewrite (AuthFacts.refreshTokens_exchange_success env s1 userToken c eq_refl Hx).
      cbn [Auth.history Auth.stored Auth.client s1].
      destruct (Auth.findOne_fault env
                  (Auth.RefreshAccessToken :: Auth.FindOne :: Auth.history s));
        [split; [reflexivity|split; [reflexivity|symmetry; exact Hstored]]|].
      destruct (Auth.save_fault env
                  (Auth.FindOne :: Auth.RefreshAccessToken :: Auth.FindOne
                     :: Auth.history s));
        [split; [reflexivity|split; [reflexivity|symmetry; exact Hstored]]|].
      repeat split.
    + rewrite (AuthFacts.refreshTokens_exchange_failure env s1 m Hx).
      split; [reflexivity|]. split; [reflexivity|symmetry; exact Hstored].
  - cbn [fst snd Auth.client Auth.stored]. split; [reflexivity|].
    split; [reflexivity|symmetry; exact Hstored].
Qed.

Lemma getAuthenticated_on_expired_record_witness :
  let env := Scenario.auth_env (Ok Scenario.fresh_credentials) in
  let s := Scenario.auth_state (Scenario.expired_token (Some "r1")) in
  Auth.refresh_calls (snd (Auth.getAuthenticated env s)) = 1%nat
  /\ fst (Auth.getAuthenticated env s) = Ok Scenario.fresh_credentials
  /\ Auth.stored (snd (Auth.getAuthenticated env s))
     = Some (Auth.merged (Scenario.expired_token (Some "r1"))
               Scenario.fresh_credentials)
  /\ Auth.client (snd (Auth.getAuthenticated env s)) = Scenario.fresh_credentials.
Proof.
  exact (getAuthenticated_on_expired_record
           (Scenario.auth_env (Ok Scenario.fresh_credentials))
           (Scenario.auth_state (Scenario.expired_token (Some "r1")))
           (Scenario.expired_token (Some "r1"))
           (Scenario.noon - 3600000)%Z
           eq_refl eq_refl eq_refl
           ltac:(vm_compute; discriminate) ltac:(vm_compute; discriminate)).
Defined.

(** An expiry of exactly 0 is falsy in the guard of [getAuthenticated]: such
    a record is handed out as it is, refresh token or not. *)
Example getAuthenticated_expiry_zero_is_not_refreshed :
  let env := Scenario.auth_env (Ok Scenario.fresh_credentials) in
  let userToken :=
    {| Auth.userId := Auth.defaultUserId; Auth.accessToken := Some "old-access";
       Auth.refreshToken := Some "r1"; Auth.tok_scope := Some "gmail.readonly";
       Auth.tokenType := Some "Bearer"; Auth.expiryDate := Some 0%Z |} in
  fst (Auth.getAuthenticated env (Scenario.auth_state userToken))
    = Ok (Auth.credentials_of userToken)
  /\ Auth.refresh_calls (snd (Auth.getAuthenticated env (Scenario.auth_state userToken)))
     = 0%nat.
Proof. split; reflexivity. Qed.

(** ** The scan cycle *)

Module ScanFacts.
Import Scanner ScanSpec.

(** *** [respects] through the combinators *)

Section Respects.
Context {S : Type} (R : S -> S -> Prop).
Hypothesis R_refl : forall s, R s s.
Hypothesis R_trans : forall a b c, R a b -> R b c -> R a c.

Lemma respects_ret {A : Type} (a : A) : respects R (@ret S A a).
Proof. intro s. apply R_refl. Qed.

Lemma respects_throw {A : Type} (e : string) : respects R (@throw S A e).
Proof. intro s. apply R_refl. Qed.

Lemma respects_bind {A B : Type} (m : M S A) (k : A -> M S B) :
  respects R m -> (forall a, respects R (k a)) -> respects R (bind m k).
Proof.
  intros Hm Hk s. unfold bind. specialize (Hm s).
  destruct (m s) as [[a|e] s1]; cbn [snd] in *.
  - apply R_trans with s1; [exact Hm | apply Hk].
  - exact Hm.
Qed.

Lemma respects_try_catch {A : Type} (m : M S A) (h : string -> M S A) :
  respects R m -> (forall e, respects R (h e)) -> respects R (try_catch m h).
Proof.
  intros Hm Hh s. unfold try_catch. specialize (Hm s).
  destruct (m s) as [[a|e] s1]; cbn [snd] in *.
  - exact Hm.
  - apply R_trans with s1; [exact Hm | apply Hh].
Qed.

End Respects.

(** *** [only_added] is a preorder, monotone in the predicate *)

Lemma only_added_refl (P : string -> Prop) (w : World) : only_added P w w.
Proof.
  repeat split.
  - exists []. rewrite app_nil_r. auto.
  - exists []. auto.
  - exists []. rewrite app_nil_r. auto.
Qed.

Lemma only_added_trans (P : string -> Prop) (a b c : World) :
  only_added P a b -> only_added P b c -> only_added P a c.
Proof.
  intros [[d1 [Hd1 Fd1]] [[c1 [Hc1 Fc1]] [l1 [Hl1 Fl1]]]]
         [[d2 [Hd2 Fd2]] [[c2 [Hc2 Fc2]] [l2 [Hl2 Fl2]]]].
  repeat split.
  - exists (d1 ++ d2)%list. rewrite Hd2, Hd1, app_assoc. split; [reflexivity|].
    apply Forall_app; auto.
  - exists (c2 ++ c1)%list. rewrite Hc2, Hc1, app_assoc. split; [reflexivity|].
    apply Forall_app; auto.
  - exists (l1 ++ l2)%list. rewrite Hl2, Hl1, app_assoc. split; [reflexivity|].
    apply Forall_app; auto.
Qed.

Lemma only_added_weaken (P Q : string -> Prop) (w w' : World) :
  (forall m, P m -> Q m) -> only_added P w w' -> only_added Q w w'.
Proof.
  intros HPQ [[d [Hd Fd]] [[c [Hc Fc]] [l [Hl Fl]]]].
  repeat split.
  - exists d. split; [exact Hd|]. eapply Forall_impl; [|exact Fd]. auto.
  - exists c. split; [exact Hc|]. eapply Forall_impl; [|exact Fc].
    cbn beta. intros a Ha m Hm. auto.
  - exists l. split; [exact Hl|]. eapply Forall_impl; [|exact Fl]. auto.
Qed.

(** A call to a collaborator adds itself to the history and nothing else. *)
Lemma only_added_call {A : Type} (P : string -> Prop) (c : Call)
    (answer : History -> Result A) :
  (forall m, email_of c = Some m -> P m) ->
  respects (only_added P) (call c answer).
Proof.
  intros Hc w. unfold call, record. cbn.
  repeat split.
  - exists []. rewrite app_nil_r. auto.
  - exists [c]. split; [reflexivity|]. constructor; auto.
  - exists []. rewrite app_nil_r. auto.
Qed.

Lemma email_step_refl (P : string -> Prop) (w : World) : email_step P w w.
Proof. split; [reflexivity | apply only_added_refl]. Qed.

Lemma email_step_trans (P : string -> Prop) (a b c : World) :
  email_step P a b -> email_step P b c -> email_step P a c.
Proof.
  intros [L1 A1] [L2 A2]. split; [congruence|].
  eapply only_added_trans; eassumption.
Qed.

Lemma email_step_weaken (P Q : string -> Prop) (w w' : World) :
  (forall m, P m -> Q m) -> email_step P w w' -> email_step Q w w'.
Proof.
  intros HPQ [L A]. split; [exact L|]. eapply only_added_weaken; eassumption.
Qed.

Lemma email_step_call {A : Type} (P : string -> Prop) (c : Call)
    (answer : History -> Result A) :
  (forall m, email_of c = Some m -> P m) ->
  respects (email_step P) (call c answer).
Proof.
  intros Hc w. split; [reflexivity|]. apply only_added_call. exact Hc.
Qed.

Ltac step_bind :=
  apply respects_bind; [apply email_step_trans | | intro].

(** *** Skipped attachments *)

Lemma processAttachment_skip (env : Env) (messageId folderId spreadsheetId : string)
    (emailDetails : EmailDetails) (attachment : EmailAttachment)
    (processedDocs : list ProcessedDocumentResult) (w : World) :
  DocumentFile.isDocumentFile (filename attachment) = false ->
  processAttachment env messageId folderId spreadsheetId emailDetails attachment
    processedDocs w = (Ok processedDocs, w).
Proof.
  intro H. unfold processAttachment, try_catch, attachmentBody. rewrite H.
  reflexivity.
Qed.

Lemma processAttachments_all_skipped (env : Env)
    (messageId folderId spreadsheetId : string) (emailDetails : EmailDetails)
    (rest : list EmailAttachment)
    (processedDocs : list ProcessedDocumentResult) (w : World) :
  (forall a, In a rest -> DocumentFile.isDocumentFile (filename a) = false) ->
  processAttachments env messageId folderId spreadsheetId emailDetails rest
    processedDocs w = (Ok processedDocs, w).
Proof.
  induction rest as [|a rest IH]; intro H; cbn [processAttachments].
  - reflexivity.
  - unfold bind. rewrite processAttachment_skip by (apply H; left; reflexivity).
    apply IH. intros b Hb. apply H. right. exact Hb.
Qed.


Lemma email_step_document_save (env : Env) (d : ProcessedDocument) :
  respects (email_step (eq (emailId d))) (processedDocumentRepository_save env d).
Proof.
  unfold processedDocumentRepository_save. step_bind.
  - apply email_step_call. cbn. intros m [= <-]. reflexivity.
  - intro w. cbn. split; [reflexivity|]. repeat split; cbn.
    + exists [d]. split; [reflexivity|]. constructor; auto.
    + exists []. auto.
    + exists []. rewrite app_nil_r. auto.
Qed.

Lemma email_step_label (env : Env) (messageId : string) :
  respects (email_step (eq messageId)) (gmail_labelEmail env messageId).
Proof.
  unfold gmail_labelEmail. step_bind.
  - apply email_step_call. cbn. intros m [= <-]. reflexivity.
  - intro w. cbn. split; [reflexivity|]. repeat split; cbn.
    + exists []. rewrite app_nil_r. auto.
    + exists []. auto.
    + exists [messageId]. split; [reflexivity|]. constructor; auto.
Qed.

Lemma email_step_attachmentBody (env : Env) (messageId folderId spreadsheetId : string)
    (emailDetails : EmailDetails) (attachment : EmailAttachment)
    (processedDocs : list ProcessedDocumentResult) :
  respects (email_step (eq messageId))
    (attachmentBody env messageId folderId spreadsheetId emailDetails attachment
       processedDocs).
Proof.
  unfold attachmentBody.
  destruct (negb (DocumentFile.isDocumentFile (filename attachment))).
  { apply respects_ret. apply email_step_refl. }
  step_bind.
  { apply email_step_call. cbn. intros m [= <-]. reflexivity. }
  step_bind.
  { intro w. apply email_step_refl. }
  step_bind.
  { apply email_step_call. cbn. discriminate. }
  step_bind.
  { apply email_step_call. cbn. discriminate. }
  step_bind.
  { apply (email_step_document_save env). }
  step_bind.
  { destruct (global_structuredFilename env).
    - apply respects_ret. apply email_step_refl.
    - apply respects_throw. apply email_step_refl. }
  apply respects_ret. apply email_step_refl.
Qed.

Lemma email_step_processAttachment (env : Env) (messageId folderId spreadsheetId : string)
    (emailDetails : EmailDetails) (attachment : EmailAttachment)
    (processedDocs : list ProcessedDocumentResult) :
  respects (email_step (eq messageId))
    (processAttachment env messageId folderId spreadsheetId emailDetails attachment
       processedDocs).
Proof.
  unfold processAttachment.
  apply respects_try_catch; [apply email_step_trans | | ].
  - apply email_step_attachmentBody.
  - intro e. apply respects_throw. apply email_step_refl.
Qed.

Lemma email_step_processAttachments (env : Env) (messageId folderId spreadsheetId : string)
    (emailDetails : EmailDetails) (rest : list EmailAttachment) :
  forall processedDocs,
    respects (email_step (eq messageId))
      (processAttachments env messageId folderId spreadsheetId emailDetails rest
         processedDocs).
Proof.
  induction rest as [|attachment rest IH]; intro processedDocs; cbn [processAttachments].
  - apply respects_ret. apply email_step_refl.
  - step_bind; [apply email_step_processAttachment | apply IH].
Qed.

(** The pipeline of one email adds documents, calls and labels for that
    email only, and leaves the scan log table alone. *)
Lemma email_step_processEmail (env : Env) (messageId folderId spreadsheetId : string) :
  respects (email_step (eq messageId))
    (processEmail env messageId folderId spreadsheetId).
Proof.
  unfold processEmail. step_bind.
  { apply email_step_call. cbn. intros m [= <-]. reflexivity. }
  step_bind.
  { apply email_step_processAttachments. }
  match goal with
  | |- context [(0 <? length ?docs)%nat] => destruct (0 <? length docs)%nat
  end.
  - step_bind; [apply email_step_label|]. apply respects_ret. apply email_step_refl.
  - apply respects_ret. apply email_step_refl.
Qed.

(** The loop adds for the emails of its list only. *)
Lemma email_step_processMessages (env : Env) (folderId spreadsheetId : string)
    (messages : list string) :
  forall result w,
    email_step (fun m => In m messages) w
      (snd (processMessages env folderId spreadsheetId messages result w)).
Proof.
  induction messages as [|message rest IH]; intros result w; cbn [processMessages].
  - apply email_step_refl.
  - pose proof (email_step_processEmail env message folderId spreadsheetId w) as Hm.
    destruct (processEmail env message folderId spreadsheetId w) as [[docs|e] w1];
      cbn [snd] in Hm;
      (eapply email_step_trans;
       [ eapply email_step_weaken; [|exact Hm]; intros m <-; left; reflexivity
       | eapply email_step_weaken; [|apply IH]; intros m Hin; right; exact Hin ]).
Qed.

(** *** The [try] block, path by path *)

Lemma setup_world (env : Env) (w : World) : snd (setup env w) = after_setup w.
Proof.
  unfold setup, after_setup.
  destruct (ensureFolderExists env (history w) "Financial Document");
    destruct (ensureSpreadsheetExists env (EnsureFolderExists :: history w)
                "Financial Documents Log"); reflexivity.
Qed.

Lemma scanBody_paths (env : Env) (r : Run) :
  scanBody env r =
  match fst (setup env (world r)) with
  | Throw e => (Throw e, {| scanLog := scanLog r; world := after_setup (world r) |})
  | Ok (folderId, spreadsheetId) =>
      match document_find_fault env (history (after_setup (world r))) with
      | Some e => (Throw e, {| scanLog := scanLog r; world := after_find (world r) |})
      | None =>
          match searchEmails env (history (after_find (world r))) with
          | Throw e =>
              (Throw e, {| scanLog := scanLog r; world := after_search (world r) |})
          | Ok messages =>
              let w4 := after_search (world r) in
              let todo := unprocessed (processedIds (world r)) messages in
              if (length todo =? 0)%nat
              then finish env (mark_idle (Date_now env (history w4)) (scanLog r)) w4
                     empty_result
              else
                let '(res, w5) :=
                  processMessages env folderId spreadsheetId todo empty_result w4 in
                finish env (mark_completed env (Date_now env (history w5)) res (scanLog r))
                  w5 res
          end
      end
  end.
Proof.
  unfold scanBody. unfold bind at 1. unfold lift at 1.
  pose proof (setup_world env (world r)) as Hw.
  destruct (setup env (world r)) as [[[folderId spreadsheetId]|e] w2];
    cbn [fst snd] in *; subst w2; [|reflexivity].
  unfold bind at 1. unfold lift at 1.
  unfold getProcessedEmailIds, bind at 1, call, fault.
  cbn [world scanLog].
  destruct (document_find_fault env (history (after_setup (world r)))) as [e|];
    [reflexivity|].
  cbn [world scanLog].
  unfold bind at 1. unfold lift at 1. cbn [world scanLog].
  fold (after_find (world r)).
  destruct (searchEmails env (history (after_find (world r)))) as [messages|e];
    [|reflexivity].
  cbn [world scanLog]. fold (after_search (world r)).
  change (List.map emailId (documents (after_find (world r))))
    with (processedIds (world r)).
  cbv zeta.
  destruct (length (unprocessed (processedIds (world r)) messages) =? 0)%nat.
  - unfold bind, update_scanLog, finish, now, ret. cbn [world scanLog].
    destruct (save_scanLog env _) as [[u|e] r']; reflexivity.
  - unfold bind at 1. unfold lift at 1. cbn [world scanLog].
    destruct (processMessages env folderId spreadsheetId
                (unprocessed (processedIds (world r)) messages) empty_result
                (after_search (world r))) as [res w5].
    unfold bind, update_scanLog, finish, now, ret. cbn [world scanLog].
    destruct (save_scanLog env _) as [[u|e] r']; reflexivity.
Qed.

(** *** Saving the scan log *)

Lemma replace_nth_last {A : Type} (pre : list A) (old new : A) :
  replace_nth (length pre) new (pre ++ [old]) = (pre ++ [new])%list.
Proof. induction pre as [|x pre IH]; cbn; [reflexivity | rewrite IH; reflexivity]. Qed.

Lemma scanAndProcess_started (env : Env) (w : World) :
  scanLog_save_fault env (history w) = None ->
  scanAndProcess env w =
  let '(res, r) := try_catch (scanBody env) (scanHandler env) (started_run w) in
  (res, world r).
Proof.
  intro H. unfold scanAndProcess, scanLogRepository_save, bind, call, fault.
  rewrite H. reflexivity.
Qed.

Lemma scanAndProcess_first_save_fails (env : Env) (w : World) (e : string) :
  scanLog_save_fault env (history w) = Some e ->
  scanAndProcess env w = (Throw e, record ScanLogSave w).
Proof.
  intro H. unfold scanAndProcess, scanLogRepository_save, bind, call, fault.
  rewrite H. reflexivity.
Qed.

(** Saving a [scanLog] that names the last row of the table. *)
Lemma save_scanLog_last (env : Env) (l : ScanLog) (w : World)
    (pre : list ScanLog) (row : ScanLog) :
  log_id l = Some (length pre) ->
  scanLogs w = (pre ++ [row])%list ->
  save_scanLog env {| scanLog := l; world := w |} =
  match scanLog_save_fault env (history w) with
  | Some e => (Throw e, {| scanLog := l; world := record ScanLogSave w |})
  | None =>
      (Ok tt, {| scanLog := l;
                 world := {| scanLogs := pre ++ [l]; documents := documents w;
                             labelled := labelled w;
                             history := ScanLogSave :: history w |} |})
  end.
Proof.
  intros Hid Hrows.
  unfold save_scanLog, scanLogRepository_save, bind, call, fault.
  cbn [scanLog world].
  destruct (scanLog_save_fault env (history w)); [reflexivity|].
  rewrite Hid. cbn [record scanLogs documents labelled history].
  rewrite Hrows, replace_nth_last. reflexivity.
Qed.

Lemma run_keeps_refl (r : Run) : run_keeps r r.
Proof. intros pre row Hid H. split; [exact Hid|]. exists row. exact H. Qed.

Lemma run_keeps_save (env : Env) (l : ScanLog) (w : World) (r : Run) :
  log_id l = log_id (scanLog r) ->
  scanLogs w = scanLogs (world r) ->
  run_keeps r (snd (save_scanLog env {| scanLog := l; world := w |})).
Proof.
  intros Hid Hrows pre row Hpre Hr.
  rewrite (save_scanLog_last env l w pre row) by congruence.
  destruct (scanLog_save_fault env (history w)); cbn.
  - split; [congruence|]. exists row. congruence.
  - split; [congruence|]. exists l. reflexivity.
Qed.

Lemma run_keeps_finish (env : Env) (l : ScanLog) (w : World)
    (result : ProcessingResult) (r : Run) :
  log_id l = log_id (scanLog r) ->
  scanLogs w = scanLogs (world r) ->
  run_keeps r (snd (finish env l w result)).
Proof.
  intros Hid Hrows. pose proof (run_keeps_save env l w r Hid Hrows) as H.
  unfold finish. destruct (save_scanLog env _) as [[u|e] r']; exact H.
Qed.

(** The [try] block keeps the id of the local [scanLog] and rewrites no
    other row than its own. *)
Lemma run_keeps_scanBody (env : Env) (r : Run) :
  run_keeps r (snd (scanBody env r)).
Proof.
  rewrite scanBody_paths.
  assert (Hsame : forall w, scanLogs w = scanLogs (world r) ->
            run_keeps r {| scanLog := scanLog r; world := w |}).
  { intros w Hw pre row Hid Hr. split; [exact Hid|]. exists row.
    cbn. congruence. }
  destruct (fst (setup env (world r))) as [[folderId spreadsheetId]|e];
    [|apply Hsame; reflexivity].
  destruct (document_find_fault env _);
    [apply Hsame; reflexivity|].
  destruct (searchEmails env _) as [messages|e];
    [|apply Hsame; reflexivity].
  cbv zeta.
  destruct (length _ =? 0)%nat.
  - apply run_keeps_finish; reflexivity.
  - pose proof (email_step_processMessages env folderId spreadsheetId
                  (unprocessed (processedIds (world r)) messages) empty_result
                  (after_search (world r))) as [Hlogs _].
    destruct (processMessages env folderId spreadsheetId _ empty_result _)
      as [res w5]. cbn [snd] in Hlogs.
    apply run_keeps_finish; [reflexivity | exact Hlogs].
Qed.

(** The handler, on a run whose [scanLog] names the last row. *)
Lemma scanHandler_last (env : Env) (e : string) (r : Run)
    (pre : list ScanLog) (row : ScanLog) :
  log_id (scanLog r) = Some (length pre) ->
  scanLogs (world r) = (pre ++ [row])%list ->
  scanLog_save_fault env (history (world r)) = None ->
  scanHandler env e r =
  (Throw ("Scan process failed: " ++ e),
   {| scanLog := mark_failed (Date_now env (history (world r))) e (scanLog r);
      world := {| scanLogs := pre ++ [mark_failed (Date_now env (history (world r))) e
                                        (scanLog r)];
                  documents := documents (world r);
                  labelled := labelled (world r);
                  history := ScanLogSave :: history (world r) |} |}).
Proof.
  intros Hid Hrows Hfault.
  unfold scanHandler, bind, update_scanLog, now, throw. cbn [scanLog world].
  rewrite (save_scanLog_last env _ (world r) pre row) by (cbn; assumption).
  rewrite Hfault. reflexivity.
Qed.

(** *** The order of the save and the summary *)

(** A document attachment whose download, upload, ledger row and save
    succeed: the document is in the store when the summary is built, and it
    stays there when building the summary throws. *)
Lemma attachmentBody_saves_before_summary (env : Env)
    (messageId folderId spreadsheetId : string)
    (emailDetails : EmailDetails) (attachment : EmailAttachment)
    (processedDocs : list ProcessedDocumentResult) (w : World)
    (fileBuffer driveFileId : string) (rowNumber : nat) :
  let h1 := DownloadAttachment messageId (attachmentId attachment) :: history w in
  let name :=
    Drive.generateStructuredFilename (isoDate env) (today env h1) (random36 env h1)
      (from emailDetails) (subject emailDetails) (date emailDetails) None in
  let h2 := UploadFile name :: h1 in
  let h3 := LogDocument name :: h2 in
  let document :=
    new_document messageId spreadsheetId emailDetails attachment name driveFileId
      rowNumber in
  DocumentFile.isDocumentFile (filename attachment) = true ->
  downloadAttachment env (history w) messageId (attachmentId attachment) = Ok fileBuffer ->
  uploadFile env h1 fileBuffer name (mimeType attachment) folderId = Ok driveFileId ->
  logDocument env h2 spreadsheetId
    {| data_emailDate := date emailDetails;
       data_senderEmail := from emailDetails;
       data_subject := subject emailDetails;
       data_fileName := name;
       data_driveFileId := driveFileId;
       data_fileSize := FileSize.formatFileSize (size attachment) |} = Ok rowNumber ->
  document_save_fault env h3 = None ->
  attachmentBody env messageId folderId spreadsheetId emailDetails attachment
    processedDocs w =
  (match global_structuredFilename env with
   | Some v =>
       Ok (processedDocs ++
             [{| res_emailId := messageId; res_fileName := v;
                 res_driveFileId := driveFileId;
                 res_spreadsheetRow := rowNumber |}])%list
   | None => Throw "structuredFilename is not defined"
   end,
   {| scanLogs := scanLogs w; documents := documents w ++ [document];
      labelled := labelled w; history := DocumentSave messageId :: h3 |}).
Proof.
  intros h1 name h2 h3 document Hdoc Hdown Hup Hlog Hsave.
  subst document h3 h2 name h1.
  unfold attachmentBody. rewrite Hdoc. cbn [negb].
  unfold bind at 1. unfold call at 1. rewrite Hdown.
  unfold bind at 1. cbn [record history].
  unfold bind at 1. unfold call at 1. cbn [record history]. rewrite Hup.
  unfold bind at 1. unfold call at 1. cbn [record history]. rewrite Hlog.
  unfold bind at 1. unfold processedDocumentRepository_save, bind at 1, call, fault.
  cbn [record history]. rewrite Hsave.
  cbn [scanLogs documents labelled history emailId new_document].
  unfold bind. destruct (global_structuredFilename env); reflexivity.
Qed.

(** A turn of the attachment loop that returns has either skipped the
    attachment or stored one document and added its summary. *)
Lemma processAttachment_ok (env : Env) (messageId folderId spreadsheetId : string)
    (emailDetails : EmailDetails) (attachment : EmailAttachment)
    (processedDocs docs' : list ProcessedDocumentResult) (w w' : World) :
  processAttachment env messageId folderId spreadsheetId emailDetails attachment
    processedDocs w = (Ok docs', w') ->
  (docs' = processedDocs /\ documents w' = documents w)
  \/ exists d r, docs' = (processedDocs ++ [r])%list
                 /\ documents w' = (documents w ++ [d])%list
                 /\ summarises d r.
Proof.
  unfold processAttachment, try_catch, attachmentBody.
  destruct (negb (DocumentFile.isDocumentFile (filename attachment))).
  { intros [= <- <-]. left. split; reflexivity. }
  unfold bind at 1. unfold call at 1.
  destruct (downloadAttachment env (history w) messageId (attachmentId attachment))
    as [fileBuffer|e]; [|discriminate].
  unfold bind at 1. cbn [record history].
  unfold bind at 1. unfold call at 1. cbn [record history].
  destruct (uploadFile env _ fileBuffer _ (mimeType attachment) folderId)
    as [driveFileId|e]; [|discriminate].
  unfold bind at 1. unfold call at 1. cbn [record history].
  destruct (logDocument env _ spreadsheetId _) as [rowNumber|e]; [|discriminate].
  unfold bind at 1. unfold processedDocumentRepository_save, bind at 1, call, fault.
  cbn [record history].
  destruct (document_save_fault env _) as [e|]; [discriminate|].
  cbn [scanLogs documents labelled history].
  unfold bind. destruct (global_structuredFilename env) as [v|]; [|discriminate].
  unfold ret. intros [= <- <-]. right. do 2 eexists.
  split; [reflexivity|]. split; [reflexivity|]. repeat split.
Qed.

Lemma processAttachments_ok (env : Env) (messageId folderId spreadsheetId : string)
    (emailDetails : EmailDetails) (rest : list EmailAttachment) :
  forall (processedDocs docs' : list ProcessedDocumentResult) (w w' : World),
    processAttachments env messageId folderId spreadsheetId emailDetails rest
      processedDocs w = (Ok docs', w') ->
    exists new added,
      docs' = (processedDocs ++ added)%list
      /\ documents w' = (documents w ++ new)%list
      /\ Forall2 summarises new added.
Proof.
  induction rest as [|attachment rest IH]; intros processedDocs docs' w w';
    cbn [processAttachments].
  - intros [= <- <-]. exists [], []. rewrite !app_nil_r. auto.
  - unfold bind.
    destruct (processAttachment env messageId folderId spreadsheetId emailDetails
                attachment processedDocs w) as [[docs1|e] w1] eqn:H1; [|discriminate].
    intro Hrest. apply IH in Hrest. destruct Hrest as [new [added [Hd [Hw HF]]]].
    apply processAttachment_ok in H1.
    destruct H1 as [[-> Hsame]|[d [r [-> [Hone Hsum]]]]].
    + exists new, added. rewrite Hw, Hsame. auto.
    + exists (d :: new), (r :: added). rewrite Hd, Hw, Hone, <- !app_assoc.
      split; [reflexivity|]. split; [reflexivity|]. constructor; assumption.
Qed.

(** An email whose pipeline returns has one stored document for each
    summary it returns, in the same order. *)
Lemma processEmail_ok_persists (env : Env) (messageId folderId spreadsheetId : string)
    (w w' : World) (docs : list ProcessedDocumentResult) :
  processEmail env messageId folderId spreadsheetId w = (Ok docs, w') ->
  exists new, documents w' = (documents w ++ new)%list /\ Forall2 summarises new docs.
Proof.
  unfold processEmail. unfold bind at 1. unfold call at 1.
  destruct (getEmailDetails env (history w) messageId) as [emailDetails|e];
    [|discriminate].
  unfold bind at 1.
  destruct (processAttachments env messageId folderId spreadsheetId emailDetails
              (attachments emailDetails) [] _) as [[docs1|e] w1] eqn:H1;
    [|discriminate].
  apply processAttachments_ok in H1. destruct H1 as [new [added [Hd [Hw HF]]]].
  cbn [app] in Hd. subst docs1. cbn [record documents] in Hw.
  destruct (0 <? length added)%nat.
  - unfold bind, gmail_labelEmail, bind, call.
    destruct (labelEmail env (history w1) messageId); [|discriminate].
    cbn. intros [= <- <-]. exists new. cbn. auto.
  - intros [= <- <-]. exists new. auto.
Qed.

(** *** The loop over the unprocessed emails *)

Lemma processMessages_app (env : Env) (folderId spreadsheetId : string)
    (before after : list string) :
  forall result w,
    processMessages env folderId spreadsheetId (before ++ after) result w =
    processMessages env folderId spreadsheetId after
      (fst (processMessages env folderId spreadsheetId before result w))
      (snd (processMessages env folderId spreadsheetId before result w)).
Proof.
  induction before as [|m before IH]; intros result w.
  - reflexivity.
  - cbn [app processMessages].
    destruct (processEmail env m folderId spreadsheetId w) as [[docs|e] w1];
      apply IH.
Qed.

(** The loop only appends to the errors and the details, and every email of
    its list ends up either counted or in the errors. *)
Lemma processMessages_accounts (env : Env) (folderId spreadsheetId : string)
    (messages : list string) :
  forall result w,
    let final := fst (processMessages env folderId spreadsheetId messages result w) in
    (exists later, errors final = (errors result ++ later)%list
                   /\ (processed final + length later
                       = processed result + length messages)%nat
                   /\ Forall (fun entry => exists m msg,
                                In m messages /\ entry = error_entry m msg) later)
    /\ exists more, details final = (details result ++ more)%list.
Proof.
  induction messages as [|m rest IH]; intros result w; cbn [processMessages].
  - cbn [fst]. split.
    + exists []. rewrite app_nil_r. cbn. split; [reflexivity|]. split; [lia|constructor].
    + exists []. rewrite app_nil_r. reflexivity.
  - destruct (processEmail env m folderId spreadsheetId w) as [[docs|e] w1].
    + destruct (IH {| processed := S (processed result); errors := errors result;
                      details := details result ++ docs |} w1)
        as [[later [He [Hn Hf]]] [more Hd]].
      cbn [processed errors details] in *. split.
      * exists later. split; [exact He|]. split; [cbn [length]; lia|].
        eapply Forall_impl; [|exact Hf]. cbn beta.
        intros entry [m' [msg [Hin ->]]]. exists m', msg. split; [right; exact Hin|reflexivity].
      * exists (docs ++ more)%list. rewrite Hd, app_assoc. reflexivity.
    + destruct (IH {| processed := processed result;
                      errors := errors result ++ ["Email " ++ m ++ ": " ++ e];
                      details := details result |} w1)
        as [[later [He [Hn Hf]]] [more Hd]].
      cbn [processed errors details] in *. split.
      * exists (error_entry m e :: later). split.
        { rewrite He, <- app_assoc. reflexivity. }
        split; [cbn [length]; lia|].
        constructor.
        { exists m, e. split; [left; reflexivity|reflexivity]. }
        eapply Forall_impl; [|exact Hf]. cbn beta.
        intros entry [m' [msg [Hin ->]]]. exists m', msg. split; [right; exact Hin|reflexivity].
      * exists more. exact Hd.
Qed.

(** Three emails, the second of which fails while the others succeed: two
    are counted and the error list holds the one entry. *)
Lemma three_emails_middle_failure (env : Env) (folderId spreadsheetId : string)
    (m1 m2 m3 : string) (w w1 w2 w3 : World)
    (docs1 docs3 : list ProcessedDocumentResult) (e : string) :
  processEmail env m1 folderId spreadsheetId w = (Ok docs1, w1) ->
  processEmail env m2 folderId spreadsheetId w1 = (Throw e, w2) ->
  processEmail env m3 folderId spreadsheetId w2 = (Ok docs3, w3) ->
  processMessages env folderId spreadsheetId [m1; m2; m3] empty_result w =
    ({| processed := 2; errors := [error_entry m2 e];
        details := docs1 ++ docs3 |}, w3)
  /\ exists new1 new2 new3,
       documents w3 = (documents w ++ new1 ++ new2 ++ new3)%list
       /\ Forall2 summarises new1 docs1
       /\ Forall2 summarises new3 docs3.
Proof.
  intros H1 H2 H3. split.
  - cbn [processMessages]. rewrite H1, H2, H3. reflexivity.
  - destruct (processEmail_ok_persists _ _ _ _ _ _ _ H1) as [new1 [Hw1 HF1]].
    destruct (processEmail_ok_persists _ _ _ _ _ _ _ H3) as [new3 [Hw3 HF3]].
    pose proof (email_step_processEmail env m2 folderId spreadsheetId w1) as Hstep.
    rewrite H2 in Hstep. cbn [snd] in Hstep.
    destruct Hstep as [_ [[new2 [Hw2 _]] _]].
    exists new1, new2, new3. rewrite Hw3, Hw2, Hw1, <- !app_assoc. auto.
Qed.

(** *** What a whole scan may touch *)









End ScanFacts.

(** ** The calls and the documents of one email *)

Module TraceFacts.
Import Scanner ScanSpec Trace.

Lemma calls_added_refl (P : Call -> Prop) (w : World) : calls_added P w w.
Proof. exists []. split; [reflexivity | constructor]. Qed.

Lemma calls_added_trans (P : Call -> Prop) (a b c : World) :
  calls_added P a b -> calls_added P b c -> calls_added P a c.
Proof.
  intros [c1 [H1 F1]] [c2 [H2 F2]]. exists (c2 ++ c1)%list.
  rewrite H2, H1, app_assoc. split; [reflexivity|]. apply Forall_app; auto.
Qed.

Lemma calls_added_weaken (P Q : Call -> Prop) (w w' : World) :
  (forall c, P c -> Q c) -> calls_added P w w' -> calls_added Q w w'.
Proof.
  intros HPQ [calls [H F]]. exists calls. split; [exact H|].
  eapply Forall_impl; [|exact F]. exact HPQ.
Qed.

Lemma calls_added_same (P : Call -> Prop) (w w' : World) :
  history w' = history w -> calls_added P w w'.
Proof. intro H. exists []. split; [exact H | constructor]. Qed.

Lemma calls_added_call {A : Type} (P : Call -> Prop) (c : Call)
    (answer : History -> Result A) :
  P c -> ScanSpec.respects (calls_added P) (call c answer).
Proof.
  intros Hc w. exists [c]. split; [reflexivity|]. constructor; [exact Hc|constructor].
Qed.

Ltac calls_bind :=
  apply ScanFacts.respects_bind; [apply calls_added_trans | | intro].

(** One turn of the attachment loop makes the calls of that attachment
    only; a skipped attachment has none. *)
Lemma processAttachment_calls (env : Env) (messageId folderId spreadsheetId : string)
    (emailDetails : EmailDetails) (attachment : EmailAttachment)
    (processedDocs : list ProcessedDocumentResult) (ids : list string) :
  (DocumentFile.isDocumentFile (filename attachment) = true ->
   In (attachmentId attachment) ids) ->
  ScanSpec.respects (calls_added (attachment_call messageId ids))
    (processAttachment env messageId folderId spreadsheetId emailDetails attachment
       processedDocs).
Proof.
  intro Hid. unfold processAttachment.
  apply ScanFacts.respects_try_catch; [apply calls_added_trans | |].
  2:{ intros e w. apply calls_added_refl. }
  unfold attachmentBody.
  destruct (DocumentFile.isDocumentFile (filename attachment)); cbn [negb].
  2:{ intro w. apply calls_added_refl. }
  calls_bind.
  { apply calls_added_call. cbn. split; [reflexivity | apply Hid; reflexivity]. }
  calls_bind; [intro w; apply calls_added_refl|].
  calls_bind; [apply calls_added_call; exact I|].
  calls_bind; [apply calls_added_call; exact I|].
  calls_bind.
  { unfold processedDocumentRepository_save. calls_bind.
    - apply calls_added_call. reflexivity.
    - intro w. apply calls_added_same. reflexivity. }
  calls_bind.
  { destruct (global_structuredFilename env); intro w; apply calls_added_refl. }
  intro w. apply calls_added_refl.
Qed.

Lemma processAttachments_calls (env : Env) (messageId folderId spreadsheetId : string)
    (emailDetails : EmailDetails) (ids : list string) (rest : list EmailAttachment) :
  (forall a, In a (kept rest) -> In (attachmentId a) ids) ->
  forall processedDocs,
    ScanSpec.respects (calls_added (attachment_call messageId ids))
      (processAttachments env messageId folderId spreadsheetId emailDetails rest
         processedDocs).
Proof.
  induction rest as [|a rest IH]; intros Hids processedDocs; cbn [processAttachments].
  - intro w. apply calls_added_refl.
  - calls_bind.
    + apply processAttachment_calls. intro Hdoc. apply Hids.
      unfold kept. cbn [filter]. rewrite Hdoc. left. reflexivity.
    + apply IH. intros b Hb. apply Hids. unfold kept in *. cbn [filter].
      destruct (DocumentFile.isDocumentFile (filename a)); [right|]; exact Hb.
Qed.

(** [processEmail] once the details are there, and when they are not. *)
Lemma processEmail_found (env : Env) (messageId folderId spreadsheetId : string)
    (emailDetails : EmailDetails) (w : World) :
  getEmailDetails env (history w) messageId = Ok emailDetails ->
  processEmail env messageId folderId spreadsheetId w
  = bind (processAttachments env messageId folderId spreadsheetId emailDetails
            (attachments emailDetails) [])
      (fun processedDocs =>
         if (0 <? length processedDocs)%nat
         then bind (gmail_labelEmail env messageId) (fun _ => ret processedDocs)
         else ret processedDocs)
      (record (GetEmailDetails messageId) w).
Proof.
  intro H. unfold processEmail. unfold bind at 1. unfold call at 1. rewrite H.
  reflexivity.
Qed.

Lemma processEmail_missing (env : Env) (messageId folderId spreadsheetId : string)
    (e : string) (w : World) :
  getEmailDetails env (history w) messageId = Throw e ->
  processEmail env messageId folderId spreadsheetId w
  = (Throw e, record (GetEmailDetails messageId) w).
Proof.
  intro H. unfold processEmail. unfold bind at 1. unfold call at 1. rewrite H.
  reflexivity.
Qed.

(** After the fetch of the details, the pipeline makes the calls of the
    attachments it does not skip and, at most, the labelling. *)
Lemma processEmail_followup (env : Env) (messageId folderId spreadsheetId : string)
    (emailDetails : EmailDetails) :
  ScanSpec.respects
    (calls_added
       (followup_call messageId
          (List.map attachmentId (kept (attachments emailDetails)))))
    (bind (processAttachments env messageId folderId spreadsheetId emailDetails
             (attachments emailDetails) [])
       (fun processedDocs =>
          if (0 <? length processedDocs)%nat
          then bind (gmail_labelEmail env messageId) (fun _ => ret processedDocs)
          else ret processedDocs)).
Proof.
  set (ids := List.map attachmentId (kept (attachments emailDetails))).
  calls_bind.
  - intro w. eapply calls_added_weaken;
      [|apply (processAttachments_calls env messageId folderId spreadsheetId
                 emailDetails ids)].
    + intros c Hc. right. exact Hc.
    + intros b Hb. apply in_map. exact Hb.
  - match goal with
    | |- context [(0 <? length ?docs)%nat] => destruct (0 <? length docs)%nat
    end; [|intro w; apply calls_added_refl].
    calls_bind; [|intro w; apply calls_added_refl].
    unfold gmail_labelEmail. calls_bind.
    + apply calls_added_call. left. reflexivity.
    + intro w. apply calls_added_same. reflexivity.
Qed.

(** The pipeline of an email makes calls for that email only, and downloads
    only attachments that are not skipped. *)
Lemma processEmail_calls (env : Env) (messageId folderId spreadsheetId : string)
    (emailDetails : EmailDetails) (w : World) :
  getEmailDetails env (history w) messageId = Ok emailDetails ->
  calls_added
    (email_call messageId (List.map attachmentId (kept (attachments emailDetails))))
    w (snd (processEmail env messageId folderId spreadsheetId w)).
Proof.
  intro Hdetails. rewrite (processEmail_found _ _ _ _ _ _ Hdetails).
  apply calls_added_trans with (record (GetEmailDetails messageId) w).
  - exists [GetEmailDetails messageId]. split; [reflexivity|].
    constructor; [left; reflexivity | constructor].
  - eapply calls_added_weaken; [|apply processEmail_followup].
    intros c Hc. right. exact Hc.
Qed.

(** What one turn of the attachment loop stores: nothing for a skipped
    attachment, at most one document, under the attachment's name, for the
    others; and a turn that returns for such an attachment has stored it. *)
Lemma processAttachment_documents (env : Env)
    (messageId folderId spreadsheetId : string)
    (emailDetails : EmailDetails) (attachment : EmailAttachment)
    (processedDocs : list ProcessedDocumentResult) (w : World) :
  let stored w' :=
    exists d, documents w' = (documents w ++ [d])%list
              /\ originalFileName d = filename attachment in
  match processAttachment env messageId folderId spreadsheetId emailDetails
          attachment processedDocs w with
  | (Ok docs', w') =>
      if DocumentFile.isDocumentFile (filename attachment)
      then stored w'
      else docs' = processedDocs /\ w' = w
  | (Throw _, w') =>
      DocumentFile.isDocumentFile (filename attachment) = true
      /\ (documents w' = documents w \/ stored w')
  end.
Proof.
  cbv zeta. unfold processAttachment, try_catch, attachmentBody.
  destruct (DocumentFile.isDocumentFile (filename attachment)); cbn [negb];
    [|split; reflexivity].
  unfold bind at 1. unfold call at 1.
  destruct (downloadAttachment env (history w) messageId (attachmentId attachment))
    as [fileBuffer|e]; [|split; [reflexivity|left; reflexivity]].
  unfold bind at 1. cbn [record history].
  unfold bind at 1. unfold call at 1. cbn [record history].
  destruct (uploadFile env _ fileBuffer _ (mimeType attachment) folderId)
    as [driveFileId|e]; [|split; [reflexivity|left; reflexivity]].
  unfold bind at 1. unfold call at 1. cbn [record history].
  destruct (logDocument env _ spreadsheetId _) as [rowNumber|e];
    [|split; [reflexivity|left; reflexivity]].
  unfold bind at 1. unfold processedDocumentRepository_save, bind at 1, call, fault.
  cbn [record history].
  destruct (document_save_fault env _) as [e|];
    [split; [reflexivity|left; reflexivity]|].
  cbn [scanLogs documents labelled history].
  unfold bind. destruct (global_structuredFilename env) as [v|]; cbn.
  - eexists. split; reflexivity.
  - split; [reflexivity|]. right. eexists. split; reflexivity.
Qed.

(** The documents the attachment loop stores are those of the attachments
    it does not skip, in order, up to the point where it stopped. *)
Lemma processAttachments_documents (env : Env)
    (messageId folderId spreadsheetId : string)
    (emailDetails : EmailDetails) (rest : list EmailAttachment) :
  forall processedDocs w,
    exists new n,
      documents (snd (processAttachments env messageId folderId spreadsheetId
                        emailDetails rest processedDocs w))
      = (documents w ++ new)%list
      /\ List.map originalFileName new
         = firstn n (List.map filename (kept rest)).
Proof.
  induction rest as [|a rest IH]; intros processedDocs w; cbn [processAttachments].
  - exists [], 0%nat. rewrite app_nil_r. split; reflexivity.
  - unfold bind.
    pose proof (processAttachment_documents env messageId folderId spreadsheetId
                  emailDetails a processedDocs w) as Hone.
    cbv zeta in Hone. unfold kept. cbn [filter].
    destruct (processAttachment env messageId folderId spreadsheetId emailDetails
                a processedDocs w) as [[docs1|e] w1].
    + destruct (DocumentFile.isDocumentFile (filename a)).
      * destruct Hone as [d [Hd Hname]].
        destruct (IH docs1 w1) as [new [n [Hnew Hnames]]].
        exists (d :: new), (S n). rewrite Hnew, Hd, <- app_assoc.
        split; [reflexivity|]. cbn. rewrite Hname. f_equal. exact Hnames.
      * destruct Hone as [-> ->]. apply IH.
    + destruct Hone as [-> [Hsame|[d [Hd Hname]]]]; cbn [snd].
      * exists [], 0%nat. rewrite app_nil_r. split; [exact Hsame|reflexivity].
      * exists [d], 1%nat. split; [exact Hd|]. cbn. rewrite Hname. reflexivity.
Qed.

Lemma processEmail_documents (env : Env) (messageId folderId spreadsheetId : string)
    (emailDetails : EmailDetails) (w : World) :
  getEmailDetails env (history w) messageId = Ok emailDetails ->
  exists new n,
    documents (snd (processEmail env messageId folderId spreadsheetId w))
    = (documents w ++ new)%list
    /\ List.map originalFileName new
       = firstn n (List.map filename (kept (attachments emailDetails))).
Proof.
  intro Hdetails.
  unfold processEmail. unfold bind at 1. unfold call at 1. rewrite Hdetails.
  unfold bind at 1.
  destruct (processAttachments_documents env messageId folderId spreadsheetId
              emailDetails (attachments emailDetails) []
              (record (GetEmailDetails messageId) w)) as [new [n [Hnew Hnames]]].
  destruct (processAttachments env messageId folderId spreadsheetId emailDetails
              (attachments emailDetails) [] _) as [[docs|e] w1]; cbn [snd] in *.
  - exists new, n. split; [|exact Hnames].
    destruct (0 <? length docs)%nat; [|exact Hnew].
    unfold bind, gmail_labelEmail, bind, call.
    destruct (labelEmail env (history w1) messageId); exact Hnew.
  - exists new, n. split; [exact Hnew | exact Hnames].
Qed.

Lemma kept_iff (rest : list EmailAttachment) (a : EmailAttachment) :
  In a (kept rest)
  <-> In a rest
      /\ exists ext, In ext DocumentFile.allowed_extensions
                     /\ DocumentFile.has_extension ext (filename a).
Proof.
  unfold kept. rewrite filter_In, DocumentFileFacts.isDocumentFile_iff. reflexivity.
Qed.

End TraceFacts.

(** C8. An attachment whose file name does not end in one of the allowed
    extensions (pdf, doc, docx, png, jpg, jpeg, gif, tiff, in any case) is
    skipped, whatever else the email carries: its turn of the loop returns
    without an error and changes nothing. So in the pipeline of any email,
    whether it returns or throws, the documents stored are those of the
    attachments with an allowed extension, in order and up to the point
    where the pipeline stopped, and only such attachments are downloaded.
    An email whose attachments are all skipped yields no document, stores
    none, and is not labelled as processed: the only call made for it is the
    one that fetches its details. *)
Theorem non_document_attachments_are_skipped
    (env : Scanner.Env) (messageId folderId spreadsheetId : string)
    (emailDetails : Scanner.EmailDetails) (w : Scanner.World) :
  Scanner.getEmailDetails env (Scanner.history w) messageId = Ok emailDetails ->
  let w' := snd (Scanner.processEmail env messageId folderId spreadsheetId w) in
  let skipped a :=
    forall ext, In ext DocumentFile.allowed_extensions ->
                ~ DocumentFile.has_extension ext (Scanner.filename a) in
  let kept := Trace.kept (Scanner.attachments emailDetails) in
  (forall a details docs w0,
     skipped a ->
     Scanner.processAttachment env messageId folderId spreadsheetId details a docs w0
     = (Ok docs, w0))
  /\ (forall a, In a kept
                <-> In a (Scanner.attachments emailDetails)
                    /\ exists ext, In ext DocumentFile.allowed_extensions
                                   /\ DocumentFile.has_extension ext
                                        (Scanner.filename a))
  /\ (exists new n,
        Scanner.documents w' = (Scanner.documents w ++ new)%list
        /\ List.map Scanner.originalFileName new
           = firstn n (List.map Scanner.filename kept))
  /\ Trace.calls_added
       (Trace.email_call messageId (List.map Scanner.attachmentId kept)) w w'
  /\ ((forall a, In a (Scanner.attachments emailDetails) -> skipped a) ->
      exists w'',
        Scanner.processEmail env messageId folderId spreadsheetId w = (Ok [], w'')
        /\ Scanner.documents w'' = Scanner.documents w
        /\ Scanner.labelled w'' = Scanner.labelled w
        /\ Scanner.history w'' = Scanner.GetEmailDetails messageId :: Scanner.history w).
Proof.
  intros Hdetails w' skipped kept.
  split.
  { intros a details docs w0 Ha. apply ScanFacts.processAttachment_skip.
    apply DocumentFileFacts.isDocumentFile_false. exact Ha. }
  split; [intro a; apply TraceFacts.kept_iff|].
  split; [exact (TraceFacts.processEmail_documents env messageId folderId
                   spreadsheetId emailDetails w Hdetails)|].
  split; [exact (TraceFacts.processEmail_calls env messageId folderId
                   spreadsheetId emailDetails w Hdetails)|].
  intro Hall.
  assert (Hskip : forall a, In a (Scanner.attachments emailDetails) ->
            DocumentFile.isDocumentFile (Scanner.filename a) = false).
  { intros a Ha. apply DocumentFileFacts.isDocumentFile_false. exact (Hall a Ha). }
  eexists. split.
  - unfold Scanner.processEmail, bind, Scanner.call. rewrite Hdetails.
    rewrite ScanFacts.processAttachments_all_skipped by exact Hskip.
    reflexivity.
  - repeat split.
Qed.

Lemma non_document_attachments_witness :
  let w' :=
    snd (Scanner.processEmail (Invoices.env ["x1"] Scenario.reliable)
           "x1" "folder-1" "sheet-1" Scenario.empty_world) in
  List.map Scanner.originalFileName (Scanner.documents w') = ["a.pdf"]
  /\ exists new n,
       Scanner.documents w' = ([] ++ new)%list
       /\ List.map Scanner.originalFileName new = firstn n ["a.pdf"].
Proof.
  split; [reflexivity|].
  exact (proj1 (proj2 (proj2
           (non_document_attachments_are_skipped
              (Invoices.env ["x1"] Scenario.reliable) "x1" "folder-1" "sheet-1"
              (Scenario.email "x1" ["logs.zip"; "a.pdf"; "NOTES.TXT"])
              Scenario.empty_world eq_refl)))).
Defined.

(** An email that carries only an archive: nothing is stored, nothing is
    labelled, and the one call is the fetch of its details. *)
Example archive_only_email_is_skipped :
  exists w',
    Scanner.processEmail (Scenario.scan_env ["m1"] Scenario.reliable)
      "m1" "folder-1" "sheet-1" Scenario.empty_world = (Ok [], w')
    /\ Scanner.documents w' = []
    /\ Scanner.labelled w' = []
    /\ Scanner.history w' = [Scanner.GetEmailDetails "m1"].
Proof. eexists. split; [vm_compute; reflexivity|]. repeat split. Qed.

(** C5. When every candidate the search returns already has a stored
    document, and the collaborators of the setup, the read of the dedup set,
    the search and the scan log answer, the scan returns zero processed
    emails, no error and no detail; it writes one completed row with zero
    counters, stores no document, labels nothing, and makes no call for any
    email. *)
Theorem scan_with_no_new_email_processes_nothing
    (env : Scanner.Env) (w : Scanner.World)
    (folderId spreadsheetId : string) (messages : list string) :
  let h1 := Scanner.ScanLogSave :: Scanner.history w in
  let h2 := Scanner.EnsureFolderExists :: h1 in
  let h3 := Scanner.EnsureSpreadsheetExists :: h2 in
  let h4 := Scanner.DocumentFind :: h3 in
  let h5 := Scanner.SearchEmails :: h4 in
  Scanner.scanLog_save_fault env (Scanner.history w) = None ->
  Scanner.ensureFolderExists env h1 "Financial Document" = Ok folderId ->
  Scanner.ensureSpreadsheetExists env h2 "Financial Documents Log" = Ok spreadsheetId ->
  Scanner.document_find_fault env h3 = None ->
  Scanner.searchEmails env h4 = Ok messages ->
  (forall m, In m messages -> In m (ScanSpec.processedIds w)) ->
  Scanner.scanLog_save_fault env h5 = None ->
  Scanner.unprocessed (ScanSpec.processedIds w) messages = []
  /\ Scanner.scanAndProcess env w =
     (Ok {| Scanner.processed := 0; Scanner.errors := []; Scanner.details := [] |},
      {| Scanner.scanLogs :=
           Scanner.scanLogs w ++
           [{| Scanner.log_id := Some (length (Scanner.scanLogs w));
               Scanner.status := Scanner.completed;
               Scanner.emailsProcessed := 0;
               Scanner.documentsProcessed := 0;
               Scanner.errorsCount := 0;
               Scanner.errorDetails := None;
               Scanner.completedAt := Some (Scanner.Date_now env h5) |}];
         Scanner.documents := Scanner.documents w;
         Scanner.labelled := Scanner.labelled w;
         Scanner.history := Scanner.ScanLogSave :: h5 |}).
Proof.
  intros h1 h2 h3 h4 h5 Hsave Hfolder Hsheet Hfind Hsearch Hseen Hsave2.
  assert (Hnone : Scanner.unprocessed (ScanSpec.processedIds w) messages = []).
  { unfold Scanner.unprocessed.
    clear Hsearch. induction messages as [|m rest IH]; [reflexivity|].
    cbn [filter].
    assert (Hin : Js.includes (ScanSpec.processedIds w) m = true).
    { unfold Js.includes. apply existsb_exists. exists m. split.
      - apply Hseen. left. reflexivity.
      - apply String.eqb_refl. }
    rewrite Hin. cbn [negb]. apply IH. intros x Hx. apply Hseen. right. exact Hx. }
  split; [exact Hnone|].
  rewrite (ScanFacts.scanAndProcess_started env w Hsave).
  unfold try_catch. rewrite ScanFacts.scanBody_paths.
  assert (Hsetup : fst (Scanner.setup env (Scanner.world (ScanSpec.started_run w)))
                   = Ok (folderId, spreadsheetId)).
  { unfold Scanner.setup. cbn [Scanner.world ScanSpec.started_run Scanner.history].
    fold h1. fold h2. rewrite Hfolder, Hsheet. reflexivity. }
  rewrite Hsetup.
  change (Scanner.history (ScanSpec.after_setup (Scanner.world (ScanSpec.started_run w))))
    with h3.
  rewrite Hfind.
  change (Scanner.history (ScanSpec.after_find (Scanner.world (ScanSpec.started_run w))))
    with h4.
  rewrite Hsearch.
  change (ScanSpec.processedIds (Scanner.world (ScanSpec.started_run w)))
    with (ScanSpec.processedIds w).
  cbv zeta. rewrite Hnone. cbn [length Nat.eqb].
  unfold ScanSpec.finish.
  rewrite (ScanFacts.save_scanLog_last env _ _ (Scanner.scanLogs w)
             (ScanSpec.started_log w)) by reflexivity.
  change (Scanner.history (ScanSpec.after_search (Scanner.world (ScanSpec.started_run w))))
    with h5.
  rewrite Hsave2. reflexivity.
Qed.

Lemma scan_with_no_new_email_witness :
  Scanner.unprocessed (ScanSpec.processedIds Scenario.seen_world) ["m2"; "m4"] = []
  /\ exists w',
       Scanner.scanAndProcess (Scenario.scan_env ["m2"; "m4"] Scenario.reliable)
         Scenario.seen_world
       = (Ok {| Scanner.processed := 0; Scanner.errors := []; Scanner.details := [] |}, w')
       /\ Scanner.documents w' = Scanner.documents Scenario.seen_world.
Proof.
  destruct (scan_with_no_new_email_processes_nothing
              (Scenario.scan_env ["m2"; "m4"] Scenario.reliable)
              Scenario.seen_world "folder-1" "sheet-1" ["m2"; "m4"]
              eq_refl eq_refl eq_refl eq_refl eq_refl
              ltac:(cbn; tauto) eq_refl) as [Hnone Hrun].
  split; [exact Hnone|]. eexists. split; [exact Hrun | reflexivity].
Defined.

(** C3, as the claim states it, fails for a failing write of the scan log:
    with three unprocessed emails, one of which fails, and the save after the
    loop failing, the run is marked failed and persisted with
    [emailsProcessed = 2] and [errorsCount = 1], and the emails were
    processed. *)
Lemma failed_run_after_the_loop_carries_counters :
  exists row w',
    Scanner.scanAndProcess
      (Scenario.scan_env ["m1"; "m2"; "m3"] Scenario.second_save_fails)
      Scenario.empty_world
    = (Throw "Scan process failed: connection terminated", w')
    /\ Scanner.scanLogs w' = [row]
    /\ Scanner.status row = Scanner.failed
    /\ Scanner.errorDetails row = Some "connection terminated"
    /\ Scanner.errorsCount row = 1%nat
    /\ Scanner.emailsProcessed row = 2%nat
    /\ In (Scanner.GetEmailDetails "m1") (Scanner.history w').
Proof.
  do 2 eexists. split; [vm_compute; reflexivity|].
  split; [reflexivity|]. repeat split. cbn. tauto.
Qed.

(** C3, amended. When the first save of the run has succeeded and anything
    inside the [try] block throws (setup, the read of the dedup set, the
    search, a save of the scan log), and the save in the handler succeeds,
    the scan throws "Scan process failed: " followed by the causing message
    and the run's row is rewritten as failed with that message as its error
    detail. Unless the failure is that of the save after the loop over a
    non-empty list of unprocessed emails, the row has zero counters, no
    document or label was added, and the calls made are those of the setup,
    the read of the dedup set, the search and the save before the early
    return, as far as the run got: no email was touched. In the one
    exception the row carries the counters of the loop's result. *)
Theorem failure_in_try_block_marks_run_failed
    (env : Scanner.Env) (w : Scanner.World) (e : string) (r1 : Scanner.Run) :
  Scanner.scanLog_save_fault env (Scanner.history w) = None ->
  Scanner.scanBody env (ScanSpec.started_run w) = (Throw e, r1) ->
  Scanner.scanLog_save_fault env (Scanner.history (Scanner.world r1)) = None ->
  let w0 := Scanner.world (ScanSpec.started_run w) in
  let row :=
    Scanner.mark_failed (Scanner.Date_now env (Scanner.history (Scanner.world r1)))
      e (Scanner.scanLog r1) in
  Scanner.scanAndProcess env w =
    (Throw ("Scan process failed: " ++ e),
     {| Scanner.scanLogs := Scanner.scanLogs w ++ [row];
        Scanner.documents := Scanner.documents (Scanner.world r1);
        Scanner.labelled := Scanner.labelled (Scanner.world r1);
        Scanner.history := Scanner.ScanLogSave :: Scanner.history (Scanner.world r1) |})
  /\ Scanner.log_id row = Some (length (Scanner.scanLogs w))
  /\ Scanner.status row = Scanner.failed
  /\ Scanner.errorDetails row = Some e
  /\ ((Scanner.emailsProcessed row = 0%nat
       /\ Scanner.documentsProcessed row = 0%nat
       /\ Scanner.errorsCount row = 0%nat
       /\ Scanner.documents (Scanner.world r1) = Scanner.documents w
       /\ Scanner.labelled (Scanner.world r1) = Scanner.labelled w
       /\ exists calls,
            Scanner.history (Scanner.world r1) = (calls ++ Scanner.history w0)%list
            /\ In calls
                 [[Scanner.EnsureSpreadsheetExists; Scanner.EnsureFolderExists];
                  [Scanner.DocumentFind; Scanner.EnsureSpreadsheetExists;
                   Scanner.EnsureFolderExists];
                  [Scanner.SearchEmails; Scanner.DocumentFind;
                   Scanner.EnsureSpreadsheetExists; Scanner.EnsureFolderExists];
                  [Scanner.ScanLogSave; Scanner.SearchEmails; Scanner.DocumentFind;
                   Scanner.EnsureSpreadsheetExists; Scanner.EnsureFolderExists]])
      \/ exists folderId spreadsheetId messages result w5,
           let todo := Scanner.unprocessed (ScanSpec.processedIds w) messages in
           fst (Scanner.setup env w0) = Ok (folderId, spreadsheetId)
           /\ Scanner.searchEmails env (Scanner.history (ScanSpec.after_find w0))
              = Ok messages
           /\ todo <> []
           /\ Scanner.processMessages env folderId spreadsheetId todo
                Scanner.empty_result (ScanSpec.after_search w0) = (result, w5)
           /\ Scanner.scanLog_save_fault env (Scanner.history w5) = Some e
           /\ Scanner.world r1 = Scanner.record Scanner.ScanLogSave w5
           /\ Scanner.emailsProcessed row = Scanner.processed result
           /\ Scanner.documentsProcessed row = length (Scanner.details result)
           /\ Scanner.errorsCount row = length (Scanner.errors result)).
Proof.
  intros Hsave Hbody Hsave2 w0 row.
  pose proof (ScanFacts.run_keeps_scanBody env (ScanSpec.started_run w)) as Hkeep.
  rewrite Hbody in Hkeep. cbn [snd] in Hkeep.
  destruct (Hkeep (Scanner.scanLogs w) (ScanSpec.started_log w) eq_refl eq_refl)
    as [Hid [row' Hrows]].
  split.
  { rewrite (ScanFacts.scanAndProcess_started env w Hsave).
    unfold try_catch. rewrite Hbody.
    rewrite (ScanFacts.scanHandler_last env e r1 (Scanner.scanLogs w) row' Hid Hrows Hsave2).
    reflexivity. }
  split; [exact Hid|]. split; [reflexivity|]. split; [reflexivity|].
  rewrite ScanFacts.scanBody_paths in Hbody. fold w0 in Hbody.
  destruct (fst (Scanner.setup env w0)) as [[folderId spreadsheetId]|e'] eqn:Hsetup.
  2:{ injection Hbody as -> <-. left. do 5 (split; [reflexivity|]).
      exists [Scanner.EnsureSpreadsheetExists; Scanner.EnsureFolderExists].
    split; [reflexivity|]. left. reflexivity. }
  destruct (Scanner.document_find_fault env _) as [e'|].
  { injection Hbody as -> <-. left. do 5 (split; [reflexivity|]).
    exists [Scanner.DocumentFind; Scanner.EnsureSpreadsheetExists; Scanner.EnsureFolderExists].
    split; [reflexivity|]. right. left. reflexivity. }
  destruct (Scanner.searchEmails env (Scanner.history (ScanSpec.after_find w0)))
    as [messages|e'] eqn:Hsearch.
  2:{ injection Hbody as -> <-. left. do 5 (split; [reflexivity|]).
      exists [Scanner.SearchEmails; Scanner.DocumentFind; Scanner.EnsureSpreadsheetExists;
            Scanner.EnsureFolderExists].
    split; [reflexivity|]. right. right. left. reflexivity. }
  cbv zeta in Hbody.
  change (ScanSpec.processedIds w0) with (ScanSpec.processedIds w) in Hbody.
  destruct (length (Scanner.unprocessed (ScanSpec.processedIds w) messages) =? 0)%nat
    eqn:Hlen.
  - unfold ScanSpec.finish in Hbody.
    match type of Hbody with
    | context [Scanner.save_scanLog env {| Scanner.scanLog := ?l; Scanner.world := ?w4 |}] =>
        rewrite (ScanFacts.save_scanLog_last env l w4
                   (Scanner.scanLogs w) (ScanSpec.started_log w) eq_refl eq_refl)
          in Hbody
    end.
    destruct (Scanner.scanLog_save_fault env
                (Scanner.history (ScanSpec.after_search w0))) as [e'|];
      [|discriminate].
    injection Hbody as -> <-. left. do 5 (split; [reflexivity|]).
    exists [Scanner.ScanLogSave; Scanner.SearchEmails; Scanner.DocumentFind;
            Scanner.EnsureSpreadsheetExists; Scanner.EnsureFolderExists].
    split; [reflexivity|]. right. right. right. left. reflexivity.
  - right.
    pose proof (ScanFacts.email_step_processMessages env folderId spreadsheetId
                  (Scanner.unprocessed (ScanSpec.processedIds w) messages)
                  Scanner.empty_result (ScanSpec.after_search w0)) as [Hlogs _].
    destruct (Scanner.processMessages env folderId spreadsheetId
                (Scanner.unprocessed (ScanSpec.processedIds w) messages)
                Scanner.empty_result (ScanSpec.after_search w0))
      as [result w5] eqn:Hloop.
    cbn [snd] in Hlogs. unfold ScanSpec.finish in Hbody.
    match type of Hbody with
    | context [Scanner.save_scanLog env {| Scanner.scanLog := ?l; Scanner.world := ?w4 |}] =>
        rewrite (ScanFacts.save_scanLog_last env l w4
                   (Scanner.scanLogs w) (ScanSpec.started_log w) eq_refl Hlogs)
          in Hbody
    end.
    destruct (Scanner.scanLog_save_fault env (Scanner.history w5)) as [e'|] eqn:Hf;
      [|discriminate].
    injection Hbody as -> <-.
    exists folderId, spreadsheetId, messages, result, w5. cbv zeta.
    split; [reflexivity|]. split; [reflexivity|].
    split.
    { intro Hnil. rewrite Hnil in Hlen. discriminate Hlen. }
    split; [exact Hloop|]. split; [exact Hf|]. repeat split.
Qed.

(** The save before the early return fails: the search found nothing new,
    the row of the run is rewritten as failed with zero counters, and the
    calls are those of the setup, the dedup read, the search and the save. *)
Lemma failure_in_try_block_witness :
  let env := Invoices.env [] Scenario.second_save_fails in
  exists w',
    Scanner.scanAndProcess env Scenario.empty_world =
      (Throw "Scan process failed: connection terminated", w')
    /\ Scanner.scanLogs w' =
       [{| Scanner.log_id := Some 0%nat; Scanner.status := Scanner.failed;
           Scanner.emailsProcessed := 0; Scanner.documentsProcessed := 0;
           Scanner.errorsCount := 0;
           Scanner.errorDetails := Some "connection terminated";
           Scanner.completedAt := Some Scenario.noon |}]
    /\ Scanner.history w' =
       [Scanner.ScanLogSave; Scanner.ScanLogSave; Scanner.SearchEmails;
        Scanner.DocumentFind; Scanner.EnsureSpreadsheetExists;
        Scanner.EnsureFolderExists; Scanner.ScanLogSave].
Proof.
  cbv zeta.
  destruct (failure_in_try_block_marks_run_failed
              (Invoices.env [] Scenario.second_save_fails)
              Scenario.empty_world "connection terminated"
              (snd (Scanner.scanBody (Invoices.env [] Scenario.second_save_fails)
                      (ScanSpec.started_run Scenario.empty_world)))
              eq_refl eq_refl eq_refl) as [Hrun _].
  eexists. split; [exact Hrun|]. split; reflexivity.
Defined.

(** Setup fails, Drive refusing the folder: the same, after the two calls of
    the setup. *)
Example setup_failure_marks_run_failed :
  exists w',
    Scanner.scanAndProcess Scenario.setup_fails_env Scenario.empty_world =
      (Throw "Scan process failed: Failed to manage Drive folder: quota", w')
    /\ Scanner.scanLogs w' =
       [{| Scanner.log_id := Some 0%nat; Scanner.status := Scanner.failed;
           Scanner.emailsProcessed := 0; Scanner.documentsProcessed := 0;
           Scanner.errorsCount := 0;
           Scanner.errorDetails := Some "Failed to manage Drive folder: quota";
           Scanner.completedAt := Some Scenario.noon |}]
    /\ Scanner.history w' =
       [Scanner.ScanLogSave; Scanner.EnsureSpreadsheetExists;
        Scanner.EnsureFolderExists; Scanner.ScanLogSave].
Proof. eexists. split; [vm_compute; reflexivity|]. split; reflexivity. Qed.

(** The entry written for a failing email is "Email <id>: <message>": the
    identifier comes after the word "Email" (line 84). Here the fetch of
    [m2]'s attachment fails, and [m1] and [m3], which carry an archive only,
    are counted. *)
Example scan_error_entry_reads_Email_id_message :
  let env := Scenario.scan_env ["m1"; "m2"; "m3"] Scenario.reliable in
  let message :=
    "Failed to process attachment a.pdf: Failed to download attachment: socket hang up" in
  exists result w',
    Scanner.scanAndProcess env Scenario.empty_world = (Ok result, w')
    /\ Scanner.processed result = 2%nat
    /\ Scanner.errors result = ["Email m2: " ++ message]
    /\ ~ In ("m2: " ++ message) (Scanner.errors result)
    /\ forall entry, In entry (Scanner.errors result) ->
                     ~ ScanSpec.starts_with "m2" entry.
Proof.
  cbv zeta. do 2 eexists. split; [vm_compute; reflexivity|].
  cbn [Scanner.processed Scanner.errors]. split; [reflexivity|].
  split; [reflexivity|]. split.
  - intros [H|[]]. discriminate H.
  - intros entry [<-|[]] [rest H]. discriminate H.
Qed.

(** The isolation of the loop. For every email of the unprocessed list whose
    pipeline throws, at the state the run has reached when its turn comes,
    the loop appends exactly "Email <id>: <message>" to the errors, leaves
    the success counter and the details as they are, and goes on with the
    remaining emails: the entry is still among the final errors, and each
    remaining email ends up either counted as processed or in the errors. *)
Lemma scan_loop_isolates_failing_email
    (env : Scanner.Env) (folderId spreadsheetId : string)
    (before : list string) (message : string) (after : list string)
    (result : Scanner.ProcessingResult) (w : Scanner.World)
    (error_message : string) (w2 : Scanner.World) :
  let r1 := fst (Scanner.processMessages env folderId spreadsheetId before result w) in
  let w1 := snd (Scanner.processMessages env folderId spreadsheetId before result w) in
  Scanner.processEmail env message folderId spreadsheetId w1 = (Throw error_message, w2) ->
  let recorded :=
    {| Scanner.processed := Scanner.processed r1;
       Scanner.errors :=
         Scanner.errors r1 ++ [ScanSpec.error_entry message error_message];
       Scanner.details := Scanner.details r1 |} in
  let final :=
    fst (Scanner.processMessages env folderId spreadsheetId
           (before ++ message :: after) result w) in
  Scanner.processMessages env folderId spreadsheetId (before ++ message :: after)
    result w
  = Scanner.processMessages env folderId spreadsheetId after recorded w2
  /\ exists later,
       Scanner.errors final =
         (Scanner.errors r1 ++ [ScanSpec.error_entry message error_message] ++ later)%list
       /\ (Scanner.processed final + length later
           = Scanner.processed r1 + length after)%nat.
Proof.
  intros r1 w1 Hfail recorded final.
  assert (Heq : Scanner.processMessages env folderId spreadsheetId
                  (before ++ message :: after) result w
                = Scanner.processMessages env folderId spreadsheetId after recorded w2).
  { rewrite ScanFacts.processMessages_app. fold r1 w1.
    cbn [Scanner.processMessages]. rewrite Hfail. reflexivity. }
  split; [exact Heq|].
  destruct (ScanFacts.processMessages_accounts env folderId spreadsheetId after
              recorded w2) as [[later [He [Hn _]]] _].
  exists later. subst final. rewrite Heq. split.
  - rewrite He. cbn [Scanner.errors recorded]. rewrite <- app_assoc. reflexivity.
  - exact Hn.
Qed.

Lemma scan_loop_isolates_failing_email_witness :
  let final :=
    fst (Scanner.processMessages
           (Scenario.scan_env ["m1"; "m2"; "m3"] Scenario.reliable)
           "folder-1" "sheet-1" ["m1"; "m2"; "m3"] Scanner.empty_result
           Scenario.empty_world) in
  Scanner.processed final = 2%nat
  /\ Scanner.errors final =
     [ScanSpec.error_entry "m2"
        "Failed to process attachment a.pdf: Failed to download attachment: socket hang up"].
Proof.
  destruct (scan_loop_isolates_failing_email
              (Scenario.scan_env ["m1"; "m2"; "m3"] Scenario.reliable)
              "folder-1" "sheet-1" ["m1"] "m2" ["m3"] Scanner.empty_result
              Scenario.empty_world
              "Failed to process attachment a.pdf: Failed to download attachment: socket hang up"
              (snd (Scanner.processEmail
                      (Scenario.scan_env ["m1"; "m2"; "m3"] Scenario.reliable)
                      "m2" "folder-1" "sheet-1"
                      (snd (Scanner.processMessages
                              (Scenario.scan_env ["m1"; "m2"; "m3"] Scenario.reliable)
                              "folder-1" "sheet-1" ["m1"] Scanner.empty_result
                              Scenario.empty_world))))
              eq_refl) as [Heq _].
  cbv zeta. cbn [app] in Heq. rewrite Heq. split; reflexivity.
Defined.

(** C2. The instance of the claim, on the code as it stands: a scan finds
    three unprocessed emails with one PDF each, and the download fails for
    the second only. The pipelines of the first and the third store their
    document and then throw, because line 189 reads [structuredFilename],
    a name that is declared nowhere. So the scan returns [processed = 0] and
    three error entries, not 2 and one; the documents of the first and the
    third email are in the store, no email is labelled, and the row of the
    run records zero processed emails and three errors. *)
Theorem three_invoices_middle_fetch_failure_counts_none :
  let env := Invoices.env ["i1"; "i2"; "i3"] Scenario.reliable in
  exists result w' row,
    Scanner.scanAndProcess env Scenario.empty_world = (Ok result, w')
    /\ Scanner.processed result = 0%nat
    /\ Scanner.errors result =
       ["Email i1: Failed to process attachment january.pdf: structuredFilename is not defined";
        "Email i2: Failed to process attachment february.pdf: Failed to download attachment: socket hang up";
        "Email i3: Failed to process attachment march.pdf: structuredFilename is not defined"]
    /\ Scanner.details result = []
    /\ List.map Scanner.emailId (Scanner.documents w') = ["i1"; "i3"]
    /\ List.map Scanner.originalFileName (Scanner.documents w')
       = ["january.pdf"; "march.pdf"]
    /\ Scanner.labelled w' = []
    /\ Scanner.scanLogs w' = [row]
    /\ Scanner.status row = Scanner.completed
    /\ Scanner.emailsProcessed row = 0%nat
    /\ Scanner.errorsCount row = 3%nat.
Proof.
  cbv zeta. do 3 eexists. split; [vm_compute; reflexivity|].
  cbn [Scanner.processed Scanner.errors Scanner.details Scanner.documents
       Scanner.labelled Scanner.scanLogs].
  split; [reflexivity|]. split; [reflexivity|]. split; [reflexivity|].
  split; [reflexivity|]. split; [reflexivity|]. split; [reflexivity|].
  split; [reflexivity|]. repeat split.
Qed.



(** The hypothesis of C5 is needed: an email whose attachments were all
    skipped gets no document and no label, so the next scan finds it
    unprocessed and counts it again. *)
Example skipped_email_is_processed_again :
  let env := Scenario.scan_env ["m1"] Scenario.reliable in
  let w1 := snd (Scanner.scanAndProcess env Scenario.empty_world) in
  exists result w2,
    Scanner.scanAndProcess env w1 = (Ok result, w2)
    /\ Scanner.processed result = 1%nat.
Proof. cbv zeta. do 2 eexists. split; [vm_compute; reflexivity | reflexivity]. Qed.

(** ** More about the scan cycle *)

Module ScanMoreFacts.
Import Scanner ScanSpec ScanInv.

Lemma save_scanLog_frame (env : Env) (l : ScanLog) (w : World) :
  documents (world (snd (save_scanLog env {| scanLog := l; world := w |}))) = documents w
  /\ labelled (world (snd (save_scanLog env {| scanLog := l; world := w |}))) = labelled w.
Proof.
  unfold save_scanLog, scanLogRepository_save, bind, call, fault.
  cbn [scanLog world].
  destruct (scanLog_save_fault env (history w)); [split; reflexivity|].
  destruct (log_id l); split; reflexivity.
Qed.

Lemma run_row_save (env : Env) (pre : list ScanLog) (l l0 : ScanLog) (w : World) :
  run_row pre {| scanLog := l0; world := w |} ->
  log_id l = Some (length pre) ->
  run_row pre (snd (save_scanLog env {| scanLog := l; world := w |})).
Proof.
  intros [_ [row [Hrows Hrow]]] Hid. cbn [world] in Hrows.
  rewrite (ScanFacts.save_scanLog_last env l w pre row Hid Hrows).
  destruct (scanLog_save_fault env (history w)); cbn [snd].
  - split; [exact Hid|]. exists row. split; assumption.
  - split; [exact Hid|]. exists l. split; [reflexivity | exact Hid].
Qed.

Lemma run_row_finish (env : Env) (pre : list ScanLog) (l l0 : ScanLog) (w : World)
    (result : ProcessingResult) :
  run_row pre {| scanLog := l0; world := w |} ->
  log_id l = Some (length pre) ->
  run_row pre (snd (finish env l w result)).
Proof.
  intros H Hid. pose proof (run_row_save env pre l l0 w H Hid) as Hs.
  unfold finish. destruct (save_scanLog env _) as [[u|e] r']; exact Hs.
Qed.

Lemma run_row_same_logs (pre : list ScanLog) (r : Run) (w : World) :
  run_row pre r -> scanLogs w = scanLogs (world r) ->
  run_row pre {| scanLog := scanLog r; world := w |}.
Proof.
  intros [Hid [row [Hrows Hrow]]] Hw. split; [exact Hid|].
  exists row. cbn [world]. split; [congruence | exact Hrow].
Qed.

Lemma run_row_scanBody (env : Env) (pre : list ScanLog) (r : Run) :
  run_row pre r -> run_row pre (snd (scanBody env r)).
Proof.
  intro H. rewrite ScanFacts.scanBody_paths.
  destruct (fst (setup env (world r))) as [[folderId spreadsheetId]|e];
    [|apply run_row_same_logs; [exact H | reflexivity]].
  destruct (document_find_fault env _);
    [apply run_row_same_logs; [exact H | reflexivity]|].
  destruct (searchEmails env _) as [messages|e];
    [|apply run_row_same_logs; [exact H | reflexivity]].
  cbv zeta. destruct (length _ =? 0)%nat.
  - apply run_row_finish with (l0 := scanLog r).
    + apply run_row_same_logs; [exact H | reflexivity].
    + exact (proj1 H).
  - pose proof (ScanFacts.email_step_processMessages env folderId spreadsheetId
                  (unprocessed (processedIds (world r)) messages) empty_result
                  (after_search (world r))) as [Hlogs _].
    destruct (processMessages env folderId spreadsheetId _ empty_result _)
      as [res w5]. cbn [snd] in Hlogs.
    apply run_row_finish with (l0 := scanLog r).
    + apply run_row_same_logs; [exact H | exact Hlogs].
    + exact (proj1 H).
Qed.

Lemma run_row_handler (env : Env) (pre : list ScanLog) (e : string) (r : Run) :
  run_row pre r -> run_row pre (snd (scanHandler env e r)).
Proof.
  intro H. unfold scanHandler, bind, update_scanLog, throw. cbn [scanLog world].
  pose proof (run_row_save env pre (mark_failed (now env r) e (scanLog r))
                (scanLog r) (world r)) as Hs.
  destruct r as [l w]. cbn [scanLog world] in *.
  specialize (Hs H (proj1 H)).
  destruct (save_scanLog env _) as [[u|e'] r']; exact Hs.
Qed.

Lemma run_row_started (w : World) : run_row (scanLogs w) (started_run w).
Proof. split; [reflexivity|]. exists (started_log w). split; reflexivity. Qed.

End ScanMoreFacts.

(** X1. A scan never rewrites or removes the rows of earlier runs. When its
    first save fails it throws that error and leaves the table as it was; in
    every other case, whatever fails later, the table is the old one followed
    by exactly one row, the row of this run. *)
Theorem scan_appends_exactly_one_log_row (env : Scanner.Env) (w : Scanner.World) :
  match Scanner.scanLog_save_fault env (Scanner.history w) with
  | Some e =>
      fst (Scanner.scanAndProcess env w) = Throw e
      /\ Scanner.scanLogs (snd (Scanner.scanAndProcess env w)) = Scanner.scanLogs w
  | None =>
      exists row,
        Scanner.scanLogs (snd (Scanner.scanAndProcess env w))
          = (Scanner.scanLogs w ++ [row])%list
        /\ Scanner.log_id row = Some (length (Scanner.scanLogs w))
  end.
Proof.
  destruct (Scanner.scanLog_save_fault env (Scanner.history w)) as [e|] eqn:Hsave.
  - rewrite (ScanFacts.scanAndProcess_first_save_fails env w e Hsave).
    split; reflexivity.
  - rewrite (ScanFacts.scanAndProcess_started env w Hsave).
    pose proof (ScanMoreFacts.run_row_scanBody env _ _
                  (ScanMoreFacts.run_row_started w)) as Hbody.
    unfold try_catch.
    destruct (Scanner.scanBody env (ScanSpec.started_run w)) as [[res|e] r1];
      cbn [snd] in Hbody.
    + destruct Hbody as [_ [row [Hrows Hid]]]. exists row. split; assumption.
    + pose proof (ScanMoreFacts.run_row_handler env _ e r1 Hbody) as Hh.
      destruct (Scanner.scanHandler env e r1) as [res r2]. cbn [snd] in Hh |- *.
      destruct Hh as [_ [row [Hrows Hid]]]. exists row. split; assumption.
Qed.

Module ScanOkFacts.
Import Scanner ScanSpec ScanInv.

Lemma scanHandler_throws (env : Env) (e : string) (r : Run) :
  exists e', fst (scanHandler env e r) = Throw e'.
Proof.
  unfold scanHandler, bind, update_scanLog, throw.
  destruct (save_scanLog env _) as [[u|e'] r']; eexists; reflexivity.
Qed.

(** The row a run writes when it returns [result]. *)
Lemma finish_ok (env : Env) (l : ScanLog) (w : World) (result res : ProcessingResult)
    (r' : Run) (pre : list ScanLog) (row : ScanLog) :
  log_id l = Some (length pre) ->
  scanLogs w = (pre ++ [row])%list ->
  finish env l w result = (Ok res, r') ->
  res = result /\ scanLogs (world r') = (pre ++ [l])%list.
Proof.
  intros Hid Hrows. unfold finish.
  rewrite (ScanFacts.save_scanLog_last env l w pre row Hid Hrows).
  destruct (scanLog_save_fault env (history w)); [discriminate|].
  intros [= <- <-]. split; reflexivity.
Qed.

(** What a scan that returns has done. *)
Lemma scan_ok (env : Env) (w w' : World) (result : ProcessingResult) :
  scanAndProcess env w = (Ok result, w') ->
  exists messages t,
    searchEmails env (search_history w) = Ok messages
    /\ (processed result + length (errors result)
        = length (unprocessed (processedIds w) messages))%nat
    /\ scanLogs w' =
       (scanLogs w ++
        [{| log_id := Some (length (scanLogs w)); status := completed;
            emailsProcessed := processed result;
            documentsProcessed := length (details result);
            errorsCount := length (errors result);
            errorDetails :=
              if (0 <? length (errors result))%nat
              then Some (JSON_stringify env (errors result)) else None;
            completedAt := Some t |}])%list.
Proof.
  destruct (scanLog_save_fault env (history w)) as [e|] eqn:Hsave.
  { rewrite (ScanFacts.scanAndProcess_first_save_fails env w e Hsave). discriminate. }
  rewrite (ScanFacts.scanAndProcess_started env w Hsave). unfold try_catch.
  destruct (scanBody env (started_run w)) as [[res|e] r1] eqn:Hbody.
  2:{ destruct (scanHandler_throws env e r1) as [e' He'].
      destruct (scanHandler env e r1) as [res r2]. cbn [fst] in He'. subst res.
      discriminate. }
  intros [= -> <-].
  rewrite ScanFacts.scanBody_paths in Hbody.
  destruct (fst (setup env (world (started_run w)))) as [[folderId spreadsheetId]|e];
    [|discriminate].
  destruct (document_find_fault env _); [discriminate|].
  change (history (after_find (world (started_run w)))) with (search_history w) in Hbody.
  destruct (searchEmails env (search_history w)) as [messages|e]; [|discriminate].
  change (processedIds (world (started_run w))) with (processedIds w) in Hbody.
  cbv zeta in Hbody. exists messages.
  destruct (length (unprocessed (processedIds w) messages) =? 0)%nat eqn:Hlen.
  - apply Nat.eqb_eq in Hlen.
    apply (finish_ok env _ _ _ _ _ (scanLogs w) (started_log w)) in Hbody;
      [|reflexivity|reflexivity].
    destruct Hbody as [-> Hrows]. eexists. split; [reflexivity|].
    split; [rewrite Hlen; reflexivity|]. rewrite Hrows. reflexivity.
  - pose proof (ScanFacts.email_step_processMessages env folderId spreadsheetId
                  (unprocessed (processedIds w) messages) empty_result
                  (after_search (world (started_run w)))) as [Hlogs _].
    destruct (ScanFacts.processMessages_accounts env folderId spreadsheetId
                (unprocessed (processedIds w) messages) empty_result
                (after_search (world (started_run w))))
      as [[later [He [Hn _]]] _].
    destruct (processMessages env folderId spreadsheetId _ empty_result _)
      as [res w5]. cbn [fst snd] in *.
    apply (finish_ok env _ _ _ _ _ (scanLogs w) (started_log w)) in Hbody;
      [|reflexivity|exact Hlogs].
    destruct Hbody as [-> Hrows]. eexists. split; [reflexivity|].
    split.
    + cbn [empty_result errors processed app] in He, Hn. rewrite He. lia.
    + rewrite Hrows. reflexivity.
Qed.

End ScanOkFacts.

(** X2. When a scan returns a result, the row it has written for the run is
    completed and mirrors that result: the three counters are the number of
    processed emails, of details and of errors, and the error detail is empty
    exactly when there is no error. *)
Theorem completed_run_row_mirrors_result
    (env : Scanner.Env) (w w' : Scanner.World) (result : Scanner.ProcessingResult) :
  Scanner.scanAndProcess env w = (Ok result, w') ->
  exists row,
    Scanner.scanLogs w' = (Scanner.scanLogs w ++ [row])%list
    /\ Scanner.status row = Scanner.completed
    /\ Scanner.emailsProcessed row = Scanner.processed result
    /\ Scanner.documentsProcessed row = length (Scanner.details result)
    /\ Scanner.errorsCount row = length (Scanner.errors result)
    /\ (Scanner.errorDetails row = None <-> Scanner.errors result = [])
    /\ Scanner.completedAt row <> None.
Proof.
  intro H. destruct (ScanOkFacts.scan_ok env w w' result H)
    as [messages [t [_ [_ Hrows]]]].
  eexists. split; [exact Hrows|]. cbn.
  repeat split; try discriminate.
  - destruct (Scanner.errors result); [reflexivity | discriminate].
  - intros ->. reflexivity.
Qed.

Lemma completed_run_row_witness :
  exists row,
    Scanner.scanLogs
      (snd (Scanner.scanAndProcess
              (Scenario.scan_env ["m1"; "m2"; "m3"] Scenario.reliable)
              Scenario.empty_world)) = [row]
    /\ Scanner.status row = Scanner.completed
    /\ Scanner.emailsProcessed row = 2%nat
    /\ Scanner.errorsCount row = 1%nat.
Proof.
  destruct (completed_run_row_mirrors_result
              (Scenario.scan_env ["m1"; "m2"; "m3"] Scenario.reliable)
              Scenario.empty_world
              (snd (Scanner.scanAndProcess
                      (Scenario.scan_env ["m1"; "m2"; "m3"] Scenario.reliable)
                      Scenario.empty_world))
              {| Scanner.processed := 2;
                 Scanner.errors :=
                   ["Email m2: Failed to process attachment a.pdf: Failed to download attachment: socket hang up"];
                 Scanner.details := [] |}
              eq_refl) as [row [Hrows [Hs [He [_ [Hc _]]]]]].
  exists row. split; [exact Hrows|]. split; [exact Hs|]. split; assumption.
Defined.

Module RequestFacts.
Import Scanner ScanSpec ScanInv Trace.

Lemma details_requests_app (calls h : History) :
  details_requests (calls ++ h)%list
  = (details_requests calls ++ details_requests h)%list.
Proof.
  induction calls as [|c calls IH]; [reflexivity|].
  destruct c; cbn; rewrite ?IH; reflexivity.
Qed.

Lemma details_requests_none (calls : History) :
  Forall (fun c => is_details_request c = false) calls ->
  details_requests calls = [].
Proof.
  induction 1 as [|c calls Hc _ IH]; [reflexivity|].
  destruct c; cbn in *; try exact IH. discriminate Hc.
Qed.

Lemma followup_is_no_request (messageId : string) (ids : list string) (c : Call) :
  followup_call messageId ids c -> is_details_request c = false.
Proof. intros [->|H]; [reflexivity|]. destruct c; cbn in H; tauto. Qed.

(** The pipeline of an email asks for the details of that email once, as
    its first call, and for no other details. *)
Lemma processEmail_requests (env : Env) (messageId folderId spreadsheetId : string)
    (w : World) :
  details_requests (history (snd (processEmail env messageId folderId spreadsheetId w)))
  = messageId :: details_requests (history w).
Proof.
  destruct (getEmailDetails env (history w) messageId) as [emailDetails|e] eqn:H.
  - rewrite (TraceFacts.processEmail_found _ _ _ _ _ _ H).
    destruct (TraceFacts.processEmail_followup env messageId folderId spreadsheetId
                emailDetails (record (GetEmailDetails messageId) w))
      as [calls [Hh Hc]].
    rewrite Hh, details_requests_app, details_requests_none; [reflexivity|].
    eapply Forall_impl; [|exact Hc]. intros c. apply followup_is_no_request.
  - rewrite (TraceFacts.processEmail_missing _ _ _ _ _ _ H). reflexivity.
Qed.

Lemma processMessages_requests (env : Env) (folderId spreadsheetId : string)
    (messages : list string) :
  forall result w,
    details_requests
      (history (snd (processMessages env folderId spreadsheetId messages result w)))
    = (rev messages ++ details_requests (history w))%list.
Proof.
  induction messages as [|m rest IH]; intros result w; cbn [processMessages].
  - reflexivity.
  - pose proof (processEmail_requests env m folderId spreadsheetId w) as Hm.
    destruct (processEmail env m folderId spreadsheetId w) as [[docs|e] w1];
      cbn [snd] in Hm; rewrite IH, Hm; cbn [rev]; rewrite <- app_assoc; reflexivity.
Qed.

(** The emails a scan that returns has asked the details of. *)
Lemma scan_ok_requests (env : Env) (w w' : World) (result : ProcessingResult)
    (messages : list string) :
  scanAndProcess env w = (Ok result, w') ->
  searchEmails env (search_history w) = Ok messages ->
  details_requests (history w')
  = (rev (unprocessed (processedIds w) messages) ++ details_requests (history w))%list.
Proof.
  destruct (scanLog_save_fault env (history w)) as [e|] eqn:Hsave.
  { rewrite (ScanFacts.scanAndProcess_first_save_fails env w e Hsave). discriminate. }
  rewrite (ScanFacts.scanAndProcess_started env w Hsave). unfold try_catch.
  destruct (scanBody env (started_run w)) as [[res|e] r1] eqn:Hbody.
  2:{ destruct (ScanOkFacts.scanHandler_throws env e r1) as [e' He'].
      destruct (scanHandler env e r1) as [res r2]. cbn [fst] in He'. subst res.
      discriminate. }
  intros [= -> <-] Hsearch.
  rewrite ScanFacts.scanBody_paths in Hbody.
  destruct (fst (setup env (world (started_run w)))) as [[folderId spreadsheetId]|e];
    [|discriminate].
  destruct (document_find_fault env _); [discriminate|].
  change (history (after_find (world (started_run w)))) with (search_history w) in Hbody.
  rewrite Hsearch in Hbody.
  change (processedIds (world (started_run w))) with (processedIds w) in Hbody.
  cbv zeta in Hbody.
  destruct (length (unprocessed (processedIds w) messages) =? 0)%nat eqn:Hlen.
  - apply Nat.eqb_eq, length_zero_iff_nil in Hlen. rewrite Hlen.
    unfold finish in Hbody.
    match type of Hbody with
    | context [save_scanLog env {| scanLog := ?l; world := ?w4 |}] =>
        rewrite (ScanFacts.save_scanLog_last env l w4 (scanLogs w) (started_log w)
                   eq_refl eq_refl) in Hbody
    end.
    match type of Hbody with
    | context [scanLog_save_fault env ?h] => destruct (scanLog_save_fault env h)
    end; [discriminate|].
    injection Hbody as _ <-. reflexivity.
  - pose proof (ScanFacts.email_step_processMessages env folderId spreadsheetId
                  (unprocessed (processedIds w) messages) empty_result
                  (after_search (world (started_run w)))) as [Hlogs _].
    pose proof (processMessages_requests env folderId spreadsheetId
                  (unprocessed (processedIds w) messages) empty_result
                  (after_search (world (started_run w)))) as Hreq.
    destruct (processMessages env folderId spreadsheetId _ empty_result _)
      as [res w5]. cbn [fst snd] in *. unfold finish in Hbody.
    match type of Hbody with
    | context [save_scanLog env {| scanLog := ?l; world := ?w4 |}] =>
        rewrite (ScanFacts.save_scanLog_last env l w4 (scanLogs w) (started_log w)
                   eq_refl Hlogs) in Hbody
    end.
    match type of Hbody with
    | context [scanLog_save_fault env ?h] => destruct (scanLog_save_fault env h)
    end; [discriminate|].
    injection Hbody as _ <-. exact Hreq.
Qed.

End RequestFacts.

(** X3. A scan that returns has fetched the details of exactly the search
    results that had no stored document: the emails it asked the details of
    are those candidates, in the order of the search and each as often as
    the search listed it, and every one of them ended up either counted as
    processed or in the error list. *)
Theorem scan_accounts_for_every_unprocessed_email
    (env : Scanner.Env) (w w' : Scanner.World) (result : Scanner.ProcessingResult) :
  Scanner.scanAndProcess env w = (Ok result, w') ->
  exists messages,
    let todo := Scanner.unprocessed (ScanSpec.processedIds w) messages in
    Scanner.searchEmails env (ScanInv.search_history w) = Ok messages
    /\ Trace.details_requests (Scanner.history w')
       = (rev todo ++ Trace.details_requests (Scanner.history w))%list
    /\ (Scanner.processed result + length (Scanner.errors result) = length todo)%nat.
Proof.
  intro H. destruct (ScanOkFacts.scan_ok env w w' result H)
    as [messages [t [Hsearch [Hcount _]]]].
  exists messages. cbv zeta. split; [exact Hsearch|].
  split; [|exact Hcount].
  exact (RequestFacts.scan_ok_requests env w w' result messages H Hsearch).
Qed.

Lemma scan_accounts_witness :
  let env := Invoices.env ["i1"; "m2"; "i2"; "m4"; "i3"] Scenario.reliable in
  let w' := snd (Scanner.scanAndProcess env Scenario.seen_world) in
  exists messages,
    let todo :=
      Scanner.unprocessed (ScanSpec.processedIds Scenario.seen_world) messages in
    Scanner.searchEmails env (ScanInv.search_history Scenario.seen_world) = Ok messages
    /\ Trace.details_requests (Scanner.history w') = (rev todo ++ [])%list
    /\ (0 + 3 = length todo)%nat.
Proof.
  exact (scan_accounts_for_every_unprocessed_email
           (Invoices.env ["i1"; "m2"; "i2"; "m4"; "i3"] Scenario.reliable)
           Scenario.seen_world
           (snd (Scanner.scanAndProcess
                   (Invoices.env ["i1"; "m2"; "i2"; "m4"; "i3"] Scenario.reliable)
                   Scenario.seen_world))
           {| Scanner.processed := 0;
              Scanner.errors :=
                ["Email i1: Failed to process attachment january.pdf: structuredFilename is not defined";
                 "Email i2: Failed to process attachment february.pdf: Failed to download attachment: socket hang up";
                 "Email i3: Failed to process attachment march.pdf: structuredFilename is not defined"];
              Scanner.details := [] |}
           ltac:(vm_compute; reflexivity)).
Defined.

(** In that run the details were asked for [i1], [i2] and [i3], in this
    order, and not for [m2] and [m4], which have stored documents. *)
Example scan_requests_of_five_candidates :
  rev (Trace.details_requests
         (Scanner.history
            (snd (Scanner.scanAndProcess
                    (Invoices.env ["i1"; "m2"; "i2"; "m4"; "i3"] Scenario.reliable)
                    Scenario.seen_world))))
  = ["i1"; "i2"; "i3"].
Proof. vm_compute. reflexivity. Qed.

Module LabelFacts.
Import Scanner ScanSpec ScanInv.

Lemma keeps_labels_trans (a b c : World) :
  keeps_labels a b -> keeps_labels b c -> keeps_labels a c.
Proof. unfold keeps_labels. congruence. Qed.

Ltac label_bind :=
  apply ScanFacts.respects_bind; [exact keeps_labels_trans | | intro].

Lemma keeps_labels_processAttachment (env : Env)
    (messageId folderId spreadsheetId : string) (emailDetails : EmailDetails)
    (attachment : EmailAttachment) (processedDocs : list ProcessedDocumentResult) :
  respects keeps_labels
    (processAttachment env messageId folderId spreadsheetId emailDetails attachment
       processedDocs).
Proof.
  unfold processAttachment.
  apply ScanFacts.respects_try_catch; [exact keeps_labels_trans | | intros e w; reflexivity].
  unfold attachmentBody.
  destruct (negb (DocumentFile.isDocumentFile (filename attachment)));
    [intro w; reflexivity|].
  label_bind; [intro w; reflexivity|].
  label_bind; [intro w; reflexivity|].
  label_bind; [intro w; reflexivity|].
  label_bind; [intro w; reflexivity|].
  label_bind.
  { unfold processedDocumentRepository_save. label_bind; intro w; reflexivity. }
  label_bind.
  { destruct (global_structuredFilename env); intro w; reflexivity. }
  intro w. reflexivity.
Qed.

Lemma keeps_labels_processAttachments (env : Env)
    (messageId folderId spreadsheetId : string) (emailDetails : EmailDetails)
    (rest : list EmailAttachment) :
  forall processedDocs,
    respects keeps_labels
      (processAttachments env messageId folderId spreadsheetId emailDetails rest
         processedDocs).
Proof.
  induction rest as [|a rest IH]; intro processedDocs; cbn [processAttachments].
  - intro w. reflexivity.
  - label_bind; [apply keeps_labels_processAttachment | apply IH].
Qed.

Lemma labels_frame (w w' : World) :
  documents w' = documents w -> labelled w' = labelled w ->
  labels_have_documents w -> labels_have_documents w'.
Proof.
  intros Hd Hl H m Hm. unfold processedIds. rewrite Hd. apply H. rewrite <- Hl. exact Hm.
Qed.

Lemma labels_grow (w w' : World) (new : list ProcessedDocument) :
  documents w' = (documents w ++ new)%list -> labelled w' = labelled w ->
  labels_have_documents w -> labels_have_documents w'.
Proof.
  intros Hd Hl H m Hm. unfold processedIds. rewrite Hd, List.map_app.
  apply in_or_app. left. apply H. rewrite <- Hl. exact Hm.
Qed.

(** The pipeline of one email keeps the invariant: it labels the email only
    after it has stored a document for it. *)
Lemma labels_processEmail (env : Env) (messageId folderId spreadsheetId : string)
    (w : World) :
  labels_have_documents w ->
  labels_have_documents (snd (processEmail env messageId folderId spreadsheetId w)).
Proof.
  intro Hinv. unfold processEmail. unfold bind at 1. unfold call at 1.
  destruct (getEmailDetails env (history w) messageId) as [emailDetails|e];
    [|apply (labels_frame w); [reflexivity | reflexivity | exact Hinv]].
  set (w0 := record (GetEmailDetails messageId) w).
  assert (Hinv0 : labels_have_documents w0)
    by (apply (labels_frame w); [reflexivity | reflexivity | exact Hinv]).
  pose proof (keeps_labels_processAttachments env messageId folderId spreadsheetId
                emailDetails (attachments emailDetails) [] w0) as Hlab.
  pose proof (ScanFacts.email_step_processAttachments env messageId folderId
                spreadsheetId emailDetails (attachments emailDetails) [] w0)
    as [_ [[new [Hnew Hall]] _]].
  unfold bind at 1.
  destruct (processAttachments env messageId folderId spreadsheetId emailDetails
              (attachments emailDetails) [] w0) as [[docs|e] w1] eqn:Hatt;
    cbn [snd] in *.
  2:{ apply (labels_grow w0 w1 new); assumption. }
  assert (Hinv1 : labels_have_documents w1)
    by (apply (labels_grow w0 w1 new); assumption).
  destruct (0 <? length docs)%nat eqn:Hlen; [|exact Hinv1].
  unfold bind, gmail_labelEmail, bind, call.
  destruct (labelEmail env (history w1) messageId);
    [|apply (labels_frame w1); [reflexivity | reflexivity | exact Hinv1]].
  intros m Hm. unfold processedIds.
  change (In m (labelled w1 ++ [messageId])) in Hm.
  change (In m (List.map emailId (documents w1))).
  apply in_app_or in Hm.
  destruct Hm as [Hm|[<-|[]]].
  - apply Hinv1. exact Hm.
  - destruct (ScanFacts.processAttachments_ok _ _ _ _ _ _ _ _ _ _ Hatt)
      as [new' [added [Hd [Hw HF]]]].
    cbn [app] in Hd. subst added. rewrite Hnew in Hw.
    apply app_inv_head in Hw. subst new'.
    apply Nat.ltb_lt in Hlen.
    destruct new as [|d new]; [inversion HF; subst; cbn in Hlen; lia|].
    rewrite Hnew, List.map_app.
    apply in_or_app. right. left. apply Forall_inv in Hall. symmetry. exact Hall.
Qed.

Lemma labels_processMessages (env : Env) (folderId spreadsheetId : string)
    (messages : list string) :
  forall result w,
    labels_have_documents w ->
    labels_have_documents
      (snd (processMessages env folderId spreadsheetId messages result w)).
Proof.
  induction messages as [|m rest IH]; intros result w Hinv; cbn [processMessages].
  - exact Hinv.
  - pose proof (labels_processEmail env m folderId spreadsheetId w Hinv) as Hm.
    destruct (processEmail env m folderId spreadsheetId w) as [[docs|e] w1];
      apply IH; exact Hm.
Qed.

Lemma labels_finish (env : Env) (l : ScanLog) (w : World) (result : ProcessingResult) :
  labels_have_documents w ->
  labels_have_documents (world (snd (finish env l w result))).
Proof.
  intro Hinv. destruct (ScanMoreFacts.save_scanLog_frame env l w) as [Hd Hl].
  unfold finish. destruct (save_scanLog env _) as [[u|e] r']; cbn [snd] in *;
    apply (labels_frame w); assumption.
Qed.

Lemma labels_scanBody (env : Env) (r : Run) :
  labels_have_documents (world r) ->
  labels_have_documents (world (snd (scanBody env r))).
Proof.
  intro Hinv. rewrite ScanFacts.scanBody_paths.
  assert (H4 : labels_have_documents (after_search (world r)))
    by (apply (labels_frame (world r)); [reflexivity | reflexivity | exact Hinv]).
  destruct (fst (setup env (world r))) as [[folderId spreadsheetId]|e];
    [|apply (labels_frame (world r)); [reflexivity | reflexivity | exact Hinv]].
  destruct (document_find_fault env _);
    [apply (labels_frame (world r)); [reflexivity | reflexivity | exact Hinv]|].
  destruct (searchEmails env _) as [messages|e];
    [|apply (labels_frame (world r)); [reflexivity | reflexivity | exact Hinv]].
  cbv zeta. destruct (length _ =? 0)%nat.
  - apply labels_finish. exact H4.
  - pose proof (labels_processMessages env folderId spreadsheetId
                  (unprocessed (processedIds (world r)) messages) empty_result
                  (after_search (world r)) H4) as Hloop.
    destruct (processMessages env folderId spreadsheetId _ empty_result _)
      as [res w5]. cbn [snd] in Hloop. apply labels_finish. exact Hloop.
Qed.

Lemma labels_handler (env : Env) (e : string) (r : Run) :
  labels_have_documents (world r) ->
  labels_have_documents (world (snd (scanHandler env e r))).
Proof.
  intro Hinv. unfold scanHandler, bind, update_scanLog, throw. cbn [scanLog world].
  destruct (ScanMoreFacts.save_scanLog_frame env
              (mark_failed (now env r) e (scanLog r)) (world r)) as [Hd Hl].
  destruct (save_scanLog env _) as [[u|e'] r']; cbn [snd] in *;
    apply (labels_frame (world r)); assumption.
Qed.

End LabelFacts.

Module NeverLabelFacts.
Import Scanner ScanSpec ScanInv Trace.

Lemma never_labels_refl (w : World) : never_labels w w.
Proof. split; [reflexivity | apply TraceFacts.calls_added_refl]. Qed.

Lemma never_labels_trans (a b c : World) :
  never_labels a b -> never_labels b c -> never_labels a c.
Proof.
  intros [L1 C1] [L2 C2]. split; [congruence|].
  eapply TraceFacts.calls_added_trans; eassumption.
Qed.

(** A step that leaves the labels alone and makes the calls [calls]. *)
Lemma never_labels_step (w w' : World) (calls : History) :
  labelled w' = labelled w ->
  history w' = (calls ++ history w)%list ->
  forallb (fun c => negb (is_label c)) calls = true ->
  never_labels w w'.
Proof.
  intros Hl Hh Hc. split; [exact Hl|]. exists calls. split; [exact Hh|].
  apply Forall_forall. intros c Hin.
  rewrite forallb_forall in Hc. specialize (Hc c Hin).
  destruct (is_label c); [discriminate Hc | reflexivity].
Qed.

Lemma attachment_call_is_no_label (messageId : string) (ids : list string) (c : Call) :
  attachment_call messageId ids c -> is_label c = false.
Proof. destruct c; cbn; tauto. Qed.

(** With no global [structuredFilename], a turn of the attachment loop that
    returns has added no summary. *)
Lemma processAttachment_no_summary (env : Env)
    (messageId folderId spreadsheetId : string)
    (emailDetails : EmailDetails) (attachment : EmailAttachment)
    (processedDocs docs' : list ProcessedDocumentResult) (w w' : World) :
  global_structuredFilename env = None ->
  processAttachment env messageId folderId spreadsheetId emailDetails attachment
    processedDocs w = (Ok docs', w') ->
  docs' = processedDocs.
Proof.
  intro Hnone. unfold processAttachment, try_catch, attachmentBody.
  destruct (negb (DocumentFile.isDocumentFile (filename attachment))).
  { intros [= <- <-]. reflexivity. }
  unfold bind at 1. unfold call at 1.
  destruct (downloadAttachment env (history w) messageId (attachmentId attachment))
    as [fileBuffer|e]; [|discriminate].
  unfold bind at 1. cbn [record history].
  unfold bind at 1. unfold call at 1. cbn [record history].
  destruct (uploadFile env _ fileBuffer _ (mimeType attachment) folderId)
    as [driveFileId|e]; [|discriminate].
  unfold bind at 1. unfold call at 1. cbn [record history].
  destruct (logDocument env _ spreadsheetId _) as [rowNumber|e]; [|discriminate].
  unfold bind at 1. unfold processedDocumentRepository_save, bind at 1, call, fault.
  cbn [record history].
  destruct (document_save_fault env _) as [e|]; [discriminate|].
  cbn [scanLogs documents labelled history].
  unfold bind. rewrite Hnone. discriminate.
Qed.

Lemma processAttachments_no_summary (env : Env)
    (messageId folderId spreadsheetId : string)
    (emailDetails : EmailDetails) (rest : list EmailAttachment) :
  global_structuredFilename env = None ->
  forall processedDocs docs' w w',
    processAttachments env messageId folderId spreadsheetId emailDetails rest
      processedDocs w = (Ok docs', w') ->
    docs' = processedDocs.
Proof.
  intro Hnone.
  induction rest as [|a rest IH]; intros processedDocs docs' w w';
    cbn [processAttachments].
  - intros [= <- <-]. reflexivity.
  - unfold bind.
    destruct (processAttachment env messageId folderId spreadsheetId emailDetails
                a processedDocs w) as [[docs1|e] w1] eqn:H1; [|discriminate].
    apply (processAttachment_no_summary env _ _ _ _ _ _ _ _ _ Hnone) in H1.
    subst docs1. apply IH.
Qed.

(** So the pipeline of an email returns no summary and never reaches the
    labelling. *)
Lemma processEmail_never_labels (env : Env)
    (messageId folderId spreadsheetId : string) (w : World) :
  global_structuredFilename env = None ->
  never_labels w (snd (processEmail env messageId folderId spreadsheetId w))
  /\ forall docs,
       fst (processEmail env messageId folderId spreadsheetId w) = Ok docs ->
       docs = [].
Proof.
  intro Hnone.
  destruct (getEmailDetails env (history w) messageId) as [emailDetails|e] eqn:H.
  2:{ rewrite (TraceFacts.processEmail_missing _ _ _ _ _ _ H). split; [|discriminate].
      apply (never_labels_step _ _ [GetEmailDetails messageId]); reflexivity. }
  rewrite (TraceFacts.processEmail_found _ _ _ _ _ _ H).
  set (w0 := record (GetEmailDetails messageId) w).
  assert (H0 : never_labels w w0)
    by (apply (never_labels_step _ _ [GetEmailDetails messageId]); reflexivity).
  pose proof (LabelFacts.keeps_labels_processAttachments env messageId folderId
                spreadsheetId emailDetails (attachments emailDetails) [] w0) as Hlab.
  pose proof (TraceFacts.processAttachments_calls env messageId folderId
                spreadsheetId emailDetails
                (List.map attachmentId (kept (attachments emailDetails)))
                (attachments emailDetails)
                (fun b Hb => in_map attachmentId _ b Hb) [] w0) as Hcalls.
  unfold bind.
  destruct (processAttachments env messageId folderId spreadsheetId emailDetails
              (attachments emailDetails) [] w0) as [[docs|e] w1] eqn:Hatt;
    cbn [fst snd] in *.
  - pose proof (processAttachments_no_summary env _ _ _ _ _ Hnone _ _ _ _ Hatt)
      as Hempty.
    subst docs.
    cbn. split; [|intros docs [= <-]; reflexivity].
    apply never_labels_trans with w0; [exact H0|]. split; [exact Hlab|].
    eapply TraceFacts.calls_added_weaken; [|exact Hcalls].
    apply attachment_call_is_no_label.
  - split; [|discriminate].
    apply never_labels_trans with w0; [exact H0|]. split; [exact Hlab|].
    eapply TraceFacts.calls_added_weaken; [|exact Hcalls].
    apply attachment_call_is_no_label.
Qed.

Lemma processMessages_never_labels (env : Env) (folderId spreadsheetId : string)
    (messages : list string) :
  global_structuredFilename env = None ->
  forall result w,
    never_labels w (snd (processMessages env folderId spreadsheetId messages result w))
    /\ details (fst (processMessages env folderId spreadsheetId messages result w))
       = details result.
Proof.
  intro Hnone.
  induction messages as [|m rest IH]; intros result w; cbn [processMessages].
  - split; [apply never_labels_refl | reflexivity].
  - destruct (processEmail_never_labels env m folderId spreadsheetId w Hnone)
      as [Hm Hdocs].
    destruct (processEmail env m folderId spreadsheetId w) as [[docs|e] w1];
      cbn [fst snd] in *.
    + pose proof (Hdocs _ eq_refl) as Hnil. subst docs.
      destruct (IH {| processed := S (processed result); errors := errors result;
                      details := details result ++ [] |} w1) as [Hrest Hd].
      split; [apply never_labels_trans with w1; assumption|].
      rewrite Hd. cbn. apply app_nil_r.
    + destruct (IH {| processed := processed result;
                      errors := errors result ++ ["Email " ++ m ++ ": " ++ e];
                      details := details result |} w1) as [Hrest Hd].
      split; [apply never_labels_trans with w1; assumption | exact Hd].
Qed.

Lemma save_never_labels (env : Env) (l : ScanLog) (w : World) :
  never_labels w (world (snd (save_scanLog env {| scanLog := l; world := w |}))).
Proof.
  apply (never_labels_step _ _ [ScanLogSave]); [| |reflexivity];
    unfold save_scanLog, scanLogRepository_save, bind, call, fault;
    cbn [scanLog world];
    destruct (scanLog_save_fault env (history w)); try reflexivity;
    destruct (log_id l); reflexivity.
Qed.

Lemma finish_never_labels (env : Env) (l : ScanLog) (w : World)
    (result : ProcessingResult) :
  never_labels w (world (snd (finish env l w result)))
  /\ forall res, fst (finish env l w result) = Ok res -> res = result.
Proof.
  pose proof (save_never_labels env l w) as H. unfold finish.
  destruct (save_scanLog env _) as [[u|e] r']; cbn [fst snd] in *;
    (split; [exact H|]); [intros res [= <-]; reflexivity | discriminate].
Qed.

Lemma scanBody_never_labels (env : Env) (r : Run) :
  global_structuredFilename env = None ->
  never_labels (world r) (world (snd (scanBody env r)))
  /\ forall result, fst (scanBody env r) = Ok result -> details result = [].
Proof.
  intro Hnone. rewrite ScanFacts.scanBody_paths.
  assert (H2 : never_labels (world r) (after_setup (world r)))
    by (apply (never_labels_step _ _ [EnsureSpreadsheetExists; EnsureFolderExists]);
        reflexivity).
  assert (H3 : never_labels (world r) (after_find (world r)))
    by (apply (never_labels_step _ _
                 [DocumentFind; EnsureSpreadsheetExists; EnsureFolderExists]);
        reflexivity).
  assert (H4 : never_labels (world r) (after_search (world r)))
    by (apply (never_labels_step _ _
                 [SearchEmails; DocumentFind; EnsureSpreadsheetExists;
                  EnsureFolderExists]);
        reflexivity).
  destruct (fst (setup env (world r))) as [[folderId spreadsheetId]|e];
    [|split; [exact H2 | discriminate]].
  destruct (document_find_fault env _); [split; [exact H3 | discriminate]|].
  destruct (searchEmails env _) as [messages|e];
    [|split; [exact H4 | discriminate]].
  cbv zeta. destruct (length _ =? 0)%nat.
  - match goal with
    | |- context [finish env ?l ?w4 ?res] =>
        destruct (finish_never_labels env l w4 res) as [Hf Hres]
    end.
    split; [apply never_labels_trans with (after_search (world r)); assumption|].
    intros result Hok. rewrite (Hres result Hok). reflexivity.
  - destruct (processMessages_never_labels env folderId spreadsheetId
                (unprocessed (processedIds (world r)) messages) Hnone empty_result
                (after_search (world r))) as [Hloop Hd].
    destruct (processMessages env folderId spreadsheetId _ empty_result _)
      as [res w5]. cbn [fst snd] in *.
    match goal with
    | |- context [finish env ?l ?w4 ?res] =>
        destruct (finish_never_labels env l w4 res) as [Hf Hres]
    end.
    split.
    + apply never_labels_trans with w5; [|exact Hf].
      apply never_labels_trans with (after_search (world r)); assumption.
    + intros result Hok. rewrite (Hres result Hok). exact Hd.
Qed.

Lemma handler_never_labels (env : Env) (e : string) (r : Run) :
  never_labels (world r) (world (snd (scanHandler env e r))).
Proof.
  unfold scanHandler, bind, update_scanLog, throw. cbn [scanLog world].
  pose proof (save_never_labels env (mark_failed (now env r) e (scanLog r)) (world r))
    as H.
  destruct (save_scanLog env _) as [[u|e'] r']; exact H.
Qed.

Lemma scan_never_labels (env : Env) (w : World) :
  global_structuredFilename env = None ->
  never_labels w (snd (scanAndProcess env w))
  /\ forall result, fst (scanAndProcess env w) = Ok result -> details result = [].
Proof.
  intro Hnone.
  destruct (scanLog_save_fault env (history w)) as [e|] eqn:Hsave.
  { rewrite (ScanFacts.scanAndProcess_first_save_fails env w e Hsave).
    split; [|discriminate].
    apply (never_labels_step _ _ [ScanLogSave]); reflexivity. }
  rewrite (ScanFacts.scanAndProcess_started env w Hsave).
  assert (H0 : never_labels w (world (started_run w)))
    by (apply (never_labels_step _ _ [ScanLogSave]); reflexivity).
  destruct (scanBody_never_labels env (started_run w) Hnone) as [Hbody Hd].
  unfold try_catch.
  destruct (scanBody env (started_run w)) as [[res|e] r1]; cbn [fst snd] in *.
  - split; [apply never_labels_trans with (world (started_run w)); assumption|].
    intros result [= <-]. apply Hd. reflexivity.
  - pose proof (handler_never_labels env e r1) as Hh.
    destruct (ScanOkFacts.scanHandler_throws env e r1) as [e' He'].
    destruct (scanHandler env e r1) as [res r2]. cbn [fst snd] in *. subst res.
    split; [|discriminate].
    apply never_labels_trans with (world r1); [|exact Hh].
    apply never_labels_trans with (world (started_run w)); assumption.
Qed.

End NeverLabelFacts.

(** X4. The processed label is only ever given to an email that has a stored
    document: if that holds before a scan, it holds after it, however the
    scan ends. As the code stands, with no global named
    [structuredFilename], a scan gives no label at all and never asks Gmail
    for one: a pipeline that stores a document throws at line 189, and line
    207 is reached with an empty list only. For the same reason a scan that
    returns reports no details. *)
Theorem scan_labels_only_emails_with_documents
    (env : Scanner.Env) (w : Scanner.World) :
  ScanInv.labels_have_documents w ->
  let run := Scanner.scanAndProcess env w in
  ScanInv.labels_have_documents (snd run)
  /\ (Scanner.global_structuredFilename env = None ->
      Trace.never_labels w (snd run)
      /\ forall result, fst run = Ok result -> Scanner.details result = []).
Proof.
  intros Hinv run. split; [|exact (NeverLabelFacts.scan_never_labels env w)].
  subst run.
  destruct (Scanner.scanLog_save_fault env (Scanner.history w)) as [e|] eqn:Hsave.
  - rewrite (ScanFacts.scanAndProcess_first_save_fails env w e Hsave).
    apply (LabelFacts.labels_frame w); [reflexivity | reflexivity | exact Hinv].
  - rewrite (ScanFacts.scanAndProcess_started env w Hsave).
    assert (H0 : ScanInv.labels_have_documents
                   (Scanner.world (ScanSpec.started_run w)))
      by (apply (LabelFacts.labels_frame w); [reflexivity | reflexivity | exact Hinv]).
    pose proof (LabelFacts.labels_scanBody env _ H0) as Hbody.
    unfold try_catch.
    destruct (Scanner.scanBody env (ScanSpec.started_run w)) as [[res|e] r1];
      cbn [snd] in *; [exact Hbody|].
    pose proof (LabelFacts.labels_handler env e r1 Hbody) as Hh.
    destruct (Scanner.scanHandler env e r1) as [res r2]. exact Hh.
Qed.

(** A scan over three invoices from a world in which [m2] is labelled: the
    documents of [i1] and [i3] are stored, and [m2] is still the only
    labelled email. *)
Lemma scan_labels_witness :
  let env := Invoices.env ["i1"; "i2"; "i3"] Scenario.reliable in
  let w' := snd (Scanner.scanAndProcess env Invoices.labelled_world) in
  (List.map Scanner.emailId (Scanner.documents w') = ["m2"; "m4"; "i1"; "i3"]
   /\ Scanner.labelled w' = ["m2"])
  /\ ScanInv.labels_have_documents w'
  /\ Trace.never_labels Invoices.labelled_world w'.
Proof.
  cbv zeta. split; [split; vm_compute; reflexivity|].
  destruct (scan_labels_only_emails_with_documents
              (Invoices.env ["i1"; "i2"; "i3"] Scenario.reliable)
              Invoices.labelled_world) as [Hinv Hnever].
  - intros m [<-|[]]. left. reflexivity.
  - split; [exact Hinv|]. exact (proj1 (Hnever eq_refl)).
Defined.

(** ** More about [formatFileSize] *)

Module FileSizeMoreFacts.
Import FileSize.

Lemma Math_round_nearest (x : Q) :
  x - (1 # 2) < inject_Z (Math_round x) /\ inject_Z (Math_round x) <= x + (1 # 2).
Proof.
  unfold Math_round. split.
  - pose proof (Qlt_floor (x + (1 # 2))) as H.
    rewrite inject_Z_plus in H.
    apply Qplus_lt_l with (z := 1).
    eapply Qle_lt_trans; [|exact H].
    ring_simplify. apply Qle_refl.
  - apply Qfloor_le.
Qed.

Lemma forallb_app (p : ascii -> bool) (a b : string) :
  Js.forallb p (a ++ b) = Js.forallb p a && Js.forallb p b.
Proof.
  induction a as [|c a IH]; cbn; [reflexivity|].
  rewrite IH, andb_assoc. reflexivity.
Qed.

Lemma scaled_value (z : Z) :
  fst (scale (inject_Z z) 0)
    * inject_Z (1024 ^ Z.of_nat (snd (scale (inject_Z z) 0)))
  == inject_Z z.
Proof.
  rewrite FileSizeFacts.scale_bytes.
  repeat match goal with
         | |- context [(z <? ?c)%Z] => destruct (z <? c)%Z
         end; cbn [fst snd];
    unfold Qeq, Qmult, Qdiv, Qinv; cbn; lia.
Qed.

Lemma scaled_range (z : Z) :
  (0 < z)%Z ->
  (snd (scale (inject_Z z) 0) = 0%nat \/ 1 <= fst (scale (inject_Z z) 0))
  /\ (snd (scale (inject_Z z) 0) = 4%nat \/ fst (scale (inject_Z z) 0) < 1024).
Proof.
  intro Hpos. rewrite FileSizeFacts.scale_bytes.
  change (1024 ^ 2)%Z with 1048576%Z.
  change (1024 ^ 3)%Z with 1073741824%Z.
  change (1024 ^ 4)%Z with 1099511627776%Z.
  repeat match goal with
         | |- context [(z <? ?c)%Z] => destruct (Z.ltb_spec z c)
         end; cbn [fst snd]; split;
    first [ left; reflexivity
          | right; unfold Qle, Qlt, Qdiv, Qmult, Qinv; cbn; lia ].
Qed.

Lemma Math_round_integer (z : Z) : Math_round (inject_Z z * 100) = (z * 100)%Z.
Proof.
  unfold Math_round, Qfloor, Qplus, Qmult, inject_Z. cbn.
  replace (z * 100 * 2 + 1)%Z with (1 + (z * 100) * 2)%Z by ring.
  rewrite Z.div_add by discriminate. reflexivity.
Qed.

Lemma show_hundredths_integer (n : N) :
  show_hundredths (Z.of_N n * 100) = Js.N_to_string n.
Proof.
  unfold show_hundredths.
  replace (Z.to_N (Z.of_N n * 100)) with (n * 100)%N by lia.
  rewrite N.Div0.mod_mul, N.div_mul by discriminate. reflexivity.
Qed.

Lemma Unknown_iff_zero (n : N) :
  formatFileSize n = "Unknown" <-> n = 0%N.
Proof.
  split; [|intros ->; reflexivity].
  intro H. destruct (N.eq_dec n 0) as [E|E]; [exact E|exfalso].
  destruct (FileSizeFacts.formatFileSize_shape n ltac:(lia)) as [num Hnum].
  rewrite Hnum in H.
  apply (f_equal (Js.forallb (fun c => negb (Ascii.eqb c " ")))) in H.
  rewrite forallb_app in H. cbn in H.
  rewrite andb_false_r in H. discriminate H.
Qed.

End FileSizeMoreFacts.

(** X5. For every positive byte count below 2^53 / 100, the range in which
    the multiplication by 100 is exact in the source's floating point,
    [formatFileSize] prints the count divided by 1024 as many times as the
    unit index says, rounded to the nearest hundredth (halves upwards); the
    value it rounds is at least 1 once a unit above B is used, and below 1024
    unless the index has left the array. *)
Theorem formatFileSize_rounds_scaled_value (n : N) :
  (0 < n)%N ->
  (n * 100 < 2 ^ 53)%N ->
  let q := fst (FileSize.scale (inject_Z (Z.of_N n)) 0) in
  let k := FileSize.unitIndexOf n in
  let h := FileSize.Math_round (q * 100) in
  FileSize.formatFileSize n
    = FileSize.show_hundredths h ++ " " ++ FileSize.unit_label k
  /\ q * inject_Z (1024 ^ Z.of_nat k) == inject_Z (Z.of_N n)
  /\ q * 100 - (1 # 2) < inject_Z h
  /\ inject_Z h <= q * 100 + (1 # 2)
  /\ (k = 0%nat \/ 1 <= q)
  /\ (k = 4%nat \/ q < 1024).
Proof.
  intros Hpos _ q k h.
  split.
  { unfold FileSize.formatFileSize.
    destruct (N.eqb_spec n 0) as [->|_]; [inversion Hpos|].
    subst q k h. unfold FileSize.unitIndexOf.
    destruct (FileSize.scale (inject_Z (Z.of_N n)) 0) as [size unitIndex].
    reflexivity. }
  split; [apply FileSizeMoreFacts.scaled_value|].
  destruct (FileSizeMoreFacts.Math_round_nearest (q * 100)) as [Hlo Hhi].
  split; [exact Hlo|]. split; [exact Hhi|].
  apply FileSizeMoreFacts.scaled_range. lia.
Qed.

(** 1536 bytes are "1.5 KB", and 1.5 TiB, where the index has left the
    array, is "1.5 undefined". *)
Lemma formatFileSize_rounds_witness :
  (FileSize.formatFileSize 1536 = "1.5 KB"
   /\ FileSize.Math_round (fst (FileSize.scale (inject_Z 1536) 0) * 100) = 150%Z)
  /\ FileSize.formatFileSize 1649267441664 = "1.5 undefined".
Proof.
  destruct (formatFileSize_rounds_scaled_value 1536 eq_refl eq_refl) as [H _].
  split; [split; [rewrite H; reflexivity | reflexivity] | vm_compute; reflexivity].
Defined.

(** X6. A count below 1024 is printed exactly: the integer itself followed
    by a space and B. *)
Theorem formatFileSize_below_1KiB_is_exact (n : N) :
  (0 < n)%N -> (n < 1024)%N ->
  FileSize.formatFileSize n = Js.N_to_string n ++ " B".
Proof.
  intros Hpos Hlt. unfold FileSize.formatFileSize.
  destruct (N.eqb_spec n 0) as [->|_]; [inversion Hpos|].
  rewrite FileSizeFacts.scale_bytes.
  destruct (Z.ltb_spec (Z.of_N n) 1024); [|lia].
  rewrite FileSizeMoreFacts.Math_round_integer,
    FileSizeMoreFacts.show_hundredths_integer.
  reflexivity.
Qed.

Lemma formatFileSize_below_1KiB_witness :
  FileSize.formatFileSize 1023 = "1023 B".
Proof.
  exact (formatFileSize_below_1KiB_is_exact 1023 eq_refl eq_refl).
Defined.

(** X7. The word "Unknown" stands for the count 0 and for no other: every
    positive count is printed with a space in it. *)
Theorem formatFileSize_Unknown_iff_zero (n : N) :
  FileSize.formatFileSize n = "Unknown" <-> n = 0%N.
Proof. apply FileSizeMoreFacts.Unknown_iff_zero. Qed.

(** ** Sender names, invoice numbers and file names *)

Module StringFacts.

Lemma append_assoc (a b c : string) : (a ++ b) ++ c = a ++ (b ++ c).
Proof. induction a as [|x a IH]; cbn; [reflexivity | rewrite IH; reflexivity]. Qed.

Lemma rev_onto_app (s acc : string) : Js.rev_onto s acc = Js.rev s ++ acc.
Proof.
  unfold Js.rev. revert acc. induction s as [|c s IH]; intro acc; cbn.
  - reflexivity.
  - rewrite IH, (IH (String c EmptyString)), append_assoc. reflexivity.
Qed.

Lemma append_nil_r (s : string) : s ++ "" = s.
Proof. induction s as [|c s IH]; cbn; [reflexivity | rewrite IH; reflexivity]. Qed.

Lemma rev_cons (c : ascii) (s : string) :
  Js.rev (String c s) = Js.rev s ++ String c EmptyString.
Proof. unfold Js.rev at 1. cbn. apply rev_onto_app. Qed.

Lemma rev_app (a b : string) : Js.rev (a ++ b) = Js.rev b ++ Js.rev a.
Proof.
  induction a as [|c a IH]; cbn [append].
  - change (Js.rev "") with "". rewrite append_nil_r. reflexivity.
  - rewrite !rev_cons, IH, append_assoc. reflexivity.
Qed.

Lemma rev_involutive (s : string) : Js.rev (Js.rev s) = s.
Proof.
  induction s as [|c s IH]; [reflexivity|].
  rewrite rev_cons, rev_app, IH. reflexivity.
Qed.

Lemma forallb_rev (p : ascii -> bool) (s : string) :
  Js.forallb p (Js.rev s) = Js.forallb p s.
Proof.
  induction s as [|c s IH]; [reflexivity|].
  rewrite rev_cons, FileSizeMoreFacts.forallb_app, IH. cbn.
  rewrite andb_true_r, andb_comm. reflexivity.
Qed.

Lemma forallb_drop_while (p q : ascii -> bool) (s : string) :
  Js.forallb p s = true -> Js.forallb p (Js.drop_while q s) = true.
Proof.
  induction s as [|c s IH]; cbn; [auto|].
  intro H. apply andb_prop in H. destruct H as [Hc Hs].
  destruct (q c); [apply IH; exact Hs|]. cbn. rewrite Hc, Hs. reflexivity.
Qed.

(** What [drop_while] removes satisfies the test, and what it leaves does
    not start with a character that does. *)
Lemma drop_while_split (q : ascii -> bool) (s : string) :
  s = Js.take_while q s ++ Js.drop_while q s
  /\ Js.forallb q (Js.take_while q s) = true
  /\ Js.drop_while q (Js.drop_while q s) = Js.drop_while q s.
Proof.
  induction s as [|c s [IH1 [IH2 IH3]]]; cbn; [auto|].
  destruct (q c) eqn:E; cbn.
  - rewrite E, IH2, <- IH1. auto.
  - rewrite E. auto.
Qed.

Lemma drop_while_head (q : ascii -> bool) (a b : string) :
  Js.drop_while q a = a -> a <> "" -> Js.drop_while q (a ++ b) = a ++ b.
Proof.
  destruct a as [|c a]; [congruence|]. cbn. intros H _.
  destruct (q c); [|reflexivity].
  exfalso. apply (f_equal String.length) in H. cbn in H.
  assert (Hle : forall s, (String.length (Js.drop_while q s) <= String.length s)%nat).
  { induction s as [|x s IH]; cbn; [lia|]. destruct (q x); cbn; lia. }
  specialize (Hle a). lia.
Qed.

Lemma rev_nil_inv (s : string) : Js.rev s = "" -> s = "".
Proof.
  intro H. apply (f_equal Js.rev) in H. rewrite rev_involutive in H. exact H.
Qed.

(** [trim] leaves a string without white space at either end. *)
Lemma trim_ends (s : string) :
  Js.drop_while Js.is_space (Js.trim s) = Js.trim s
  /\ Js.drop_while Js.is_space (Js.rev (Js.trim s)) = Js.rev (Js.trim s).
Proof.
  unfold Js.trim.
  set (t := Js.drop_while Js.is_space s).
  assert (Ht : Js.drop_while Js.is_space t = t)
    by (apply (drop_while_split Js.is_space s)).
  destruct (drop_while_split Js.is_space (Js.rev t)) as [Hsplit [_ Hidem]].
  set (v := Js.drop_while Js.is_space (Js.rev t)) in *.
  split.
  - destruct (string_dec (Js.rev v) "") as [E|E]; [rewrite E; reflexivity|].
    apply (f_equal Js.rev) in Hsplit. rewrite rev_involutive, rev_app in Hsplit.
    pose proof (drop_while_head Js.is_space (Js.rev v)
                  (Js.rev (Js.take_while Js.is_space (Js.rev t)))) as Hhead.
    rewrite <- Hsplit in Hhead.
    destruct (Js.rev v) as [|c rv] eqn:Erv; [congruence|].
    rewrite Hsplit in Ht. cbn in Ht |- *. 
    destruct (Js.is_space c) eqn:Ec; [|reflexivity].
    exfalso.
    assert (Hle : forall x, (String.length (Js.drop_while Js.is_space x)
                             <= String.length x)%nat).
    { induction x as [|y x IH]; cbn; [lia|]. destruct (Js.is_space y); cbn; lia. }
    apply (f_equal String.length) in Ht. cbn in Ht.
    specialize (Hle (rv ++ Js.rev (Js.take_while Js.is_space (Js.rev t)))). lia.
  - rewrite rev_involutive. exact Hidem.
Qed.

Lemma forallb_replace_outside (keep : ascii -> bool) (s : string) :
  Js.forallb (fun c => keep c || Js.is_space c)
    (Js.replace_outside keep " " s) = true.
Proof.
  induction s as [|c s IH]; cbn; [reflexivity|].
  destruct (keep c) eqn:E; cbn [Js.forallb append]; rewrite IH.
  - rewrite E. reflexivity.
  - change (Js.is_space " ") with true. rewrite orb_true_r. reflexivity.
Qed.

Lemma forallb_impl (p q : ascii -> bool) (s : string) :
  (forall c, p c = true -> q c = true) ->
  Js.forallb p s = true -> Js.forallb q s = true.
Proof.
  intro Hpq. induction s as [|c s IH]; cbn; [auto|].
  intro H. apply andb_prop in H. destruct H as [Hc Hs].
  rewrite (Hpq c Hc), (IH Hs). reflexivity.
Qed.

End StringFacts.

(** X8. The sender name derived from an address contains only letters,
    digits and white space, and has no white space at its start or at its
    end. *)
Theorem extractSenderName_is_clean (email : string) :
  let name := Scanner.extractSenderName email in
  Js.forallb (fun c => Js.is_alnum c || Js.is_space c) name = true
  /\ Js.drop_while Js.is_space name = name
  /\ Js.drop_while Js.is_space (Js.rev name) = Js.rev name.
Proof.
  cbv zeta. unfold Scanner.extractSenderName. split.
  - unfold Js.trim. rewrite StringFacts.forallb_rev.
    apply StringFacts.forallb_drop_while. rewrite StringFacts.forallb_rev.
    apply StringFacts.forallb_drop_while.
    apply StringFacts.forallb_impl
      with (p := fun c => (Js.is_alnum c || Js.is_space c) || Js.is_space c).
    + intros c Hc. destruct (Js.is_alnum c), (Js.is_space c);
        first [reflexivity | discriminate Hc].
    + apply StringFacts.forallb_replace_outside.
  - apply StringFacts.trim_ends.
Qed.

Example extractSenderName_example :
  Scanner.extractSenderName " acme.billing+x@corp.example" = "acme billing x".
Proof. reflexivity. Qed.

Module InvoiceFacts.
Import Pattern StringSpec.

Lemma take_while_all (p : ascii -> bool) (s : string) :
  Js.forallb p (Js.take_while p s) = true.
Proof.
  induction s as [|c s IH]; cbn; [reflexivity|].
  destruct (p c) eqn:E; cbn; [rewrite E, IH|]; reflexivity.
Qed.

Lemma digits1_digits (s d : string) : digits1 s = Some d -> digits d.
Proof.
  unfold digits1. pose proof (take_while_all Js.is_digit s) as H.
  destruct (Js.take_while Js.is_digit s) as [|c t]; [discriminate|].
  intros [= <-]. split; [discriminate | exact H].
Qed.

Lemma match_here_digits (p : Pattern.t) (s d : string) :
  (match p with DigitRun least => (0 < least)%nat | _ => True end) ->
  match_here p s = Some d -> digits d.
Proof.
  destruct p as [keyword| |least]; cbn [match_here]; intro Hp.
  - destruct (ci_prefix keyword s); [apply digits1_digits | discriminate].
  - destruct s as [|c rest]; [discriminate|].
    destruct (Ascii.eqb_spec c "#") as [->|Hne].
    + apply digits1_digits.
    + destruct c as [[] [] [] [] [] [] [] []]; try discriminate.
      congruence.
  - pose proof (take_while_all Js.is_digit s) as H.
    destruct (Nat.leb_spec least (String.length (Js.take_while Js.is_digit s)));
      [|discriminate].
    intros [= <-]. split; [|exact H].
    intro E. rewrite E in *. cbn in *. lia.
Qed.

Lemma exec_digits (p : Pattern.t) (s d : string) :
  (match p with DigitRun least => (0 < least)%nat | _ => True end) ->
  exec p s = Some d -> digits d.
Proof.
  intro Hp. induction s as [|c s IH]; cbn [exec].
  - destruct (match_here p "") eqn:E; [|discriminate].
    intros [= <-]. exact (match_here_digits p _ _ Hp E).
  - destruct (match_here p (String c s)) eqn:E; [|exact IH].
    intros [= <-]. exact (match_here_digits p _ _ Hp E).
Qed.

Lemma first_match_digits (ps : list Pattern.t) (s d : string) :
  Forall (fun p => match p with DigitRun least => (0 < least)%nat | _ => True end) ps ->
  first_match ps s = Some d -> digits d.
Proof.
  induction ps as [|p ps IH]; cbn [first_match]; [discriminate|].
  intro H. inversion H as [|? ? Hp Hps]; subst.
  destruct (exec p s) eqn:E; [|exact (IH Hps)].
  intros [= <-]. exact (exec_digits p _ _ Hp E).
Qed.

Lemma first_match_prefix (ps qs : list Pattern.t) (s d : string) :
  first_match ps s = Some d -> first_match (ps ++ qs) s = Some d.
Proof.
  induction ps as [|p ps IH]; cbn [first_match app]; [discriminate|].
  destruct (exec p s); [auto | exact IH].
Qed.

End InvoiceFacts.

(** X9. Whenever the scanner records an invoice number for a subject, it is
    a non-empty run of digits, and the token the drive service derives for
    the same subject is INV followed by that same number, whatever the
    random draw. So a structured file name that is built from a date that
    parses and an original file name reads
    <sender>_INV<number>_<day>.<extension>. The fallback name, the one the
    pipeline always gets because it passes no original name, carries no
    token: it is <today>_undefined. *)
Theorem invoice_number_agrees_with_file_token
    (isoDate : string -> option string) (today random36 : string)
    (senderEmail subject date original day number : string) :
  Scanner.extractInvoiceNumber subject = Some number ->
  isoDate date = Some day ->
  StringSpec.digits number
  /\ Drive.extractInvoiceNumber random36 subject = "INV" ++ number
  /\ (exists sender extension,
        Drive.generateStructuredFilename isoDate today random36 senderEmail subject
          date (Some original)
        = sender ++ "_INV" ++ number ++ "_" ++ day ++ "." ++ extension)
  /\ Drive.generateStructuredFilename isoDate today random36 senderEmail subject
       date None
     = today ++ "_undefined".
Proof.
  intros H Hday. unfold Scanner.extractInvoiceNumber in H.
  assert (Htoken : Drive.extractInvoiceNumber random36 subject = "INV" ++ number).
  { unfold Drive.extractInvoiceNumber.
    change Drive.patterns with (Scanner.patterns ++ [Pattern.DigitRun 4])%list.
    rewrite (InvoiceFacts.first_match_prefix _ _ _ _ H). reflexivity. }
  split.
  { apply (InvoiceFacts.first_match_digits Scanner.patterns subject number);
      [|exact H].
    repeat constructor. }
  split; [exact Htoken|].
  unfold Drive.generateStructuredFilename. rewrite Hday, Htoken.
  split; [|reflexivity].
  do 2 eexists. reflexivity.
Qed.

Lemma invoice_number_agrees_witness :
  StringSpec.digits "4821"
  /\ Drive.extractInvoiceNumber "0.i" "Invoice #4821 - March" = "INV4821"
  /\ (exists sender extension,
        Drive.generateStructuredFilename (fun _ => Some "2024-03-01") "2026-01-01"
          "0.i" "billing@acme.example" "Invoice #4821 - March" "Fri, 01 Mar 2024"
          (Some "scan.pdf")
        = sender ++ "_INV" ++ "4821" ++ "_" ++ "2024-03-01" ++ "." ++ extension)
  /\ Drive.generateStructuredFilename (fun _ => Some "2024-03-01") "2026-01-01"
       "0.i" "billing@acme.example" "Invoice #4821 - March" "Fri, 01 Mar 2024" None
     = "2026-01-01_undefined".
Proof.
  exact (invoice_number_agrees_with_file_token (fun _ => Some "2024-03-01")
           "2026-01-01" "0.i" "billing@acme.example" "Invoice #4821 - March"
           "Fri, 01 Mar 2024" "scan.pdf" "2024-03-01" "4821" eq_refl eq_refl).
Defined.

(** The name of that example in full. *)
Example structured_filename_of_invoice_4821 :
  Drive.generateStructuredFilename (fun _ => Some "2024-03-01") "2026-01-01"
    "0.i" "billing@acme.example" "Invoice #4821 - March" "Fri, 01 Mar 2024"
    (Some "scan.pdf")
  = "billing_INV4821_2024-03-01.pdf".
Proof. reflexivity. Qed.

(** X10. Whenever one of the six patterns matches the subject, the token of
    the file name is INV followed by a non-empty run of digits; the random
    draw is not used. *)
Theorem file_token_from_pattern_is_digits (subject group : string) :
  Pattern.first_match Drive.patterns subject = Some group ->
  StringSpec.digits group
  /\ forall other, Drive.extractInvoiceNumber other subject = "INV" ++ group.
Proof.
  intro H. split.
  - apply (InvoiceFacts.first_match_digits Drive.patterns subject group); [|exact H].
    repeat constructor.
  - intro other. unfold Drive.extractInvoiceNumber. rewrite H. reflexivity.
Qed.

Lemma file_token_from_pattern_witness :
  StringSpec.digits "20240101"
  /\ forall other,
       Drive.extractInvoiceNumber other "statement 20240101 and 5" = "INV20240101".
Proof.
  exact (file_token_from_pattern_is_digits "statement 20240101 and 5" "20240101"
           eq_refl).
Defined.

Module FileNameFacts.

Lemma take_length (n : nat) (s : string) : (String.length (Js.take n s) <= n)%nat.
Proof.
  revert s. induction n as [|n IH]; intros [|c s]; cbn; try lia.
  specialize (IH s). lia.
Qed.

Lemma forallb_take (p : ascii -> bool) (n : nat) (s : string) :
  Js.forallb p s = true -> Js.forallb p (Js.take n s) = true.
Proof.
  revert s. induction n as [|n IH]; intros [|c s]; cbn; auto.
  intro H. apply andb_prop in H. destruct H as [Hc Hs].
  rewrite Hc, (IH s Hs). reflexivity.
Qed.

Lemma forallb_replace_empty (keep : ascii -> bool) (s : string) :
  Js.forallb keep (Js.replace_outside keep "" s) = true.
Proof.
  induction s as [|c s IH]; cbn; [reflexivity|].
  destruct (keep c) eqn:E; cbn; [rewrite E, IH; reflexivity | exact IH].
Qed.

(** What follows the last dot holds no dot. *)
Lemma after_last_no_dot (c : ascii) (s : string) :
  Js.lastIndexOf c (Js.after_last c s) = (-1)%Z.
Proof.
  unfold Js.after_last, Js.substring_from.
  induction s as [|a s IH]; [reflexivity|].
  cbn [Js.lastIndexOf].
  pose proof (DocumentFileFacts.lastIndexOf_lower_bound c s) as Hlb.
  destruct (Z.leb_spec 0 (Js.lastIndexOf c s)) as [Hge|Hlt].
  - replace (Z.to_nat (Z.max 0 (Js.lastIndexOf c s + 1 + 1)))
      with (S (Z.to_nat (Z.max 0 (Js.lastIndexOf c s + 1)))) by lia.
    exact IH.
  - assert (Hm : Js.lastIndexOf c s = (-1)%Z) by lia.
    rewrite Hm in IH. cbn in IH.
    destruct (Ascii.eqb a c) eqn:E; cbn.
    + exact IH.
    + rewrite IH. cbn. rewrite E. reflexivity.
Qed.

Lemma after_last_whole (c : ascii) (s : string) :
  Js.lastIndexOf c s = (-1)%Z -> Js.after_last c s = s.
Proof. intro H. unfold Js.after_last, Js.substring_from. rewrite H. reflexivity. Qed.

End FileNameFacts.

(** X11. With a date that parses and an original file name, the structured
    name is sender, token, day and extension joined by two underscores and a
    dot. The sender part has at most 20 characters, all letters or digits;
    the extension is what follows the last dot of the original name (the
    whole name when it has no dot), or pdf when that is empty, so it is
    never empty and holds no dot. *)
Theorem structured_filename_shape
    (isoDate : string -> option string) (today random36 : string)
    (senderEmail subject date original day : string) :
  isoDate date = Some day ->
  exists sender extension,
    Drive.generateStructuredFilename isoDate today random36 senderEmail subject date
      (Some original)
    = sender ++ "_" ++ Drive.extractInvoiceNumber random36 subject ++ "_" ++ day
        ++ "." ++ extension
    /\ (String.length sender <= 20)%nat
    /\ Js.forallb Js.is_alnum sender = true
    /\ extension <> ""
    /\ Js.lastIndexOf "." extension = (-1)%Z
    /\ extension = (if String.eqb (Js.after_last "." original) ""
                    then "pdf" else Js.after_last "." original).
Proof.
  intro Hday. unfold Drive.generateStructuredFilename. rewrite Hday.
  eexists. eexists. split; [reflexivity|].
  split; [apply FileNameFacts.take_length|].
  split; [apply FileNameFacts.forallb_take, FileNameFacts.forallb_replace_empty|].
  pose proof (FileNameFacts.after_last_no_dot "." original) as Hdot.
  destruct (Js.after_last "." original) as [|c rest]; cbn [String.eqb].
  - repeat split. discriminate.
  - repeat split; [discriminate | exact Hdot].
Qed.

Lemma structured_filename_witness :
  exists sender extension,
    Drive.generateStructuredFilename (fun _ => Some "2024-03-01") "2026-01-01" "0.i"
      "Acme.Billing+x@corp.example" "Invoice #4821" "Fri, 01 Mar 2024" (Some "scan.2024.PDF")
    = sender ++ "_" ++ "INV4821" ++ "_" ++ "2024-03-01" ++ "." ++ extension
    /\ (String.length sender <= 20)%nat
    /\ Js.forallb Js.is_alnum sender = true
    /\ extension <> ""
    /\ Js.lastIndexOf "." extension = (-1)%Z
    /\ extension = "PDF".
Proof.
  exact (structured_filename_shape (fun _ => Some "2024-03-01") "2026-01-01" "0.i"
           "Acme.Billing+x@corp.example" "Invoice #4821" "Fri, 01 Mar 2024"
           "scan.2024.PDF" "2024-03-01" eq_refl).
Defined.

Module StoredFacts.
Import Scanner ScanSpec ScanInv.

(** Without an original name, or with a date that does not parse, the
    structured name is the fallback. *)
Lemma structured_filename_fallback
    (isoDate : string -> option string) (today random36 : string)
    (senderEmail subject date : string) (original : option string) :
  isoDate date = None \/ original = None ->
  Drive.generateStructuredFilename isoDate today random36 senderEmail subject date
    original
  = today ++ "_" ++ match original with Some name => name | None => "undefined" end.
Proof.
  unfold Drive.generateStructuredFilename.
  intros [H| ->].
  - rewrite H. destruct original; reflexivity.
  - destruct (isoDate date); reflexivity.
Qed.

Lemma stores_refl (Q : ProcessedDocument -> Prop) (w : World) : stores Q w w.
Proof. exists []. rewrite app_nil_r. auto. Qed.

Lemma stores_trans (Q : ProcessedDocument -> Prop) (a b c : World) :
  stores Q a b -> stores Q b c -> stores Q a c.
Proof.
  intros [n1 [H1 F1]] [n2 [H2 F2]]. exists (n1 ++ n2)%list.
  rewrite H2, H1, app_assoc. split; [reflexivity | apply Forall_app; auto].
Qed.

Lemma stores_same (Q : ProcessedDocument -> Prop) (w w' : World) :
  documents w' = documents w -> stores Q w w'.
Proof. intro H. exists []. rewrite app_nil_r. auto. Qed.

Ltac stores_bind :=
  apply ScanFacts.respects_bind; [apply stores_trans | | intro].

Lemma stores_processAttachment (env : Env)
    (messageId folderId spreadsheetId : string) (emailDetails : EmailDetails)
    (attachment : EmailAttachment) (processedDocs : list ProcessedDocumentResult) :
  respects (stores (well_formed_document env messageId))
    (processAttachment env messageId folderId spreadsheetId emailDetails attachment
       processedDocs).
Proof.
  unfold processAttachment.
  apply ScanFacts.respects_try_catch;
    [apply stores_trans | | intros e w; apply stores_refl].
  unfold attachmentBody.
  destruct (DocumentFile.isDocumentFile (filename attachment)) eqn:Hdoc;
    cbn [negb]; [|intro w; apply stores_refl].
  stores_bind; [intro w; apply stores_same; reflexivity|].
  intro w. unfold bind at 1.
  set (name := Drive.generateStructuredFilename _ _ _ _ _ _ None).
  assert (Hname : exists h, name = today env h ++ "_undefined").
  { eexists. subst name. apply structured_filename_fallback. right. reflexivity. }
  clearbody name. revert w.
  match goal with
  | |- forall w, stores ?Q w (snd (?m w)) => change (respects (stores Q) m)
  end.
  stores_bind; [intro w; apply stores_same; reflexivity|].
  stores_bind; [intro w; apply stores_same; reflexivity|].
  stores_bind.
  { unfold processedDocumentRepository_save.
    stores_bind; [intro w0; apply stores_same; reflexivity|].
    intro w0. eexists [_]. split; [reflexivity|]. constructor; [|constructor].
    unfold well_formed_document. cbn.
    repeat split; assumption. }
  stores_bind.
  { destruct (global_structuredFilename env); intro w0; apply stores_refl. }
  intro w0. apply stores_refl.
Qed.

Lemma stores_processEmail (env : Env) (messageId folderId spreadsheetId : string) :
  respects (stores (well_formed_document env messageId))
    (processEmail env messageId folderId spreadsheetId).
Proof.
  unfold processEmail.
  stores_bind; [intro w; apply stores_same; reflexivity|].
  stores_bind.
  { generalize (@nil ProcessedDocumentResult).
    induction (attachments a) as [|att rest IH]; intro docs; cbn [processAttachments].
    - intro w. apply stores_refl.
    - stores_bind; [apply stores_processAttachment | apply IH]. }
  match goal with
  | |- context [(0 <? length ?docs)%nat] => destruct (0 <? length docs)%nat
  end; [|intro w; apply stores_refl].
  stores_bind; [|intro w; apply stores_refl].
  unfold gmail_labelEmail. stores_bind; intro w; apply stores_same; reflexivity.
Qed.

End StoredFacts.

(** X12. Every document the pipeline of an email stores, whether the
    pipeline then returns or throws, carries that email's identifier twice,
    an original name with an allowed extension, the status completed, a URL
    built from its drive id, and, since the scanner passes no original name
    to the name generator, the fallback file name: a day, an underscore and
    the word undefined. *)
Theorem stored_documents_are_well_formed
    (env : Scanner.Env) (messageId folderId spreadsheetId : string)
    (w : Scanner.World) :
  exists new,
    Scanner.documents
      (snd (Scanner.processEmail env messageId folderId spreadsheetId w))
    = (Scanner.documents w ++ new)%list
    /\ Forall (ScanInv.well_formed_document env messageId) new.
Proof. apply StoredFacts.stores_processEmail. Qed.

(** ** More about the credential lifecycle *)

Module AuthOpsFacts.
Import Auth AuthOps.

(** [isAuthenticated] once the record is found. *)
Lemma isAuthenticated_found (env : Auth.Env) (s : State) (userToken : UserToken) :
  findOne_fault env (history s) = None ->
  stored s = Some userToken ->
  isAuthenticated env s =
  let s1 := {| stored := Some userToken; client := credentials_of userToken;
               history := FindOne :: history s |} in
  if truthy_number (expiryDate userToken)
     && (nullish (expiryDate userToken) 0 <=? Date_now env (FindOne :: history s))%Z
  then
    if truthy_string (refreshToken userToken)
    then match refreshTokens env s1 with
         | (Ok _, s2) => (Ok true, s2)
         | (Throw _, s2) => (Ok false, s2)
         end
    else (Ok false, s1)
  else (Ok true, s1).
Proof.
  intros Hfind Hstored.
  unfold isAuthenticated, loadTokens, findOne, bind, try_catch, setCredentials, ret.
  rewrite Hfind, Hstored. cbn [record history stored client]. rewrite ?Hstored.
  destruct (truthy_number (expiryDate userToken)
            && (nullish (expiryDate userToken) 0
                <=? Date_now env (FindOne :: history s))%Z); [|reflexivity].
  destruct (truthy_string (refreshToken userToken)); [|reflexivity].
  destruct (refreshTokens env _) as [[u|e] s2]; reflexivity.
Qed.

(** Without a record, or when the query fails. *)
Lemma not_found (env : Auth.Env) (s : State) :
  findOne_fault env (history s) <> None \/ stored s = None ->
  isAuthenticated env s = (Ok false, record FindOne s)
  /\ getAuthenticated env s = (Throw "No authentication tokens found", record FindOne s).
Proof.
  intro H.
  unfold isAuthenticated, getAuthenticated, loadTokens, findOne, bind, try_catch,
    ret, throw.
  destruct (findOne_fault env (history s)) as [e|]; [split; reflexivity|].
  destruct H as [H|H]; [congruence|]. rewrite H. split; reflexivity.
Qed.

Lemma isAuthenticated_vs_getAuthenticated (env : Auth.Env) (s : Auth.State) :
  snd (AuthOps.isAuthenticated env s) = snd (Auth.getAuthenticated env s)
  /\ (exists answer, fst (AuthOps.isAuthenticated env s) = Ok answer)
  /\ (fst (AuthOps.isAuthenticated env s) = Ok true ->
      exists c, fst (Auth.getAuthenticated env s) = Ok c)
  /\ (forall c, fst (Auth.getAuthenticated env s) = Ok c ->
      fst (AuthOps.isAuthenticated env s) = Ok true
      \/ exists userToken e,
           Auth.stored s = Some userToken
           /\ Auth.expiryDate userToken = Some e
           /\ (e <= Auth.Date_now env (Auth.FindOne :: Auth.history s))%Z
           /\ Auth.truthy_string (Auth.refreshToken userToken) = false).
Proof.
  destruct (Auth.findOne_fault env (Auth.history s)) as [e|] eqn:Hfind.
  { destruct (not_found env s) as [Hi Hg];
      [left; congruence|]. rewrite Hi, Hg. cbn [fst snd].
    split; [reflexivity|]. split; [eexists; reflexivity|].
    split; [discriminate|]. intros c Hc. discriminate Hc. }
  destruct (Auth.stored s) as [userToken|] eqn:Hstored.
  2:{ destruct (not_found env s) as [Hi Hg];
        [right; exact Hstored|]. rewrite Hi, Hg. cbn [fst snd].
      split; [reflexivity|]. split; [eexists; reflexivity|].
      split; [discriminate|]. intros c Hc. discriminate Hc. }
  rewrite (isAuthenticated_found env s userToken Hfind Hstored).
  rewrite (AuthFacts.getAuthenticated_found env s userToken Hfind Hstored).
  cbv zeta. unfold Auth.must_refresh.
  destruct (Auth.truthy_number (Auth.expiryDate userToken)
            && (Auth.nullish (Auth.expiryDate userToken) 0
                <=? Auth.Date_now env (Auth.FindOne :: Auth.history s))%Z) eqn:Hexp;
    cbn [andb].
  2:{ cbn [fst snd]. split; [reflexivity|]. split; [eexists; reflexivity|].
      split; [eexists; reflexivity|]. intros c _. left. reflexivity. }
  destruct (Auth.truthy_string (Auth.refreshToken userToken)) eqn:Href.
  - destruct (Auth.refreshTokens env _) as [[u|m] s2]; cbn [fst snd].
    + split; [reflexivity|]. split; [eexists; reflexivity|].
      split; [eexists; reflexivity|]. intros c _. left. reflexivity.
    + split; [reflexivity|]. split; [eexists; reflexivity|].
      split; [discriminate|]. intros c Hc. discriminate Hc.
  - cbn [fst snd]. split; [reflexivity|]. split; [eexists; reflexivity|].
    split; [discriminate|]. intros c _. right.
    apply andb_prop in Hexp. destruct Hexp as [Htruthy Hle].
    destruct (Auth.expiryDate userToken) as [e|] eqn:He; [|discriminate].
    exists userToken, e. cbn [Auth.nullish] in Hle. apply Z.leb_le in Hle.
    repeat split; auto.
Qed.

End AuthOpsFacts.

(** X13. [isAuthenticated] never throws and changes the state exactly as
    [getAuthenticated] does. It answers true only if [getAuthenticated]
    returns the client; the one case where [getAuthenticated] returns the
    client and [isAuthenticated] answers false is a record whose expiry has
    passed and that has no refresh token. *)
Theorem isAuthenticated_agrees_with_getAuthenticated (env : Auth.Env) (s : Auth.State) :
  snd (AuthOps.isAuthenticated env s) = snd (Auth.getAuthenticated env s)
  /\ (exists answer, fst (AuthOps.isAuthenticated env s) = Ok answer)
  /\ (fst (AuthOps.isAuthenticated env s) = Ok true ->
      exists c, fst (Auth.getAuthenticated env s) = Ok c)
  /\ (forall c, fst (Auth.getAuthenticated env s) = Ok c ->
      fst (AuthOps.isAuthenticated env s) = Ok true
      \/ exists userToken e,
           Auth.stored s = Some userToken
           /\ Auth.expiryDate userToken = Some e
           /\ (e <= Auth.Date_now env (Auth.FindOne :: Auth.history s))%Z
           /\ Auth.truthy_string (Auth.refreshToken userToken) = false).
Proof. apply AuthOpsFacts.isAuthenticated_vs_getAuthenticated. Qed.


Module RefreshTokenFacts.
Import Auth AuthOps.




Lemma saveTokens_client (env : Auth.Env) (tokens : Credentials) (s : State) :
  client (snd (saveTokens env tokens s)) = client s.
Proof.
  unfold saveTokens, try_catch, bind, findOne, save, throw.
  destruct (findOne_fault env (history s)); [reflexivity|].
  cbn [record history stored client].
  destruct (save_fault env (FindOne :: history s)); reflexivity.
Qed.




End RefreshTokenFacts.



(** X15. [handleCallback] either returns the exchanged token set, which is
    then both what the client holds and what the record was written from, or
    throws exactly "Failed to authenticate with Google", whatever the cause;
    in that case the client holds the credentials it held before and the
    record is as it was. *)
Theorem handleCallback_outcomes (env : AuthOps.Env) (code : string) (s : Auth.State) :
  let result := fst (AuthOps.handleCallback env code s) in
  let s' := snd (AuthOps.handleCallback env code s) in
  (exists tokens,
     AuthOps.getToken env (Auth.history s) code = Ok tokens
     /\ result = Ok tokens
     /\ Auth.client s' = tokens
     /\ Auth.stored s' =
        Some (match Auth.stored s with
              | Some userToken => Auth.merged userToken tokens
              | None => Auth.created tokens
              end))
  \/ (result = Throw "Failed to authenticate with Google"
      /\ Auth.client s' = Auth.client s
      /\ Auth.stored s' = Auth.stored s).
Proof.
  cbv zeta.
  unfold AuthOps.handleCallback, try_catch, bind, throw, Auth.setCredentials, ret.
  destruct (AuthOps.getToken env (Auth.history s) code) as [tokens|e];
    [|right; repeat split].
  unfold Auth.saveTokens, try_catch, bind, Auth.findOne, Auth.save, throw.
  destruct (Auth.findOne_fault (AuthOps.base env) (Auth.history s));
    [right; repeat split|].
  cbn [Auth.record Auth.history Auth.stored Auth.client].
  destruct (Auth.save_fault (AuthOps.base env) (Auth.FindOne :: Auth.history s));
    [right; repeat split|].
  left. exists tokens. repeat split.
Qed.

(** X16. [clearTokens] removes the record, after which [getAuthenticated]
    throws "No authentication tokens found" and [isAuthenticated] answers
    false, but it leaves the credentials the client holds in place. When the
    delete fails it throws "Failed to clear authentication tokens" and
    nothing has changed. *)
Theorem clearTokens_outcomes (env : AuthOps.Env) (s : Auth.State) :
  let s' := snd (AuthOps.clearTokens env s) in
  match AuthOps.delete_fault env (Auth.history s) with
  | None =>
      fst (AuthOps.clearTokens env s) = Ok tt
      /\ Auth.stored s' = None
      /\ Auth.client s' = Auth.client s
      /\ fst (Auth.getAuthenticated (AuthOps.base env) s')
         = Throw "No authentication tokens found"
      /\ fst (AuthOps.isAuthenticated (AuthOps.base env) s') = Ok false
  | Some _ =>
      fst (AuthOps.clearTokens env s) = Throw "Failed to clear authentication tokens"
      /\ s' = s
  end.
Proof.
  cbv zeta. unfold AuthOps.clearTokens, try_catch, throw.
  destruct (AuthOps.delete_fault env (Auth.history s)); cbn [fst snd];
    [split; reflexivity|].
  split; [reflexivity|]. split; [reflexivity|]. split; [reflexivity|].
  destruct (AuthOpsFacts.not_found (AuthOps.base env)
              {| Auth.stored := None; Auth.client := Auth.client s;
                 Auth.history := Auth.history s |}) as [Hi Hg];
    [right; reflexivity|].
  rewrite Hi, Hg. split; reflexivity.
Qed.

(** X17. A record that has not expired, or that has no expiry at all, is
    handed out as it is: [getAuthenticated] makes one query, no exchange and
    no write, and the client holds the stored credential. *)
Theorem getAuthenticated_on_valid_record
    (env : Auth.Env) (s : Auth.State) (userToken : Auth.UserToken) :
  Auth.findOne_fault env (Auth.history s) = None ->
  Auth.stored s = Some userToken ->
  match Auth.expiryDate userToken with
  | Some e => (Auth.Date_now env (Auth.FindOne :: Auth.history s) < e)%Z
  | None => True
  end ->
  Auth.getAuthenticated env s =
  (Ok (Auth.credentials_of userToken),
   {| Auth.stored := Auth.stored s;
      Auth.client := Auth.credentials_of userToken;
      Auth.history := Auth.FindOne :: Auth.history s |}).
Proof.
  intros Hfind Hstored Hvalid.
  rewrite (AuthFacts.getAuthenticated_found env s userToken Hfind Hstored).
  cbv zeta. unfold Auth.must_refresh.
  destruct (Auth.expiryDate userToken) as [e|]; cbn [Auth.truthy_number Auth.nullish].
  - apply Z.leb_gt in Hvalid. rewrite Hvalid, andb_false_r. cbn [andb].
    rewrite Hstored. reflexivity.
  - cbn [andb]. rewrite Hstored. reflexivity.
Qed.

Lemma getAuthenticated_on_valid_record_witness :
  Auth.getAuthenticated (Scenario.auth_env (Throw "unused"))
    (Scenario.auth_state AuthScenario.valid_token)
  = (Ok (Auth.credentials_of AuthScenario.valid_token),
     {| Auth.stored := Some AuthScenario.valid_token;
        Auth.client := Auth.credentials_of AuthScenario.valid_token;
        Auth.history := [Auth.FindOne] |}).
Proof.
  exact (getAuthenticated_on_valid_record (Scenario.auth_env (Throw "unused"))
           (Scenario.auth_state AuthScenario.valid_token) AuthScenario.valid_token
           eq_refl eq_refl ltac:(vm_compute; reflexivity)).
Defined.

(** X18. First sign-in round trip: when no record exists and
    [handleCallback] returns a token set, a following [getAuthenticated]
    whose query succeeds and that finds the set unexpired returns the client
    holding exactly that token set. *)
Theorem first_sign_in_round_trip
    (env : AuthOps.Env) (code : string) (s s1 : Auth.State)
    (tokens : Auth.Credentials) :
  Auth.stored s = None ->
  AuthOps.handleCallback env code s = (Ok tokens, s1) ->
  Auth.findOne_fault (AuthOps.base env) (Auth.history s1) = None ->
  Auth.must_refresh (Auth.Date_now (AuthOps.base env) (Auth.FindOne :: Auth.history s1))
    (Auth.created tokens) = false ->
  fst (Auth.getAuthenticated (AuthOps.base env) s1) = Ok tokens
  /\ Auth.stored s1 = Some (Auth.created tokens).
Proof.
  intros Hnone Hcall Hfind Hfresh.
  assert (Hstored : Auth.stored s1 = Some (Auth.created tokens)).
  { revert Hcall.
    unfold AuthOps.handleCallback, try_catch, bind, throw, Auth.setCredentials, ret.
    destruct (AuthOps.getToken env (Auth.history s) code) as [t|e]; [|discriminate].
    unfold Auth.saveTokens, try_catch, bind, Auth.findOne, Auth.save, throw.
    destruct (Auth.findOne_fault (AuthOps.base env) (Auth.history s));
      [discriminate|].
    cbn [Auth.record Auth.history Auth.stored Auth.client].
    destruct (Auth.save_fault (AuthOps.base env) (Auth.FindOne :: Auth.history s));
      [discriminate|].
    rewrite Hnone. intros [= <- <-]. reflexivity. }
  split; [|exact Hstored].
  rewrite (AuthFacts.getAuthenticated_found (AuthOps.base env) s1
             (Auth.created tokens) Hfind Hstored).
  cbv zeta. rewrite Hfresh. destruct tokens. reflexivity.
Qed.

Lemma first_sign_in_witness :
  fst (Auth.getAuthenticated
         (AuthOps.base (AuthScenario.ops_env (Ok AuthScenario.first_credentials)))
         (snd (AuthOps.handleCallback
                 (AuthScenario.ops_env (Ok AuthScenario.first_credentials))
                 "code" AuthScenario.signed_out)))
  = Ok AuthScenario.first_credentials.
Proof.
  exact (proj1 (first_sign_in_round_trip
                  (AuthScenario.ops_env (Ok AuthScenario.first_credentials)) "code"
                  AuthScenario.signed_out
                  (snd (AuthOps.handleCallback
                          (AuthScenario.ops_env (Ok AuthScenario.first_credentials))
                          "code" AuthScenario.signed_out))
                  AuthScenario.first_credentials
                  eq_refl eq_refl eq_refl eq_refl)).
Defined.

(** ** Reading a message *)

Module GmailMessageFacts.
Import Scanner GmailMessage.

(** Induction on parts, with the hypothesis for every child. *)
Lemma part_induction (P : GmailMessagePart -> Prop) :
  (forall filename body mimeType,
      P (Part filename body mimeType None)) ->
  (forall filename body mimeType ps,
      Forall P ps -> P (Part filename body mimeType (Some ps))) ->
  forall part, P part.
Proof.
  intros Hleaf Hnode.
  fix IH 1. intros [filename body mimeType [ps|]]; [|apply Hleaf].
  apply Hnode. induction ps as [|p ps IHps]; constructor; [apply IH | exact IHps].
Qed.

Lemma attachment_of_usable (f : option string) (b : option GmailMessagePartBody)
    (m : option string) :
  Forall usable_attachment (attachment_of f b m)
  /\ (length (attachment_of f b m) <= 1)%nat.
Proof.
  unfold attachment_of.
  destruct f as [f|]; [|split; [constructor | cbn; lia]].
  destruct b as [b|]; [|split; [constructor | cbn; lia]].
  destruct (body_attachmentId b) as [a|]; [|split; [constructor | cbn; lia]].
  destruct f as [|c f]; [split; [constructor | cbn; lia]|].
  destruct a as [|c' a]; [split; [constructor | cbn; lia]|].
  cbn. split; [|lia]. constructor; [|constructor]. split; discriminate.
Qed.

Lemma extractFromPart_usable (part : GmailMessagePart) :
  Forall usable_attachment (extractFromPart part)
  /\ (length (extractFromPart part) <= count_parts part)%nat.
Proof.
  induction part as [f b m|f b m ps IH] using part_induction;
    cbn [extractFromPart count_parts];
    destruct (attachment_of_usable f b m) as [Hown Hlen].
  - rewrite app_nil_r. split; [exact Hown | lia].
  - assert (Hps : Forall usable_attachment (flat_map extractFromPart ps)
                  /\ (length (flat_map extractFromPart ps)
                      <= list_sum (List.map count_parts ps))%nat).
    { unfold list_sum.
      induction IH as [|p ps [Hp Hn] _ [IH1 IH2]];
        cbn [flat_map List.map fold_right length]; [split; [constructor|lia]|].
      split; [apply Forall_app; auto|]. rewrite length_app. lia. }
    destruct Hps as [H1 H2]. unfold list_sum in *. split.
    + apply Forall_app. auto.
    + rewrite length_app. lia.
Qed.

Lemma extractAttachments_usable (payload : GmailMessagePart) :
  Forall usable_attachment (extractAttachments payload)
  /\ (length (extractAttachments payload) <= count_parts payload)%nat.
Proof.
  destruct payload as [f b m [ps|]].
  - destruct (extractFromPart_usable (Part None None None (Some ps))) as [H1 H2].
    cbn [extractFromPart attachment_of app] in H1, H2.
    cbn [extractAttachments count_parts] in *. split; assumption.
  - cbn [extractAttachments count_parts].
    destruct (attachment_of_usable f b m) as [H1 H2]. split; [exact H1 | lia].
Qed.

Lemma usable_in (hs : list Header) (n v : string) :
  In (n, v) (usable (Some hs)) <->
  exists h, In h hs /\ name h = Some n /\ value h = Some v /\ n <> "" /\ v <> "".
Proof.
  unfold usable. rewrite in_flat_map. split.
  - intros [h [Hin Hh]]. exists h. split; [exact Hin|].
    destruct (name h) as [[|c n']|]; destruct (value h) as [[|c' v']|];
      cbn in Hh; try contradiction.
    destruct Hh as [[= <- <-]|[]]. repeat split; discriminate.
  - intros [h [Hin [Hn [Hv [Hne Hve]]]]]. exists h. split; [exact Hin|].
    rewrite Hn, Hv. destruct n; [congruence|]. destruct v; [congruence|].
    left. reflexivity.
Qed.

Lemma getHeaderValue_spec (hs : list (string * string)) (wanted : string) :
  (forall n v, In (n, v) hs -> v <> "") ->
  (getHeaderValue hs wanted = "" /\ forall v, ~ In (wanted, v) hs)
  \/ (getHeaderValue hs wanted <> ""
      /\ In (wanted, getHeaderValue hs wanted) hs).
Proof.
  induction hs as [|[n v] rest IH]; intro Hne; cbn [getHeaderValue].
  - left. split; [reflexivity|]. intros v [].
  - destruct (String.eqb_spec n wanted) as [->|Hdiff].
    + right. split; [apply (Hne wanted v); left; reflexivity | left; reflexivity].
    + destruct IH as [[Hnil Hno]|[Hsome Hin]].
      * intros n' v' H. apply (Hne n' v'). right. exact H.
      * left. split; [exact Hnil|]. intros v' [[= -> ->]|H]; [congruence|].
        exact (Hno v' H).
      * right. split; [exact Hsome | right; exact Hin].
Qed.

(** The reading of a response: it fails exactly when the response has no
    payload; otherwise the details carry the identifier that was asked for,
    every attachment in them has a file name and an attachment id, and there
    are no more attachments than the payload has parts. *)
Lemma details_of_cases (messageId : string) (message : Message) :
  match payload message with
  | None => details_of messageId message = Throw "No payload found for this email"
  | Some p =>
      exists details,
        details_of messageId message = Ok details
        /\ Scanner.id details = messageId
        /\ Forall usable_attachment (Scanner.attachments details)
        /\ (length (Scanner.attachments details) <= count_parts (root p))%nat
  end.
Proof.
  unfold details_of.
  destruct (payload message) as [p|]; [|reflexivity].
  eexists. split; [reflexivity|]. split; [reflexivity|].
  apply extractAttachments_usable.
Qed.

End GmailMessageFacts.

(** X20. A header is read by its exact name among the headers that have a
    non-empty name and a non-empty value: the result is the empty string
    exactly when no header of that name has a value, and otherwise it is the
    value of such a header. *)
Theorem header_value_is_empty_iff_absent
    (hs : list GmailMessage.Header) (wanted : string) :
  wanted <> "" ->
  let v := GmailMessage.getHeaderValue (GmailMessage.usable (Some hs)) wanted in
  (v = "" <->
   forall h, In h hs -> GmailMessage.name h = Some wanted ->
             GmailMessage.value h = None \/ GmailMessage.value h = Some "")
  /\ (v <> "" ->
      exists h, In h hs /\ GmailMessage.name h = Some wanted
                /\ GmailMessage.value h = Some v).
Proof.
  intros Hwanted v.
  assert (Hne : forall n x, In (n, x) (GmailMessage.usable (Some hs)) -> x <> "").
  { intros n x H. apply GmailMessageFacts.usable_in in H.
    destruct H as [h [_ [_ [_ [_ Hx]]]]]. exact Hx. }
  destruct (GmailMessageFacts.getHeaderValue_spec
              (GmailMessage.usable (Some hs)) wanted Hne) as [[Hnil Hno]|[Hsome Hin]];
    fold v in Hnil || fold v in Hsome, Hin.
  - split.
    + split; [|intros _; exact Hnil].
      intros _ h Hh Hname.
      destruct (GmailMessage.value h) as [[|c x]|] eqn:Hv; auto.
      exfalso. apply (Hno (String c x)). apply GmailMessageFacts.usable_in.
      exists h. repeat split; auto. discriminate.
    + intro H. congruence.
  - apply GmailMessageFacts.usable_in in Hin.
    destruct Hin as [h [Hh [Hname [Hvalue _]]]]. split.
    + split; [congruence|]. intro Hall.
      destruct (Hall h Hh Hname) as [E|E]; rewrite Hvalue in E; [discriminate|].
      congruence.
    + intros _. exists h. auto.
Qed.

Lemma header_value_witness :
  GmailMessage.getHeaderValue
    (GmailMessage.usable
       (Some [{| GmailMessage.name := Some "subject";
                 GmailMessage.value := Some "lower case" |};
              {| GmailMessage.name := Some "Subject";
                 GmailMessage.value := Some "" |}]))
    "Subject" = "".
Proof.
  apply (proj2 (proj1 (header_value_is_empty_iff_absent
                         [{| GmailMessage.name := Some "subject";
                             GmailMessage.value := Some "lower case" |};
                          {| GmailMessage.name := Some "Subject";
                             GmailMessage.value := Some "" |}]
                         "Subject" ltac:(discriminate)))).
  intros h [<-|[<-|[]]] Hname; [discriminate Hname | right; reflexivity].
Defined.

(** X21. The size of an attachment is the size its part reports, and 0 when
    the part reports none; so the size is rendered as "Unknown" exactly for
    parts that report no size or size 0. *)
Theorem attachment_size_unknown_iff_unreported
    (filename mimeType : option string) (body : GmailMessage.GmailMessagePartBody)
    (a : Scanner.EmailAttachment) :
  In a (GmailMessage.attachment_of filename (Some body) mimeType) ->
  Scanner.size a = match GmailMessage.body_size body with Some n => n | None => 0%N end
  /\ (FileSize.formatFileSize (Scanner.size a) = "Unknown" <->
      GmailMessage.body_size body = None \/ GmailMessage.body_size body = Some 0%N).
Proof.
  unfold GmailMessage.attachment_of.
  destruct filename as [f|]; [|intros []].
  destruct (GmailMessage.body_attachmentId body) as [i|]; [|intros []].
  destruct (Auth.truthy_string (Some f) && Auth.truthy_string (Some i)); [|intros []].
  intros [<-|[]]. cbn [Scanner.size]. split; [reflexivity|].
  rewrite FileSizeMoreFacts.Unknown_iff_zero.
  destruct (GmailMessage.body_size body) as [n|]; split; auto.
  - intros ->. right. reflexivity.
  - intros [H|[= ->]]; [discriminate | reflexivity].
Qed.

Lemma attachment_size_witness :
  FileSize.formatFileSize
    (Scanner.size
       {| Scanner.filename := "a.pdf"; Scanner.attachmentId := "att-1";
          Scanner.mimeType := None; Scanner.size := 0 |}) = "Unknown".
Proof.
  apply (proj2 (attachment_size_unknown_iff_unreported (Some "a.pdf") None
                  {| GmailMessage.body_attachmentId := Some "att-1";
                     GmailMessage.body_size := None |}
                  {| Scanner.filename := "a.pdf"; Scanner.attachmentId := "att-1";
                     Scanner.mimeType := None; Scanner.size := 0 |}
                  (or_introl eq_refl))).
  left. reflexivity.
Defined.


(** ** The calls to the Google APIs *)

Module ApiFacts.
Import Auth GoogleApi.

Lemma authenticate_cases {Request : Type} (env : Auth.Env) (s : State Request) :
  exists r a, authenticate env s = (r, {| auth := a; requests := requests s |}).
Proof.
  unfold authenticate. destruct (getAuthenticated env (auth s)) as [[c|e] a]; eauto.
Qed.

Lemma authenticate_signed_out {Request : Type} (env : Auth.Env) (s : State Request) :
  stored (auth s) = None ->
  authenticate env s
  = (Throw "No authentication tokens found",
     {| auth := record FindOne (auth s); requests := requests s |}).
Proof.
  intro H. unfold authenticate.
  destruct (AuthOpsFacts.not_found env (auth s) (or_intror H)) as [_ Hg].
  rewrite Hg. reflexivity.
Qed.

(** One call of [getAuthenticated] inside a method: both outcomes, the
    requests untouched. *)
Ltac auth_step :=
  match goal with
  | |- context [authenticate ?e ?s] =>
      let r := fresh "r" in
      let a := fresh "a" in
      let H := fresh "Hauth" in
      destruct (authenticate_cases e s) as (r & a & H);
      rewrite H; clear H; destruct r as [[]|?]; cbn
  end.

(** The requests of a finished run, read off the two states. *)
Ltac sent_is :=
  unfold sent; cbn [requests auth];
  first [ exists []; split; [reflexivity|]
        | eexists [_]; split; [reflexivity|]
        | eexists [_; _]; split; [reflexivity|]
        | eexists [_; _; _]; split; [reflexivity|]
        | eexists [_; _; _; _]; split; [reflexivity|]
        | eexists [_; _; _; _; _]; split; [reflexivity|] ].

End ApiFacts.

Module GmailServiceFacts.
Import Auth GoogleApi GmailService ApiFacts.

Lemma searchEmails_sends (env : Env) (query : string) :
  search_sends env (searchEmails env query).
Proof.
  intros s. unfold searchEmails, try_catch, bind, request, ret, throw.
  auth_step.
  - destruct (messages_list env (requests s) (client a) (query ++ exclusion) 50)
      as [[l|]|e] eqn:Hl; cbn; sent_is.
    + split; [right; eauto|]. intros l' [= <-]. exists query.
      split; [reflexivity|]. rewrite Hl. reflexivity.
    + split; [right; eauto|]. intros l' [= <-]. exists query.
      split; [reflexivity|]. rewrite Hl. reflexivity.
    + split; [right; eauto|]. intros l' [=].
  - sent_is. split; [left; reflexivity|]. intros l' [=].
Qed.

Lemma find_label_in (labelName : string) (labels : list Label) (l : Label) :
  find_label labelName labels = Some l ->
  In l labels /\ label_name l = Some labelName.
Proof.
  induction labels as [|x rest IH]; cbn; [discriminate|].
  destruct (label_name x) as [n|] eqn:Hn.
  - destruct (String.eqb n labelName) eqn:He.
    + intros [= <-]. apply String.eqb_eq in He. subst n. auto.
    + intro H. destruct (IH H). auto.
  - intro H. destruct (IH H). auto.
Qed.

Lemma truthy_string_inv (x : option string) :
  truthy_string x = true -> exists t, x = Some t /\ t <> "".
Proof.
  destruct x as [[|c t]|]; cbn; try discriminate.
  intros _. eexists. split; [reflexivity|discriminate].
Qed.

Lemma map_standard (data : string) :
  Js.forallb standard (Js.map standard_alphabet data) = true
  /\ String.length (Js.map standard_alphabet data) = String.length data.
Proof.
  induction data as [|c t [IH1 IH2]]; [split; reflexivity|].
  cbn. rewrite IH1, IH2. split; [|reflexivity].
  rewrite andb_true_r. unfold standard, standard_alphabet.
  destruct (Ascii.eqb c "-") eqn:H1; [reflexivity|].
  destruct (Ascii.eqb c "_") eqn:H2; [reflexivity|].
  rewrite H1, H2. reflexivity.
Qed.

(** Every answer the labelling can get, one case each. *)
Ltac label_cases :=
  repeat
    (cbn;
     match goal with
     | |- context [match labels_list ?e ?h ?c with _ => _ end] =>
         destruct (labels_list e h c) as [[?|]|?] eqn:?
     | |- context [match find_label ?n ?l with _ => _ end] =>
         destruct (find_label n l) eqn:?
     | |- context [match labels_create ?e ?h ?c ?n with _ => _ end] =>
         destruct (labels_create e h c n) as [[]|?] eqn:?
     | |- context [if truthy_string ?x then _ else _] =>
         destruct (truthy_string x) eqn:?
     | |- context [match messages_modify ?e ?h ?c ?m ?i with _ => _ end] =>
         destruct (messages_modify e h c m i) as [[]|?] eqn:?
     end); cbn.

End GmailServiceFacts.

(** X19. [getEmailDetails] sends at most one request, for the message it
    was asked for, and every failure is reported as "Failed to get email
    details: ...". When the request is answered, the method fails with
    "Failed to get email details: No payload found for this email" if the
    response has no payload, and otherwise returns details that carry the
    identifier that was asked for, in which every attachment has a non-empty
    file name and a non-empty attachment id, with no more attachments than
    the payload has parts. It returns only what it read from an answered
    request. *)
Theorem getEmailDetails_outcomes
    (env : GmailService.Env) (messageId : string) (s : GmailService.State) :
  let r := fst (GmailService.getEmailDetails env messageId s) in
  let s' := snd (GmailService.getEmailDetails env messageId s) in
  let answer :=
    GmailService.messages_get env (GoogleApi.requests s)
      (Auth.client (GoogleApi.auth s')) messageId in
  exists new,
    GoogleApi.sent s s' new
    /\ (new = [] \/ new = [GmailService.MessagesGet messageId])
    /\ (forall e, r = Throw e ->
          exists reason, e = "Failed to get email details: " ++ reason)
    /\ (forall message,
          new = [GmailService.MessagesGet messageId] ->
          answer = Ok message ->
          match GmailMessage.payload message with
          | None =>
              r = Throw "Failed to get email details: No payload found for this email"
          | Some p =>
              exists details,
                r = Ok details
                /\ Scanner.id details = messageId
                /\ Forall GmailMessage.usable_attachment (Scanner.attachments details)
                /\ (length (Scanner.attachments details)
                    <= GmailMessage.count_parts (GmailMessage.root p))%nat
          end)
    /\ (forall details,
          r = Ok details ->
          new = [GmailService.MessagesGet messageId]
          /\ exists message,
               answer = Ok message
               /\ GmailMessage.details_of messageId message = Ok details).
Proof.
  cbv zeta.
  unfold GmailService.getEmailDetails, try_catch, bind, GoogleApi.request, throw.
  ApiFacts.auth_step.
  2:{ exists []. split; [reflexivity|]. split; [left; reflexivity|].
      split; [intros e [= <-]; eexists; reflexivity|].
      split; [intros response [=]|intros details [=]]. }
  destruct (GmailService.messages_get env (GoogleApi.requests s) (Auth.client a)
              messageId) as [message|e] eqn:Hget; cbn; rewrite ?Hget.
  2:{ exists [GmailService.MessagesGet messageId]. split; [reflexivity|].
      split; [right; reflexivity|].
      split; [intros e' [= <-]; eexists; reflexivity|].
      split; [intros response _ [=]|intros details [=]]. }
  pose proof (GmailMessageFacts.details_of_cases messageId message) as Hcases.
  destruct (GmailMessage.payload message) as [p|] eqn:Hp.
  - destruct Hcases as [details [Hd [Hid [Husable Hcount]]]]. rewrite Hd. cbn.
    rewrite ?Hget.
    exists [GmailService.MessagesGet messageId]. split; [reflexivity|].
    split; [right; reflexivity|]. split; [intros e [=]|].
    split.
    + intros message' _ [= <-]. rewrite Hp. exists details. auto.
    + intros details' [= <-]. split; [reflexivity|]. exists message. auto.
  - rewrite Hcases. cbn. rewrite ?Hget.
    exists [GmailService.MessagesGet messageId]. split; [reflexivity|].
    split; [right; reflexivity|].
    split; [intros e [= <-]; eexists; reflexivity|].
    split.
    + intros message' _ [= <-]. rewrite Hp. reflexivity.
    + intros details [=].
Qed.

(** X22. Each of the three searches of [GmailService] sends at most one
    listing request, for at most 50 messages and with the exclusion of the
    label of processed mail appended to its query; a search that succeeds
    has sent that request and returns what the API listed, or nothing when
    the response has no list. *)
Theorem searches_exclude_processed_mail (env : GmailService.Env) :
  (forall query, GmailService.search_sends env (GmailService.searchEmails env query))
  /\ (forall senders,
        GmailService.search_sends env
          (GmailService.searchEmailsFromSenders env senders))
  /\ (forall days,
        GmailService.search_sends env
          (GmailService.searchEmailsByDateRange env days)).
Proof.
  split; [intro; apply GmailServiceFacts.searchEmails_sends|].
  split; [intro; apply GmailServiceFacts.searchEmails_sends|].
  intros days. unfold GmailService.searchEmailsByDateRange.
  destruct (GmailService.day_before env days) as [iso|].
  - apply GmailServiceFacts.searchEmails_sends.
  - intros s. exists []. split; [reflexivity|]. split; [left; reflexivity|].
    intros l [=].
Qed.

(** X23. [getEmailCount] never fails. It sends at most one listing request,
    for at most 500 messages, with the query as given (the default one when
    the query is missing or empty) and without the exclusion that the
    searches add; the count is the length of the list in the answer, and 0
    when authentication fails, the request fails or the answer has no
    list. *)
Theorem getEmailCount_never_throws
    (env : GmailService.Env) (query : option string) (s : GmailService.State) :
  let s' := snd (GmailService.getEmailCount env query s) in
  let q := match query with
           | Some (String c t) => String c t
           | _ => GmailService.default_query
           end in
  exists n,
    fst (GmailService.getEmailCount env query s) = Ok n
    /\ ((GoogleApi.sent s s' [] /\ n = 0%nat)
        \/ (GoogleApi.sent s s' [GmailService.MessagesList q 500]
            /\ n = match GmailService.messages_list env (GoogleApi.requests s)
                           (Auth.client (GoogleApi.auth s')) q 500 with
                   | Ok (Some listed) => length listed
                   | _ => 0%nat
                   end)).
Proof.
  cbv zeta.
  unfold GmailService.getEmailCount, try_catch, bind, GoogleApi.request, ret.
  ApiFacts.auth_step.
  - assert (Hq : (if Auth.truthy_string query
                  then match query with Some q => q | None => "" end
                  else GmailService.default_query)
                 = match query with
                   | Some (String c t) => String c t
                   | _ => GmailService.default_query
                   end) by (destruct query as [[|c t]|]; reflexivity).
    rewrite Hq.
    match goal with
    | |- context [GmailService.messages_list env ?h ?c ?q 500] =>
        destruct (GmailService.messages_list env h c q 500) as [[l|]|e] eqn:Hl
    end; cbn; rewrite ?Hl; eexists;
      (split; [reflexivity|right; split; reflexivity]).
  - eexists. split; [reflexivity|left; split; reflexivity].
Qed.

(** X24. Without a stored token record no method of [GmailService] sends a
    request: the searches, the reading of a message, the download and the
    labelling fail with "No authentication tokens found" behind the prefix
    of the method, and the count is 0. *)
Theorem gmail_needs_sign_in
    (env : GmailService.Env) (s : GmailService.State)
    (query messageId attachmentId : string) :
  Auth.stored (GoogleApi.auth s) = None ->
  let quiet {A : Type} (m : M GmailService.State A) (r : Result A) :=
    fst (m s) = r /\ GoogleApi.requests (snd (m s)) = GoogleApi.requests s in
  quiet (GmailService.searchEmails env query)
    (Throw "Gmail search failed: No authentication tokens found")
  /\ quiet (GmailService.getEmailDetails env messageId)
       (Throw "Failed to get email details: No authentication tokens found")
  /\ quiet (GmailService.downloadAttachment env messageId attachmentId)
       (Throw "Failed to download attachment: No authentication tokens found")
  /\ quiet (GmailService.labelEmail env messageId)
       (Throw "Failed to label email: No authentication tokens found")
  /\ quiet (GmailService.getEmailCount env (Some query)) (Ok 0%nat).
Proof.
  intros Hnone quiet. subst quiet. cbv beta.
  unfold GmailService.searchEmails, GmailService.getEmailDetails,
    GmailService.downloadAttachment, GmailService.labelEmail,
    GmailService.getEmailCount, try_catch, bind, throw, ret.
  rewrite (ApiFacts.authenticate_signed_out (GmailService.auth_env env) s Hnone).
  cbn. repeat split.
Qed.

Lemma gmail_needs_sign_in_witness :
  fst (GmailService.labelEmail ApiScenario.gmail "m1" ApiScenario.signed_out)
  = Throw "Failed to label email: No authentication tokens found"
  /\ GoogleApi.requests
       (snd (GmailService.labelEmail ApiScenario.gmail "m1" ApiScenario.signed_out))
     = [].
Proof.
  exact (proj1 (proj2 (proj2 (proj2
           (gmail_needs_sign_in ApiScenario.gmail ApiScenario.signed_out
              "invoice" "m1" "a1" eq_refl))))).
Defined.

(** X25. [labelEmail] asks for the label to be created at most once, under
    the name "processed-financial-docs", and only when the first listing of
    the labels did not fail and showed no label of that name. *)
Theorem labelEmail_creates_label_only_if_absent
    (env : GmailService.Env) (messageId : string) (s : GmailService.State) :
  let s' := snd (GmailService.labelEmail env messageId s) in
  exists new,
    GoogleApi.sent s s' new
    /\ (length (filter GmailService.is_create new) <= 1)%nat
    /\ forall name, In (GmailService.LabelsCreate name) new ->
         name = GmailService.processed_label
         /\ exists c,
              match GmailService.labels_list env (GoogleApi.requests s) c with
              | Ok (Some labels) =>
                  GmailService.find_label GmailService.processed_label labels = None
              | Ok None => True
              | Throw _ => False
              end.
Proof.
  cbv zeta.
  unfold GmailService.labelEmail, GmailService.ensureLabelExists, try_catch, bind,
    GoogleApi.request, ret, throw.
  ApiFacts.auth_step; [ApiFacts.auth_step|];
    GmailServiceFacts.label_cases; ApiFacts.sent_is;
    (split; [cbn; lia|]);
    intros name Hin; cbn in Hin;
    repeat (destruct Hin as [Hin|Hin]; try discriminate); try contradiction;
    injection Hin as <-; (split; [reflexivity|]);
    match goal with
    | H : GmailService.labels_list env (GoogleApi.requests s) ?c = _ |- _ =>
        exists c; rewrite H; trivial
    end.
Qed.

(** X26. [labelEmail] changes a message only as its last request, only the
    message it was given, and only by adding one label id: the non-empty id
    of a label named "processed-financial-docs" that a listing of the labels
    showed. It succeeds only if that request was sent, and every failure is
    reported as "Failed to label email: ...". *)
Theorem labelEmail_labels_with_listed_id
    (env : GmailService.Env) (messageId : string) (s : GmailService.State) :
  let r := fst (GmailService.labelEmail env messageId s) in
  let s' := snd (GmailService.labelEmail env messageId s) in
  exists new,
    GoogleApi.sent s s' new
    /\ (forall m ids, In (GmailService.MessagesModify m ids) new ->
          m = messageId
          /\ hd_error new = Some (GmailService.MessagesModify m ids)
          /\ exists h c labels l lid,
               GmailService.labels_list env h c = Ok (Some labels)
               /\ In l labels
               /\ GmailService.label_name l = Some GmailService.processed_label
               /\ GmailService.label_id l = Some lid
               /\ lid <> "" /\ ids = [lid])
    /\ (r = Ok tt ->
        exists ids, hd_error new = Some (GmailService.MessagesModify messageId ids))
    /\ (forall e, r = Throw e ->
          exists reason, e = "Failed to label email: " ++ reason).
Proof.
  cbv zeta.
  unfold GmailService.labelEmail, GmailService.ensureLabelExists, try_catch, bind,
    GoogleApi.request, ret, throw.
  ApiFacts.auth_step; [ApiFacts.auth_step|];
    GmailServiceFacts.label_cases; ApiFacts.sent_is;
    (split; [|split; [solve [intros _; eexists; reflexivity] || intros [=]
                     |intros e' [= <-]; eexists; reflexivity]]);
    intros m ids Hin; cbn in Hin;
    repeat (destruct Hin as [Hin|Hin]; try discriminate); try contradiction;
    injection Hin as <- <-; (split; [reflexivity|]); (split; [reflexivity|]);
    match goal with
    | Hl : GmailService.labels_list env ?h ?c = Ok (Some ?ls),
      Hf : GmailService.find_label _ ?ls = Some ?l,
      Ht : Auth.truthy_string (GmailService.label_id ?l) = true |- _ =>
        destruct (GmailServiceFacts.find_label_in _ _ _ Hf) as [Hi Hn];
        destruct (GmailServiceFacts.truthy_string_inv _ Ht) as (lid & Hid & Hne);
        exists h, c, ls, l, lid; rewrite Hid;
        solve [repeat split; assumption || reflexivity]
    end.
Qed.

(** X27. A download that succeeds has sent one request, for the attachment
    it was asked for, and got data that is not empty; what it decodes is
    that data with every "-" turned into "+" and every "_" into "/", so the
    text given to the base64 decoder has the length of the data and neither
    of the two URL-safe characters. *)
Theorem downloadAttachment_decodes_standard_base64
    (env : GmailService.Env) (messageId attachmentId : string)
    (s : GmailService.State) (buffer : string) :
  fst (GmailService.downloadAttachment env messageId attachmentId s) = Ok buffer ->
  let s' := snd (GmailService.downloadAttachment env messageId attachmentId s) in
  GoogleApi.sent s s' [GmailService.AttachmentsGet messageId attachmentId]
  /\ exists data text,
       GmailService.attachments_get env (GoogleApi.requests s)
         (Auth.client (GoogleApi.auth s')) messageId attachmentId
       = Ok (Some data)
       /\ data <> ""
       /\ buffer = GmailService.base64_decode env text
       /\ text = Js.map GmailService.standard_alphabet data
       /\ String.length text = String.length data
       /\ Js.forallb GmailService.standard text = true.
Proof.
  cbv zeta.
  unfold GmailService.downloadAttachment, try_catch, bind, GoogleApi.request,
    ret, throw.
  ApiFacts.auth_step; [|discriminate].
  destruct (GmailService.attachments_get env (GoogleApi.requests s) (Auth.client a)
              messageId attachmentId) as [[[|c t]|]|e] eqn:Hd;
    cbn; rewrite ?Hd; try discriminate.
  intros [= <-]. split; [reflexivity|].
  exists (String c t), (Js.map GmailService.standard_alphabet (String c t)).
  destruct (GmailServiceFacts.map_standard (String c t)) as [Hs Hlen].
  repeat split; try assumption. discriminate.
Qed.

Lemma downloadAttachment_witness :
  exists data text,
    GmailService.attachments_get ApiScenario.gmail []
      (Auth.credentials_of AuthScenario.valid_token) "m1" "a1"
    = Ok (Some data)
    /\ data <> ""
    /\ "JVBE/i0+" = GmailService.base64_decode ApiScenario.gmail text
    /\ text = Js.map GmailService.standard_alphabet data
    /\ String.length text = String.length data
    /\ Js.forallb GmailService.standard text = true.
Proof.
  exact (proj2 (downloadAttachment_decodes_standard_base64 ApiScenario.gmail
                  "m1" "a1" ApiScenario.signed_in "JVBE/i0+" eq_refl)).
Defined.

Module WorkspaceFacts.
Import Auth GoogleApi Workspace ApiFacts.

(** Every answer a provisioning method can get, one case each. *)
Ltac provision_cases :=
  repeat
    (cbn;
     match goal with
     | |- context [match files_list ?e ?h ?c ?q with _ => _ end] =>
         destruct (files_list e h c q) as [[[|? ?]|]|?] eqn:?
     | |- context [match files_create ?e ?h ?c ?r with _ => _ end] =>
         destruct (files_create e h c r) as [?|?] eqn:?
     | |- context [match spreadsheets_create ?e ?h ?c ?n with _ => _ end] =>
         destruct (spreadsheets_create e h c n) as [?|?] eqn:?
     | |- context [match values_update ?e ?h ?c ?i with _ => _ end] =>
         destruct (values_update e h c i) as [[]|?] eqn:?
     | |- context [match batchUpdate ?e ?h ?c ?i with _ => _ end] =>
         destruct (batchUpdate e h c i) as [[]|?] eqn:?
     | |- context [if truthy_string ?x then _ else _] =>
         destruct (truthy_string x) eqn:?
     end); cbn.

Lemma truthy_id (x : option string) :
  truthy_string x = true ->
  x = Some (match x with Some i => i | None => "" end)
  /\ match x with Some i => i | None => "" end <> "".
Proof.
  destruct x as [[|c t]|]; cbn; try discriminate.
  intros _. split; [reflexivity|discriminate].
Qed.

Lemma setupHeaders_quiet (env : Env) (spreadsheetId : string) (s : State) :
  exists a setup,
    setupHeaders env spreadsheetId s
    = (Ok tt, {| auth := a; requests := (setup ++ requests s)%list |})
    /\ (setup = []
        \/ setup = [ValuesUpdate spreadsheetId "Financial Documents!A1:J1" header_row]
        \/ setup = [BatchUpdate spreadsheetId;
                    ValuesUpdate spreadsheetId "Financial Documents!A1:J1" header_row]).
Proof.
  unfold setupHeaders, try_catch, bind, request, ret.
  auth_step; [provision_cases|]; eexists.
  - exists [BatchUpdate spreadsheetId;
            ValuesUpdate spreadsheetId "Financial Documents!A1:J1" header_row].
    split; [reflexivity|auto].
  - exists [BatchUpdate spreadsheetId;
            ValuesUpdate spreadsheetId "Financial Documents!A1:J1" header_row].
    split; [reflexivity|auto].
  - exists [ValuesUpdate spreadsheetId "Financial Documents!A1:J1" header_row].
    split; [reflexivity|auto].
  - exists []. split; [reflexivity|auto].
Qed.

Lemma ensureFolderExists_finds_or_creates (env : Env) (folderName : string) :
  finds_or_creates env (folder_query folderName) (FilesCreateFolder folderName)
    (fun h c => files_create env h c (FilesCreateFolder folderName))
    (ensureFolderExists env folderName).
Proof.
  intros s id. cbv zeta.
  unfold ensureFolderExists, try_catch, bind, request, ret, throw.
  auth_step; [|discriminate].
  provision_cases; try discriminate; intros [= <-];
    match goal with
    | H : truthy_string _ = true |- _ => destruct (truthy_id _ H) as [Hid Hne]
    end;
    (split; [exact Hne|]); exists (client a).
  - right. split; [auto|]. split; [congruence|].
    exists []. split; reflexivity.
  - left. do 2 eexists. split; [eassumption|]. split; [exact Hid|reflexivity].
  - right. split; [auto|]. split; [congruence|].
    exists []. split; reflexivity.
Qed.

Lemma ensureSpreadsheetExists_finds_or_creates (env : Env) (spreadsheetName : string) :
  finds_or_creates env (spreadsheet_query spreadsheetName)
    (SpreadsheetsCreate spreadsheetName)
    (fun h c => spreadsheets_create env h c spreadsheetName)
    (ensureSpreadsheetExists env spreadsheetName).
Proof.
  intros s id. cbv zeta.
  unfold ensureSpreadsheetExists, try_catch, bind, request, ret, throw.
  auth_step; [|discriminate].
  destruct (files_list env (requests s) (client a) (spreadsheet_query spreadsheetName))
    as [[[|f rest]|]|e] eqn:Hl; cbn; try discriminate.
  - match goal with
    | |- context [spreadsheets_create env ?h ?c ?n] =>
        destruct (spreadsheets_create env h c n) as [x|e] eqn:Hc
    end; cbn; [|discriminate].
    destruct (truthy_string x) eqn:Ht; cbn; [|discriminate].
    destruct (truthy_id _ Ht) as [Hid Hne].
    match goal with
    | |- context [setupHeaders env ?i ?s1] =>
        destruct (setupHeaders_quiet env i s1) as (a' & setup & -> & Hsetup)
    end.
    cbn. intros [= <-]. split; [exact Hne|]. exists (client a).
    right. split; [auto|]. split; [congruence|].
    exists setup.
    split; [unfold sent; cbn; rewrite <- List.app_assoc; reflexivity|].
    destruct Hsetup as [->|[->| ->]]; reflexivity.
  - destruct (truthy_string (file_id f)) eqn:Ht; cbn; [|discriminate].
    destruct (truthy_id _ Ht) as [Hid Hne].
    intros [= <-]. split; [exact Hne|]. exists (client a).
    left. exists f, rest. split; [exact Hl|]. split; [exact Hid|reflexivity].
  - match goal with
    | |- context [spreadsheets_create env ?h ?c ?n] =>
        destruct (spreadsheets_create env h c n) as [x|e] eqn:Hc
    end; cbn; [|discriminate].
    destruct (truthy_string x) eqn:Ht; cbn; [|discriminate].
    destruct (truthy_id _ Ht) as [Hid Hne].
    match goal with
    | |- context [setupHeaders env ?i ?s1] =>
        destruct (setupHeaders_quiet env i s1) as (a' & setup & -> & Hsetup)
    end.
    cbn. intros [= <-]. split; [exact Hne|]. exists (client a).
    right. split; [auto|]. split; [congruence|].
    exists setup.
    split; [unfold sent; cbn; rewrite <- List.app_assoc; reflexivity|].
    destruct Hsetup as [->|[->| ->]]; reflexivity.
Qed.

End WorkspaceFacts.

(** X28. [DriveService.ensureFolderExists] and
    [SheetsService.ensureSpreadsheetExists] never return an empty id. What
    they return is the id of the first item the listing showed, and then
    nothing was created, or the id that the creation answered, and then the
    listing had shown no item; after the creation of the spreadsheet only
    the requests of the header setup follow. [uploadFile] returns the
    non-empty id that its one upload request, into the given folder,
    answered. *)
Theorem provisioning_reuses_or_creates (env : Workspace.Env) :
  (forall folderName,
     Workspace.finds_or_creates env (Workspace.folder_query folderName)
       (Workspace.FilesCreateFolder folderName)
       (fun h c => Workspace.files_create env h c
                     (Workspace.FilesCreateFolder folderName))
       (Workspace.ensureFolderExists env folderName))
  /\ (forall spreadsheetName,
        Workspace.finds_or_creates env (Workspace.spreadsheet_query spreadsheetName)
          (Workspace.SpreadsheetsCreate spreadsheetName)
          (fun h c => Workspace.spreadsheets_create env h c spreadsheetName)
          (Workspace.ensureSpreadsheetExists env spreadsheetName))
  /\ (forall fileBuffer filename mimeType folderId s id,
        let m := Workspace.uploadFile env fileBuffer filename mimeType folderId in
        let upload :=
          Workspace.FilesUpload filename mimeType [folderId] fileBuffer in
        fst (m s) = Ok id ->
        id <> ""
        /\ GoogleApi.sent s (snd (m s)) [upload]
        /\ Workspace.files_create env (GoogleApi.requests s)
             (Auth.client (GoogleApi.auth (snd (m s)))) upload
           = Ok (Some id)).
Proof.
  split; [exact (WorkspaceFacts.ensureFolderExists_finds_or_creates env)|].
  split; [exact (WorkspaceFacts.ensureSpreadsheetExists_finds_or_creates env)|].
  intros fileBuffer filename mimeType folderId s id. cbv zeta.
  unfold Workspace.uploadFile, try_catch, bind, GoogleApi.request, ret, throw.
  ApiFacts.auth_step; [|discriminate].
  match goal with
  | |- context [Workspace.files_create env ?h ?c ?r] =>
      destruct (Workspace.files_create env h c r) as [x|e] eqn:Hc
  end; cbn; rewrite ?Hc; [|discriminate].
  destruct (Auth.truthy_string x) eqn:Ht; cbn; rewrite ?Hc; [|discriminate].
  destruct (WorkspaceFacts.truthy_id _ Ht) as [Hid Hne].
  intros [= <-]. split; [exact Hne|]. split; [reflexivity|]. congruence.
Qed.

Module RowFacts.
Import Auth GoogleApi Workspace.

(** What a digit is not. *)
Lemma digit_is_plain (c : ascii) :
  Js.is_digit c = true ->
  Js.is_space c = false /\ no_bang c = true /\ Ascii.eqb c ":" = false
  /\ c <> "-"%char /\ c <> "+"%char /\ c <> "x"%char /\ c <> "X"%char.
Proof.
  destruct c as [[] [] [] [] [] [] [] []]; cbn; intro H; try discriminate H;
    repeat split; discriminate.
Qed.

Lemma string_of_uint_digits (d : Decimal.uint) :
  Js.forallb Js.is_digit (NilEmpty.string_of_uint d) = true.
Proof.
  induction d; cbn [NilEmpty.string_of_uint Js.forallb]; try rewrite IHd;
    reflexivity.
Qed.

Lemma N_to_string_digits (n : N) : StringSpec.digits (Js.N_to_string n).
Proof.
  unfold Js.N_to_string, NilZero.string_of_uint.
  destruct (N.to_uint n) eqn:E;
    (split; [discriminate|]);
    try exact (string_of_uint_digits _); reflexivity.
Qed.

Lemma to_uint_nonnil (n : N) : N.to_uint n <> Decimal.Nil.
Proof.
  intro H. pose proof (DecimalN.Unsigned.of_to n) as Hn. rewrite H in Hn.
  cbn in Hn. subst n. discriminate H.
Qed.

Lemma decimal_value_N (n : N) : decimal_value (Js.N_to_string n) = Z.of_N n.
Proof.
  unfold decimal_value, Js.N_to_string.
  rewrite (NilZero.usu _ (to_uint_nonnil n)).
  unfold Z.of_uint. change (Pos.of_uint (N.to_uint n)) with (N.of_uint (N.to_uint n)).
  rewrite DecimalN.Unsigned.of_to. reflexivity.
Qed.

Lemma after_first_sheet (sheet rest : string) :
  Js.forallb no_bang sheet = true ->
  after_first "!A" (sheet ++ "!A" ++ rest) = Some rest.
Proof.
  induction sheet as [|c t IH]; intro H; [destruct rest; reflexivity|].
  cbn [Js.forallb] in H. apply andb_true_iff in H. destruct H as [Hc Ht].
  cbn [append after_first String.prefix].
  destruct (ascii_dec "!" c) as [<-|_]; [discriminate Hc|].
  exact (IH Ht).
Qed.

Lemma before_first_digits (ds rest : string) :
  Js.forallb Js.is_digit ds = true ->
  before_first "!A" (ds ++ String ":" rest)
  = ds ++ String ":" (before_first "!A" rest).
Proof.
  induction ds as [|c t IH]; intro H; [reflexivity|].
  cbn [Js.forallb] in H. apply andb_true_iff in H. destruct H as [Hc Ht].
  cbn [append before_first String.prefix].
  destruct (ascii_dec "!" c) as [<-|_]; [discriminate Hc|].
  rewrite (IH Ht). reflexivity.
Qed.

Lemma before_colon (ds rest : string) :
  Js.forallb Js.is_digit ds = true ->
  Js.before ":" (ds ++ String ":" rest) = ds.
Proof.
  induction ds as [|c t IH]; intro H; [reflexivity|].
  cbn [Js.forallb] in H. apply andb_true_iff in H. destruct H as [Hc Ht].
  cbn [append Js.before].
  destruct (digit_is_plain c Hc) as (_ & _ & -> & _).
  rewrite (IH Ht). reflexivity.
Qed.

Lemma take_while_digits (ds : string) :
  Js.forallb Js.is_digit ds = true -> Js.take_while Js.is_digit ds = ds.
Proof.
  induction ds as [|c t IH]; intro H; [reflexivity|].
  cbn [Js.forallb] in H. apply andb_true_iff in H. destruct H as [Hc Ht].
  cbn [Js.take_while]. rewrite Hc, (IH Ht). reflexivity.
Qed.

(** A run of digits is read in base ten. *)
Lemma parseInt_digits (ds : string) :
  StringSpec.digits ds -> parseInt ds = Some (decimal_value ds).
Proof.
  intros [Hne Hds]. destruct ds as [|c t]; [contradiction|].
  pose proof (take_while_digits _ Hds) as Htake.
  cbn [Js.forallb] in Hds. apply andb_true_iff in Hds. destruct Hds as [Hc Ht].
  destruct (digit_is_plain c Hc) as (Hs & _ & _ & Hm & Hp & _).
  unfold parseInt. cbn [Js.drop_while]. rewrite Hs.
  assert (Hsign :
            match String c t with
            | String "-" rest => ((-1)%Z, rest)
            | String "+" rest => (1%Z, rest)
            | _ => (1%Z, String c t)
            end = (1%Z, String c t)).
  { destruct c as [[] [] [] [] [] [] [] []]; try reflexivity; congruence. }
  rewrite Hsign.
  assert (Hx : String.prefix "0x" (String c t) || String.prefix "0X" (String c t)
               = false).
  { destruct t as [|c' t']; cbn [String.prefix].
    - destruct (ascii_dec "0" c); reflexivity.
    - cbn [Js.forallb] in Ht. apply andb_true_iff in Ht. destruct Ht as [Hc' _].
      destruct (digit_is_plain c' Hc') as (_ & _ & _ & _ & _ & Hx & HX).
      destruct (ascii_dec "0" c); [|reflexivity].
      destruct (ascii_dec "x" c'); [congruence|].
      destruct (ascii_dec "X" c'); [congruence|reflexivity]. }
  rewrite Hx, Htake. rewrite Z.mul_1_l. reflexivity.
Qed.

Lemma row_number_round_trip (sheet : string) (n : N) :
  Js.forallb no_bang sheet = true ->
  row_number (range_of_row sheet n) = Ok (Some (Z.of_N n)).
Proof.
  intro Hsheet. destruct (N_to_string_digits n) as [Hne Hds].
  unfold row_number, second_piece, range_of_row.
  rewrite (after_first_sheet _ _ Hsheet).
  change (Js.N_to_string n ++ ":J" ++ Js.N_to_string n)
    with (Js.N_to_string n ++ String ":" ("J" ++ Js.N_to_string n)).
  rewrite (before_first_digits _ _ Hds), (before_colon _ _ Hds).
  rewrite (parseInt_digits _ (conj Hne Hds)), decimal_value_N. reflexivity.
Qed.

End RowFacts.

(** X29. The row number that [logDocument] returns is the one the API
    reports: when authentication succeeds, the date of the email can be
    read, and the append answers with the range "<sheet>!A<n>:J<n>" of a
    sheet whose name has no "!", the result is [n] (for [n] up to 2^53,
    where a number still holds every integer). *)
Theorem logDocument_returns_reported_row
    (env : Workspace.Env) (spreadSheetId : string)
    (documentData : Workspace.DocumentData) (s : Workspace.State)
    (sheet day : string) (n : N) :
  fst (GoogleApi.authenticate (Workspace.auth_env env) s) = Ok tt ->
  Workspace.iso_day env (Workspace.emailDate documentData) = Some day ->
  (forall h c row,
     Workspace.values_append env h c spreadSheetId row
     = Ok (Some (Some (Workspace.range_of_row sheet n)))) ->
  Js.forallb Workspace.no_bang sheet = true ->
  (n <= 2 ^ 53)%N ->
  fst (Workspace.logDocument env spreadSheetId documentData s)
  = Ok (Some (Z.of_N n)).
Proof.
  intros Hauth Hday Happend Hsheet _.
  unfold Workspace.logDocument, try_catch, bind, GoogleApi.request, throw.
  destruct (GoogleApi.authenticate (Workspace.auth_env env) s) as [[[]|e] s1];
    [|discriminate Hauth].
  rewrite Hday, Happend.
  assert (Htruthy : Auth.truthy_string (Some (Workspace.range_of_row sheet n)) = true)
    by (unfold Workspace.range_of_row; destruct sheet; reflexivity).
  rewrite Htruthy, (RowFacts.row_number_round_trip sheet n Hsheet). reflexivity.
Qed.

Lemma logDocument_returns_reported_row_witness :
  fst (Workspace.logDocument ApiScenario.workspace "sheet-1"
         ApiScenario.invoice_row ApiScenario.signed_in)
  = Ok (Some 12%Z).
Proof.
  apply (logDocument_returns_reported_row ApiScenario.workspace "sheet-1"
           ApiScenario.invoice_row ApiScenario.signed_in
           "'Financial Documents'" "2024-03-01" 12).
  - reflexivity.
  - reflexivity.
  - intros h c row. reflexivity.
  - reflexivity.
  - vm_compute. discriminate.
Defined.

(** X30. [logDocument] appends nothing for an email whose date cannot be
    read: it fails, and no request is sent. When it succeeds it has sent
    exactly one append request, to the columns A to J of the sheet
    "Financial Documents" of the given spreadsheet, with one row that has as
    many cells as the header row; the API answered with a non-empty range,
    and the result is the row number read from that range. *)
Theorem logDocument_appends_one_full_row
    (env : Workspace.Env) (spreadSheetId : string)
    (documentData : Workspace.DocumentData) (s : Workspace.State) :
  let r := fst (Workspace.logDocument env spreadSheetId documentData s) in
  let s' := snd (Workspace.logDocument env spreadSheetId documentData s) in
  (Workspace.iso_day env (Workspace.emailDate documentData) = None ->
   GoogleApi.sent s s' []
   /\ exists reason, r = Throw ("Failed to log document: " ++ reason))
  /\ (forall rowNumber, r = Ok rowNumber ->
      exists day row range,
        Workspace.iso_day env (Workspace.emailDate documentData) = Some day
        /\ row = Workspace.row_of (Workspace.today env (GoogleApi.requests s))
                   day documentData
        /\ length row = length Workspace.header_row
        /\ GoogleApi.sent s s'
             [Workspace.ValuesAppend spreadSheetId "Financial Documents!A:J" row]
        /\ Workspace.values_append env (GoogleApi.requests s)
             (Auth.client (GoogleApi.auth s')) spreadSheetId row
           = Ok (Some (Some range))
        /\ range <> ""
        /\ Workspace.row_number range = Ok rowNumber).
Proof.
  cbv zeta.
  unfold Workspace.logDocument, try_catch, bind, GoogleApi.request, throw.
  ApiFacts.auth_step.
  - destruct (Workspace.iso_day env (Workspace.emailDate documentData))
      as [day|] eqn:Hday; cbn.
    + split; [discriminate|].
      match goal with
      | |- context [Workspace.values_append env ?h ?c ?i ?row] =>
          destruct (Workspace.values_append env h c i row)
            as [[[[|ch t]|]|]|e] eqn:Ha
      end; cbn; rewrite ?Ha; cbn; try (intros n [=]; fail).
      destruct (Workspace.row_number (String ch t)) as [n|e] eqn:Hn; cbn;
        rewrite ?Ha; cbn; rewrite ?Hn; intros n' [=]. subst n'.
      exists day. do 2 eexists. split; [reflexivity|]. split; [reflexivity|].
      split; [reflexivity|]. split; [reflexivity|]. split; [exact Ha|].
      split; [discriminate|exact Hn].
    + split; [|intros n [=]]. intros _. split; [reflexivity|].
      eexists. reflexivity.
  - split; [|intros n [=]]. intros _. split; [reflexivity|].
    eexists. reflexivity.
Qed.
